(** * Inventory store and gacha settlement of the fishing plugin

    A shallow embedding of

      - [core/services/gacha_service.py]   (weighted draw, [perform_draw],
        [_grant_rewards_batch]),
      - [core/repositories/sqlite_inventory_repo.py] (the SQLite inventory
        repository),
      - the [ten_thousand_gacha] command handler of [main.py],
      - [core/services/market_service.py] (listing, buying and withdrawing
        an item),

    followed by the properties established about them.

    Conventions.  Python integers are [Z]; a Python [str] is a [string];
    [Optional[t]] is [option t].  A SQLite table is the list of its rows.
    Code that touches a store runs in the monad [M], a state monad over
    [World] with one exception.  Every [cursor.execute], [conn.execute] and
    [conn.commit] of the inventory repository is a statement that may raise:
    the field [fault] of the world says which statements do.  The stores
    whose code is not at hand (users, pools, templates, titles, audit log)
    are modelled from the spec as lookups and writes that always return:
    what a statement below says of a call that raises is said of the
    failures of the inventory database only.

    Python integers are unbounded and so is [Z]; SQLite's INTEGER has 64
    bits ([sqlite_integer]).  The arithmetic that a SQL statement does
    ([quantity + ?], [base_value * quantity], [SUM]) is modelled in [Z],
    which is what SQLite computes as long as operands and results stay
    within 64 bits; the properties that state the value of such a sum or
    product carry that bound as a hypothesis. *)

From Stdlib Require Import QArith Lqa.
From stdpp Require Import gmap strings list pretty.

Open Scope Z_scope.

(** ** Domain model *)

(** Modelled from the spec: the user aggregate ([core/domain/models.py] is
    not part of the sources at hand).  Only the fields the code below reads
    or writes are kept. *)
Record User := {
  user_id : string;
  nickname : string;
  coins : Z;
}.

(** Modelled from the spec: [User.can_afford], "user.balance >= totalCost". *)
Definition can_afford (user : User) (cost : Z) : bool :=
  bool_decide (cost ≤ coins user).

Definition with_coins (c : Z) (user : User) : User :=
  {| user_id := user_id user; nickname := nickname user; coins := c |}.

(** Modelled from the spec: [GachaPoolItem] (the domain models are not part
    of the sources at hand), with the attributes the service reads.
    [item_type] is one of the strings "rod", "accessory", "bait", "coins",
    "titles"; any other string is skipped by every [if]/[elif] chain of the
    service. *)
Record GachaPoolItem := {
  gacha_pool_id : Z;
  item_type : string;
  item_id : Z;
  quantity : Z;
  weight : Z;
}.

(** Modelled from the spec: [GachaPool], its cost per draw and its entries
    in their configured order. *)
Record GachaPool := {
  cost_coins : Z;
  items : list GachaPoolItem;
}.

(** Modelled from the spec: [GachaRecord], the audit row, with the fields
    [_create_log_record] fills.  [record_id] is always written as 0 (the
    database numbers the rows); the wall-clock [timestamp] is left out. *)
Record GachaRecord := {
  rec_user_id : string;
  rec_gacha_pool_id : Z;
  rec_item_type : string;
  rec_item_id : Z;
  rec_item_name : string;
  rec_quantity : Z;
  rec_rarity : Z;
}.

(** Modelled from the spec: the item templates, with the attributes the
    code reads (display name, rarity, the durability of a rod, the base
    value of a fish). *)
Record Rod := { rod_name : string; rod_rarity : Z; rod_durability : option Z }.
Record Accessory := { accessory_name : string; accessory_rarity : Z }.
Record Bait := { bait_name : string; bait_rarity : Z }.
Record Title := { title_name : string }.
Record Fish := { fish_name : string; base_value : Z }.

(** Modelled from the spec: the item template catalogue
    ([get_rod_by_id], [get_accessory_by_id], [get_bait_by_id],
    [get_title_by_id]); each lookup returns a template or "not found". *)
Record Catalog := {
  rods : gmap Z Rod;
  accessories : gmap Z Accessory;
  baits : gmap Z Bait;
  titles : gmap Z Title;
}.

(** ** Tables of the inventory repository *)

Record UserFishInventoryItem := {
  fish_user_id : string;
  fish_id : Z;
  fish_quantity : Z;
}.

Record UserBaitRow := {
  bait_user_id : string;
  bait_id : Z;
  bait_quantity : Z;
}.

Record UserRodInstance := {
  rod_instance_id : Z;
  rod_user_id : string;
  rod_id : Z;
  rod_is_equipped : bool;
  current_durability : option Z;
  rod_refine_level : Z;
}.

Record UserAccessoryInstance := {
  accessory_instance_id : Z;
  accessory_user_id : string;
  accessory_id : Z;
  accessory_is_equipped : bool;
  accessory_refine_level : Z;
}.

(** The values of SQLite's storage class INTEGER, signed 64-bit.  A [+] or
    [*] of two INTEGERs whose exact result is outside this range yields a
    REAL (a rounded double), an integer [SUM] that leaves it raises, and
    the sqlite3 module refuses to bind a Python integer outside it. *)
Definition sqlite_integer (z : Z) : Prop := - 2 ^ 63 ≤ z < 2 ^ 63.

(** The database file seen by [SqliteInventoryRepository].  [rod_seq] and
    [accessory_seq] are the last row ids handed out ([cursor.lastrowid]
    after an insert is the sequence value plus one); [fish] is the template
    table the repository joins with, keyed by its primary key. *)
Record Database := {
  user_fish_inventory : list UserFishInventoryItem;
  user_bait_inventory : list UserBaitRow;
  user_rods : list UserRodInstance;
  user_accessories : list UserAccessoryInstance;
  rod_seq : Z;
  accessory_seq : Z;
  fish : gmap Z Fish;
}.

Definition set_user_fish_inventory (t : list UserFishInventoryItem) (d : Database) : Database :=
  {| user_fish_inventory := t; user_bait_inventory := user_bait_inventory d;
     user_rods := user_rods d; user_accessories := user_accessories d;
     rod_seq := rod_seq d; accessory_seq := accessory_seq d; fish := fish d |}.

Definition set_user_bait_inventory (t : list UserBaitRow) (d : Database) : Database :=
  {| user_fish_inventory := user_fish_inventory d; user_bait_inventory := t;
     user_rods := user_rods d; user_accessories := user_accessories d;
     rod_seq := rod_seq d; accessory_seq := accessory_seq d; fish := fish d |}.

Definition set_user_rods (t : list UserRodInstance) (seq : Z) (d : Database) : Database :=
  {| user_fish_inventory := user_fish_inventory d;
     user_bait_inventory := user_bait_inventory d;
     user_rods := t; user_accessories := user_accessories d;
     rod_seq := seq; accessory_seq := accessory_seq d; fish := fish d |}.

Definition set_user_accessories (t : list UserAccessoryInstance) (seq : Z) (d : Database) : Database :=
  {| user_fish_inventory := user_fish_inventory d;
     user_bait_inventory := user_bait_inventory d;
     user_rods := user_rods d; user_accessories := t;
     rod_seq := rod_seq d; accessory_seq := seq; fish := fish d |}.

(** ** The world *)

(** Calls the gacha service makes to its collaborators, in the order it
    makes them. *)
Inductive Call :=
| CallRandomUniform
| CallUserUpdate (user : User)
| CallBatchAddRodInstances (uid : string) (rod_data_list : list (Z * option Z))
| CallBatchAddAccessoryInstances (uid : string) (accessory_ids : list Z)
| CallBatchUpdateBaitQuantities (uid : string) (bait_updates : list (Z * Z))
| CallGrantTitleToUser (uid : string) (title_id : Z)
| CallAddGachaRecord (record : GachaRecord).

(** Everything the code reads or writes.

    - [db], [stmt], [fault]: the inventory database, the number of SQL
      statements the repository has issued, and the statements that raise.
    - [rng], [rng_pos]: the random source; [rng i] is the value, in [0, 1),
      of the [i]-th call of [random.random()].
    - [users], [pools], [catalog], [user_titles], [gacha_records]: the
      stores behind the user, gacha, template, achievement and log
      repositories.  Modelled from the spec: those repositories are not part
      of the sources at hand; [get_by_id] is a lookup that returns a copy,
      [update] replaces the stored record, [grant_title_to_user] adds the
      pair, [add_gacha_record] appends the row.
    - [calls]: the calls made so far (see [Call]).
    - [ten_thousand_gacha_lock], [ten_thousand_gacha_user]: the admission
      slot of the plugin instance. *)
Record World := {
  db : Database;
  stmt : nat;
  fault : nat → bool;
  rng : nat → Q;
  rng_pos : nat;
  users : gmap string User;
  pools : gmap Z GachaPool;
  catalog : Catalog;
  user_titles : gset (string * Z);
  gacha_records : list GachaRecord;
  calls : list Call;
  ten_thousand_gacha_lock : bool;
  ten_thousand_gacha_user : option string;
}.

Definition set_db (d : Database) (w : World) : World :=
  {| db := d; stmt := stmt w; fault := fault w; rng := rng w; rng_pos := rng_pos w;
     users := users w; pools := pools w; catalog := catalog w;
     user_titles := user_titles w; gacha_records := gacha_records w;
     calls := calls w; ten_thousand_gacha_lock := ten_thousand_gacha_lock w;
     ten_thousand_gacha_user := ten_thousand_gacha_user w |}.

Definition set_stmt (n : nat) (w : World) : World :=
  {| db := db w; stmt := n; fault := fault w; rng := rng w; rng_pos := rng_pos w;
     users := users w; pools := pools w; catalog := catalog w;
     user_titles := user_titles w; gacha_records := gacha_records w;
     calls := calls w; ten_thousand_gacha_lock := ten_thousand_gacha_lock w;
     ten_thousand_gacha_user := ten_thousand_gacha_user w |}.

Definition set_rng_pos (n : nat) (w : World) : World :=
  {| db := db w; stmt := stmt w; fault := fault w; rng := rng w; rng_pos := n;
     users := users w; pools := pools w; catalog := catalog w;
     user_titles := user_titles w; gacha_records := gacha_records w;
     calls := calls w; ten_thousand_gacha_lock := ten_thousand_gacha_lock w;
     ten_thousand_gacha_user := ten_thousand_gacha_user w |}.

Definition set_users (us : gmap string User) (w : World) : World :=
  {| db := db w; stmt := stmt w; fault := fault w; rng := rng w; rng_pos := rng_pos w;
     users := us; pools := pools w; catalog := catalog w;
     user_titles := user_titles w; gacha_records := gacha_records w;
     calls := calls w; ten_thousand_gacha_lock := ten_thousand_gacha_lock w;
     ten_thousand_gacha_user := ten_thousand_gacha_user w |}.

Definition set_user_titles (ts : gset (string * Z)) (w : World) : World :=
  {| db := db w; stmt := stmt w; fault := fault w; rng := rng w; rng_pos := rng_pos w;
     users := users w; pools := pools w; catalog := catalog w;
     user_titles := ts; gacha_records := gacha_records w;
     calls := calls w; ten_thousand_gacha_lock := ten_thousand_gacha_lock w;
     ten_thousand_gacha_user := ten_thousand_gacha_user w |}.

Definition set_gacha_records (rs : list GachaRecord) (w : World) : World :=
  {| db := db w; stmt := stmt w; fault := fault w; rng := rng w; rng_pos := rng_pos w;
     users := users w; pools := pools w; catalog := catalog w;
     user_titles := user_titles w; gacha_records := rs;
     calls := calls w; ten_thousand_gacha_lock := ten_thousand_gacha_lock w;
     ten_thousand_gacha_user := ten_thousand_gacha_user w |}.

Definition set_calls (cs : list Call) (w : World) : World :=
  {| db := db w; stmt := stmt w; fault := fault w; rng := rng w; rng_pos := rng_pos w;
     users := users w; pools := pools w; catalog := catalog w;
     user_titles := user_titles w; gacha_records := gacha_records w;
     calls := cs; ten_thousand_gacha_lock := ten_thousand_gacha_lock w;
     ten_thousand_gacha_user := ten_thousand_gacha_user w |}.

Definition set_lock (held : bool) (holder : option string) (w : World) : World :=
  {| db := db w; stmt := stmt w; fault := fault w; rng := rng w; rng_pos := rng_pos w;
     users := users w; pools := pools w; catalog := catalog w;
     user_titles := user_titles w; gacha_records := gacha_records w;
     calls := calls w; ten_thousand_gacha_lock := held;
     ten_thousand_gacha_user := holder |}.

(** ** The monad *)

(** The outcome of a call: a value, or a raised exception (what the
    exception says is never inspected by the code, so it is not kept). *)
Inductive result (A : Type) :=
| Val (a : A)
| Exn.
Arguments Val {A} a.
Arguments Exn {A}.

Definition M (A : Type) : Type := World → result A * World.

Definition ret {A} (a : A) : M A := λ w, (Val a, w).

Definition bind {A B} (m : M A) (k : A → M B) : M B :=
  λ w, match m w with
       | (Val a, w') => k a w'
       | (Exn, w') => (Exn, w')
       end.

Notation "x <- m ;; k" := (bind m (λ x, k))
  (at level 20, m at level 99, k at level 200, only parsing).

Definition raise {A} : M A := λ w, (Exn, w).

(** [try: m except Exception: h]. *)
Definition try_except {A} (m h : M A) : M A :=
  λ w, match m w with
       | (Val a, w') => (Val a, w')
       | (Exn, w') => h w'
       end.

Definition gets {A} (f : World → A) : M A := λ w, (Val (f w), w).
Definition modify (f : World → World) : M unit := λ w, (Val tt, f w).

(** [for x in xs: body x], stopping at the first exception. *)
Fixpoint for_each {A} (xs : list A) (body : A → M unit) : M unit :=
  match xs with
  | [] => ret tt
  | x :: xs' => _ <- body x ;; for_each xs' body
  end.

Definition emit (c : Call) : M unit :=
  modify (λ w, set_calls (calls w ++ [c]) w).

(** One SQL statement: it is counted, and it raises when the world says so. *)
Definition execute : M unit :=
  λ w, let w' := set_stmt (S (stmt w)) w in
       if fault w (stmt w) then (Exn, w') else (Val tt, w').

(** A statement that changes the database. *)
Definition execute_update (f : Database → Database) : M unit :=
  _ <- execute ;; modify (λ w, set_db (f (db w)) w).

(** A statement that reads the database. *)
Definition execute_query {A} (f : Database → A) : M A :=
  _ <- execute ;; gets (λ w, f (db w)).

(** [conn.rollback()] back to the state at the start of the transaction.
    The repository opens every transaction at the start of the method. *)
Definition rollback_to (snapshot : Database) : M unit :=
  modify (set_db snapshot).

(** A transaction that is rolled back when its body raises: the
    [with conn:] block of the sqlite3 module, and the
    [try: ... except: conn.rollback(); raise] blocks of the repository.
    The body receives the state to which [conn.rollback()] returns. *)
Definition transaction {A} (body : Database → M A) : M A :=
  snapshot <- gets db ;;
  try_except (body snapshot) (_ <- rollback_to snapshot ;; raise).

(** ** The draw engine ([gacha_service.py]) *)

(** [random.uniform(a, b)] is [a + (b - a) * random.random()].  The sum and
    the product are taken here in the rationals; Python takes them in
    doubles, so its value is this one rounded, and can differ from it by a
    rounding step (it can sit on a bound that the exact value misses). *)
Definition random_uniform (a b : Z) : M Q :=
  _ <- emit CallRandomUniform ;;
  λ w, (Val (inject_Z a + (inject_Z b - inject_Z a) * rng w (rng_pos w))%Q,
        set_rng_pos (S (rng_pos w)) w).

(** [sum(item.weight for item in its)]. *)
Definition sum_weights (its : list GachaPoolItem) : Z :=
  foldr (λ item acc, weight item + acc) 0 its.

Definition total_weight (pool : GachaPool) : Z := sum_weights (items pool).

(** The [for item in pool.items] loop of [_perform_single_weighted_draw];
    falling off the end is the final [return None]. *)
Fixpoint weighted_walk (rand_val : Q) (current_weight : Z)
    (its : list GachaPoolItem) : option GachaPoolItem :=
  match its with
  | [] => None
  | item :: rest =>
      let current_weight := current_weight + weight item in
      if Qle_bool rand_val (inject_Z current_weight) then Some item
      else weighted_walk rand_val current_weight rest
  end.

Definition _perform_single_weighted_draw (pool : GachaPool) : M (option GachaPoolItem) :=
  rand_val <- random_uniform 0 (total_weight pool) ;;
  ret (weighted_walk rand_val 0 (items pool)).

(** ** The inventory repository ([sqlite_inventory_repo.py]) *)

(** *** [sell_fish_keep_one] *)

(** A row of the [SELECT ... JOIN fish] of [sell_fish_keep_one]. *)
Record FishToSell := {
  sell_fish_id : Z;
  sell_quantity : Z;
  sell_base_value : Z;
  sell_name : string;
}.

(** [SELECT ufi.fish_id, ufi.quantity, f.base_value, f.name
     FROM user_fish_inventory ufi JOIN fish f ON ufi.fish_id = f.fish_id
     WHERE ufi.user_id = ? AND ufi.quantity > 1]: an inventory row without
    a row of [fish] does not take part in the join. *)
Definition select_fish_to_sell (uid : string) (d : Database) : list FishToSell :=
  omap (λ ufi,
          f ← fish d !! fish_id ufi;
          if decide (fish_user_id ufi = uid ∧ 1 < fish_quantity ufi)
          then Some {| sell_fish_id := fish_id ufi; sell_quantity := fish_quantity ufi;
                       sell_base_value := base_value f; sell_name := fish_name f |}
          else None)
       (user_fish_inventory d).

(** [UPDATE user_fish_inventory SET quantity = 1
     WHERE user_id = ? AND quantity > 1]. *)
Definition clamp_fish_to_one (uid : string) (d : Database) : Database :=
  set_user_fish_inventory
    ((λ ufi, if decide (fish_user_id ufi = uid ∧ 1 < fish_quantity ufi)
             then {| fish_user_id := fish_user_id ufi; fish_id := fish_id ufi;
                     fish_quantity := 1 |}
             else ufi) <$> user_fish_inventory d) d.

(** The accumulation loop [for item in items_to_sell]. *)
Definition sold_value_of (items_to_sell : list FishToSell) : Z :=
  foldl (λ sold_value item, sold_value + (sell_quantity item - 1) * sell_base_value item)
        0 items_to_sell.

Definition sell_fish_keep_one (uid : string) : M Z :=
  transaction (λ snapshot,
    _ <- execute ;;                                   (* BEGIN TRANSACTION *)
    items_to_sell <- execute_query (select_fish_to_sell uid) ;;
    match items_to_sell with
    | [] => _ <- rollback_to snapshot ;; ret 0
    | _ =>
        let sold_value := sold_value_of items_to_sell in
        _ <- execute_update (clamp_fish_to_one uid) ;;
        _ <- execute ;;                               (* conn.commit() *)
        ret sold_value
    end).

(** *** [set_equipment_status] *)

Definition with_rod_equipped (b : bool) (r : UserRodInstance) : UserRodInstance :=
  {| rod_instance_id := rod_instance_id r; rod_user_id := rod_user_id r;
     rod_id := rod_id r; rod_is_equipped := b;
     current_durability := current_durability r;
     rod_refine_level := rod_refine_level r |}.

Definition with_accessory_equipped (b : bool) (a : UserAccessoryInstance) : UserAccessoryInstance :=
  {| accessory_instance_id := accessory_instance_id a;
     accessory_user_id := accessory_user_id a; accessory_id := accessory_id a;
     accessory_is_equipped := b;
     accessory_refine_level := accessory_refine_level a |}.

(** [UPDATE user_rods SET is_equipped = 0 WHERE user_id = ?]. *)
Definition unequip_rods (uid : string) (d : Database) : Database :=
  set_user_rods
    ((λ r, if decide (rod_user_id r = uid) then with_rod_equipped false r else r)
       <$> user_rods d) (rod_seq d) d.

(** [UPDATE user_accessories SET is_equipped = 0 WHERE user_id = ?]. *)
Definition unequip_accessories (uid : string) (d : Database) : Database :=
  set_user_accessories
    ((λ a, if decide (accessory_user_id a = uid) then with_accessory_equipped false a else a)
       <$> user_accessories d) (accessory_seq d) d.

(** [UPDATE user_rods SET is_equipped = 1
     WHERE rod_instance_id = ? AND user_id = ?]. *)
Definition equip_rod (uid : string) (instance_id : Z) (d : Database) : Database :=
  set_user_rods
    ((λ r, if decide (rod_instance_id r = instance_id ∧ rod_user_id r = uid)
           then with_rod_equipped true r else r)
       <$> user_rods d) (rod_seq d) d.

(** [UPDATE user_accessories SET is_equipped = 1
     WHERE accessory_instance_id = ? AND user_id = ?]. *)
Definition equip_accessory (uid : string) (instance_id : Z) (d : Database) : Database :=
  set_user_accessories
    ((λ a, if decide (accessory_instance_id a = instance_id ∧ accessory_user_id a = uid)
           then with_accessory_equipped true a else a)
       <$> user_accessories d) (accessory_seq d) d.

Definition set_equipment_status (uid : string)
    (rod_instance : option Z) (accessory_instance : option Z) : M unit :=
  transaction (λ _,
    (* reset every equipment flag of the user *)
    _ <- execute_update (unequip_rods uid) ;;
    _ <- execute_update (unequip_accessories uid) ;;
    (* set the new ones *)
    _ <- match rod_instance with
         | Some instance_id => execute_update (equip_rod uid instance_id)
         | None => ret tt
         end ;;
    _ <- match accessory_instance with
         | Some instance_id => execute_update (equip_accessory uid instance_id)
         | None => ret tt
         end ;;
    execute).                                         (* conn.commit() *)

(** *** Bait quantities *)

Definition with_bait_quantity (q : Z) (r : UserBaitRow) : UserBaitRow :=
  {| bait_user_id := bait_user_id r; bait_id := bait_id r; bait_quantity := q |}.

Definition is_bait_row (uid : string) (bid : Z) (r : UserBaitRow) : Prop :=
  bait_user_id r = uid ∧ bait_id r = bid.

Global Instance is_bait_row_dec uid bid r : Decision (is_bait_row uid bid r).
Proof. unfold is_bait_row. apply _. Defined.

(** [INSERT INTO user_bait_inventory (user_id, bait_id, quantity)
     VALUES (?, ?, MAX(0, ?))
     ON CONFLICT(user_id, bait_id) DO UPDATE SET quantity = MAX(0, quantity + ?)].
    The sum is that of [Z]: that of SQLite when it is a [sqlite_integer]. *)
Definition upsert_bait (uid : string) (bid delta : Z) (d : Database) : Database :=
  set_user_bait_inventory
    (if decide (Exists (is_bait_row uid bid) (user_bait_inventory d))
     then (λ r, if decide (is_bait_row uid bid r)
                then with_bait_quantity (Z.max 0 (bait_quantity r + delta)) r
                else r) <$> user_bait_inventory d
     else user_bait_inventory d ++
          [{| bait_user_id := uid; bait_id := bid; bait_quantity := Z.max 0 delta |}])
    d.

(** [DELETE FROM user_bait_inventory WHERE user_id = ? AND quantity <= 0]. *)
Definition delete_empty_baits (uid : string) (d : Database) : Database :=
  set_user_bait_inventory
    (filter (λ r, ¬ (bait_user_id r = uid ∧ bait_quantity r ≤ 0)) (user_bait_inventory d))
    d.

Definition update_bait_quantity (uid : string) (bid delta : Z) : M unit :=
  transaction (λ _,
    _ <- execute_update (upsert_bait uid bid delta) ;;
    (* delete the rows whose quantity is 0, to keep the data tidy *)
    _ <- execute_update (delete_empty_baits uid) ;;
    execute).                                         (* conn.commit() *)

(** [SELECT quantity FROM user_bait_inventory WHERE user_id = ? AND bait_id = ?]
    followed by [fetchone()]. *)
Definition select_bait_quantity (uid : string) (bid : Z) (d : Database) : option Z :=
  bait_quantity <$> head (filter (is_bait_row uid bid) (user_bait_inventory d)).

(** [UPDATE user_bait_inventory SET quantity = ? WHERE user_id = ? AND bait_id = ?]. *)
Definition set_bait_quantity (uid : string) (bid new_quantity : Z) (d : Database) : Database :=
  set_user_bait_inventory
    ((λ r, if decide (is_bait_row uid bid r) then with_bait_quantity new_quantity r else r)
       <$> user_bait_inventory d) d.

(** [INSERT INTO user_bait_inventory (user_id, bait_id, quantity) VALUES (?, ?, ?)]. *)
Definition insert_bait (uid : string) (bid q : Z) (d : Database) : Database :=
  set_user_bait_inventory
    (user_bait_inventory d ++ [{| bait_user_id := uid; bait_id := bid; bait_quantity := q |}]) d.

(** The body of the loop [for bait_id, delta_quantity in bait_updates]. *)
Definition batch_update_one (uid : string) (update : Z * Z) : M unit :=
  let '(bid, delta_quantity) := update in
  if decide (delta_quantity = 0) then ret tt          (* continue *)
  else
    result <- execute_query (select_bait_quantity uid bid) ;;
    match result with
    | Some current =>
        let new_quantity := Z.max 0 (current + delta_quantity) in
        execute_update (set_bait_quantity uid bid new_quantity)
    | None =>
        if decide (0 < delta_quantity)
        then execute_update (insert_bait uid bid delta_quantity)
        else ret tt
    end.

Definition batch_update_bait_quantities (uid : string) (bait_updates : list (Z * Z)) : M unit :=
  match bait_updates with
  | [] => ret tt
  | _ =>
      transaction (λ _,
        _ <- execute ;;                               (* BEGIN TRANSACTION *)
        _ <- for_each bait_updates (batch_update_one uid) ;;
        execute)                                      (* conn.commit() *)
  end.

(** *** Rod and accessory instances *)

(** What the batch methods put in the list they return: the batch insert
    returns row ids, the fallback appends what [add_rod_instance] and
    [add_accessory_instance] return, the instance itself. *)
Inductive Inserted (I : Type) :=
| InsertedId (id : Z)
| InsertedInstance (instance : I).
Arguments InsertedId {I} id.
Arguments InsertedInstance {I} instance.

Definition new_rod (instance_id : Z) (uid : string) (rid : Z)
    (durability : option Z) (refine_level : Z) : UserRodInstance :=
  {| rod_instance_id := instance_id; rod_user_id := uid; rod_id := rid;
     rod_is_equipped := false; current_durability := durability;
     rod_refine_level := refine_level |}.

(** One [INSERT INTO user_rods] of [n] rows; the rows get the next [n] ids. *)
Definition insert_rods (uid : string) (refine_level : Z)
    (rod_data_list : list (Z * option Z)) (d : Database) : Database :=
  set_user_rods
    (user_rods d ++
     imap (λ i '(rid, durability),
             new_rod (rod_seq d + 1 + Z.of_nat i) uid rid durability refine_level)
          rod_data_list)
    (rod_seq d + Z.of_nat (length rod_data_list)) d.

Definition add_rod_instance (uid : string) (rid : Z) (durability : option Z)
    (refine_level : Z) : M UserRodInstance :=
  transaction (λ _,
    _ <- execute_update (insert_rods uid refine_level [(rid, durability)]) ;;
    instance_id <- gets (λ w, rod_seq (db w)) ;;      (* cursor.lastrowid *)
    _ <- execute ;;                                   (* conn.commit() *)
    ret (new_rod instance_id uid rid durability refine_level)).

Definition _batch_insert_rod_instances (uid : string)
    (rod_data_list : list (Z * option Z)) : M (list (Inserted UserRodInstance)) :=
  transaction (λ _,
    _ <- execute ;;                                   (* BEGIN TRANSACTION *)
    _ <- execute_update (insert_rods uid 1 rod_data_list) ;;
    last_id <- gets (λ w, rod_seq (db w)) ;;          (* cursor.lastrowid *)
    let first_id := last_id - Z.of_nat (length rod_data_list) + 1 in
    let inserted_ids := seqZ first_id (last_id + 1 - first_id) in
    _ <- execute ;;                                   (* conn.commit() *)
    ret (InsertedId <$> inserted_ids)).

(** The fallback: one insert per rod; a rod whose insert raises is skipped. *)
Fixpoint _fallback_add_rod_instances (uid : string)
    (rod_data_list : list (Z * option Z)) : M (list (Inserted UserRodInstance)) :=
  match rod_data_list with
  | [] => ret []
  | (rid, durability) :: rest =>
      this <- try_except
                (instance <- add_rod_instance uid rid durability 1 ;;
                 ret [InsertedInstance instance])
                (ret []) ;;
      others <- _fallback_add_rod_instances uid rest ;;
      ret (this ++ others)
  end.

Definition batch_add_rod_instances (uid : string)
    (rod_data_list : list (Z * option Z)) : M (list (Inserted UserRodInstance)) :=
  match rod_data_list with
  | [] => ret []
  | _ =>
      try_except (_batch_insert_rod_instances uid rod_data_list)
                 (_fallback_add_rod_instances uid rod_data_list)
  end.

Definition new_accessory (instance_id : Z) (uid : string) (aid : Z)
    (refine_level : Z) : UserAccessoryInstance :=
  {| accessory_instance_id := instance_id; accessory_user_id := uid;
     accessory_id := aid; accessory_is_equipped := false;
     accessory_refine_level := refine_level |}.

(** One [INSERT INTO user_accessories] of [n] rows. *)
Definition insert_accessories (uid : string) (refine_level : Z)
    (accessory_ids : list Z) (d : Database) : Database :=
  set_user_accessories
    (user_accessories d ++
     imap (λ i aid, new_accessory (accessory_seq d + 1 + Z.of_nat i) uid aid refine_level)
          accessory_ids)
    (accessory_seq d + Z.of_nat (length accessory_ids)) d.

Definition add_accessory_instance (uid : string) (aid : Z)
    (refine_level : Z) : M UserAccessoryInstance :=
  transaction (λ _,
    _ <- execute_update (insert_accessories uid refine_level [aid]) ;;
    instance_id <- gets (λ w, accessory_seq (db w)) ;;
    _ <- execute ;;
    ret (new_accessory instance_id uid aid refine_level)).

Definition _batch_insert_accessory_instances (uid : string)
    (accessory_ids : list Z) : M (list (Inserted UserAccessoryInstance)) :=
  transaction (λ _,
    _ <- execute ;;
    _ <- execute_update (insert_accessories uid 1 accessory_ids) ;;
    last_id <- gets (λ w, accessory_seq (db w)) ;;
    let first_id := last_id - Z.of_nat (length accessory_ids) + 1 in
    let inserted_ids := seqZ first_id (last_id + 1 - first_id) in
    _ <- execute ;;
    ret (InsertedId <$> inserted_ids)).

Fixpoint _fallback_add_accessory_instances (uid : string)
    (accessory_ids : list Z) : M (list (Inserted UserAccessoryInstance)) :=
  match accessory_ids with
  | [] => ret []
  | aid :: rest =>
      this <- try_except
                (instance <- add_accessory_instance uid aid 1 ;;
                 ret [InsertedInstance instance])
                (ret []) ;;
      others <- _fallback_add_accessory_instances uid rest ;;
      ret (this ++ others)
  end.

Definition batch_add_accessory_instances (uid : string)
    (accessory_ids : list Z) : M (list (Inserted UserAccessoryInstance)) :=
  match accessory_ids with
  | [] => ret []
  | _ =>
      try_except (_batch_insert_accessory_instances uid accessory_ids)
                 (_fallback_add_accessory_instances uid accessory_ids)
  end.

(** ** The gacha service ([gacha_service.py]) *)

(** Modelled from the spec: [user_repo.get_by_id] returns a copy of the
    stored record, or [None]. *)
Definition user_repo_get_by_id (uid : string) : M (option User) :=
  gets (λ w, users w !! uid).

(** Modelled from the spec: [user_repo.update] stores the record under the
    id it carries.  It always returns here: a failure of the user store is
    not modelled. *)
Definition user_repo_update (user : User) : M unit :=
  _ <- emit (CallUserUpdate user) ;;
  modify (λ w, set_users (<[user_id user := user]> (users w)) w).

(** Modelled from the spec: [gacha_repo.get_pool_by_id]. *)
Definition gacha_repo_get_pool_by_id (pool_id : Z) : M (option GachaPool) :=
  gets (λ w, pools w !! pool_id).

(** Modelled from the spec: [achievement_repo.grant_title_to_user].  It
    always returns here; in the service the call sits inside the
    [try ... except: raise] of [_grant_rewards_batch], after the coins have
    been stored, and a failure of the title store, which is not modelled,
    would leave the earlier kinds of reward in place. *)
Definition achievement_repo_grant_title_to_user (uid : string) (title_id : Z) : M unit :=
  _ <- emit (CallGrantTitleToUser uid title_id) ;;
  modify (λ w, set_user_titles ({[ (uid, title_id) ]} ∪ user_titles w) w).

(** Modelled from the spec: [log_repo.add_gacha_record].  It always returns
    here; the service appends the audit rows one call at a time, so a
    failure of the log store, which is not modelled, would leave the rows
    before it written. *)
Definition log_repo_add_gacha_record (record : GachaRecord) : M unit :=
  _ <- emit (CallAddGachaRecord record) ;;
  modify (λ w, set_gacha_records (gacha_records w ++ [record]) w).

(** The calls of the service into the inventory repository. *)
Definition inventory_repo_batch_add_rod_instances (uid : string)
    (rod_data_list : list (Z * option Z)) : M (list (Inserted UserRodInstance)) :=
  _ <- emit (CallBatchAddRodInstances uid rod_data_list) ;;
  batch_add_rod_instances uid rod_data_list.

Definition inventory_repo_batch_add_accessory_instances (uid : string)
    (accessory_ids : list Z) : M (list (Inserted UserAccessoryInstance)) :=
  _ <- emit (CallBatchAddAccessoryInstances uid accessory_ids) ;;
  batch_add_accessory_instances uid accessory_ids.

Definition inventory_repo_batch_update_bait_quantities (uid : string)
    (bait_updates : list (Z * Z)) : M unit :=
  _ <- emit (CallBatchUpdateBaitQuantities uid bait_updates) ;;
  batch_update_bait_quantities uid bait_updates.

(** *** Aggregation in memory *)

(** The dictionary [aggregated_rewards].  [agg_baits] is the
    [defaultdict(int)], kept in insertion order as Python dictionaries are;
    [agg_titles] is the [set()]. *)
Record AggregatedRewards := {
  agg_rods : list GachaPoolItem;
  agg_accessories : list GachaPoolItem;
  agg_baits : list (Z * Z);
  agg_coins : Z;
  agg_titles : gset Z;
}.

Definition no_rewards : AggregatedRewards :=
  {| agg_rods := []; agg_accessories := []; agg_baits := []; agg_coins := 0;
     agg_titles := ∅ |}.

(** [d[k] += v] on a [defaultdict(int)]. *)
Fixpoint defaultdict_add (k v : Z) (d : list (Z * Z)) : list (Z * Z) :=
  match d with
  | [] => [(k, 0 + v)]
  | (k', v') :: d' =>
      if decide (k' = k) then (k', v' + v) :: d'
      else (k', v') :: defaultdict_add k v d'
  end.

(** The body of the aggregation loop [for item in draw_results]. *)
Definition aggregate_one (agg : AggregatedRewards) (item : GachaPoolItem) : AggregatedRewards :=
  if decide (item_type item = "rod") then
    {| agg_rods := agg_rods agg ++ [item]; agg_accessories := agg_accessories agg;
       agg_baits := agg_baits agg; agg_coins := agg_coins agg;
       agg_titles := agg_titles agg |}
  else if decide (item_type item = "accessory") then
    {| agg_rods := agg_rods agg; agg_accessories := agg_accessories agg ++ [item];
       agg_baits := agg_baits agg; agg_coins := agg_coins agg;
       agg_titles := agg_titles agg |}
  else if decide (item_type item = "bait") then
    {| agg_rods := agg_rods agg; agg_accessories := agg_accessories agg;
       agg_baits := defaultdict_add (item_id item) (quantity item) (agg_baits agg);
       agg_coins := agg_coins agg; agg_titles := agg_titles agg |}
  else if decide (item_type item = "coins") then
    {| agg_rods := agg_rods agg; agg_accessories := agg_accessories agg;
       agg_baits := agg_baits agg; agg_coins := agg_coins agg + quantity item;
       agg_titles := agg_titles agg |}
  else if decide (item_type item = "titles") then
    {| agg_rods := agg_rods agg; agg_accessories := agg_accessories agg;
       agg_baits := agg_baits agg; agg_coins := agg_coins agg;
       agg_titles := agg_titles agg ∪ {[ item_id item ]} |}
  else agg.

Definition aggregate (draw_results : list GachaPoolItem) : AggregatedRewards :=
  foldl aggregate_one no_rewards draw_results.

(** *** Granting *)

(** An entry of the list [granted_rewards] returned to the caller. *)
Inductive Reward :=
| RewardRod (id : Z) (name : string) (rarity : Z)
| RewardAccessory (id : Z) (name : string) (rarity : Z)
| RewardBait (id : Z) (name : string) (rarity : Z) (qty : Z)
| RewardCoins (qty : Z)
| RewardTitle (id : Z) (name : string).

(** [_create_log_record]: the audit row of [item]. *)
Definition _create_log_record (uid : string) (item : GachaPoolItem)
    (item_name : string) (item_rarity : Z) : GachaRecord :=
  {| rec_user_id := uid; rec_gacha_pool_id := gacha_pool_id item;
     rec_item_type := item_type item; rec_item_id := item_id item;
     rec_item_name := item_name; rec_quantity := quantity item;
     rec_rarity := item_rarity |}.

(** The throwaway object built with [type('obj', (object,), {...})]; it has
    no [weight], and none is read. *)
Definition virtual_item (ty : string) (id qty : Z) : GachaPoolItem :=
  {| gacha_pool_id := 0; item_type := ty; item_id := id; quantity := qty; weight := 0 |}.

(** The service appends to [granted_rewards] and to [log_records] at the
    same places, one entry to each: a step returns the pairs it appends. *)
Definition Granted : Type := list (Reward * GachaRecord).

(** The first loop over the rods: the rows to insert, and the cache of the
    templates found. *)
Definition collect_rod_data (cat : Catalog) (rod_items : list GachaPoolItem)
    : list (Z * option Z) * gmap Z Rod :=
  foldl (λ '(rod_data_list, rod_templates) rod_item,
           match rods cat !! item_id rod_item with
           | Some rod_template =>
               (rod_data_list ++ [(item_id rod_item, rod_durability rod_template)],
                <[item_id rod_item := rod_template]> rod_templates)
           | None => (rod_data_list, rod_templates)
           end)
        ([], ∅) rod_items.

(** The second loop over the rods, [for i, rod_item in enumerate(...)]: a
    result and an audit row for every rod whose template is in the cache. *)
Definition rod_grants (uid : string) (rod_templates : gmap Z Rod)
    (rod_items : list GachaPoolItem) : Granted :=
  omap (λ rod_item,
          rod_template ← rod_templates !! item_id rod_item;
          Some (RewardRod (item_id rod_item) (rod_name rod_template)
                          (rod_rarity rod_template),
                _create_log_record uid rod_item (rod_name rod_template)
                                   (rod_rarity rod_template)))
       rod_items.

Definition grant_rods (uid : string) (rod_items : list GachaPoolItem) : M Granted :=
  match rod_items with
  | [] => ret []
  | _ =>
      cat <- gets catalog ;;
      let '(rod_data_list, rod_templates) := collect_rod_data cat rod_items in
      match rod_data_list with
      | [] => ret []
      | _ =>
          inserted_ids <- inventory_repo_batch_add_rod_instances uid rod_data_list ;;
          ret (rod_grants uid rod_templates rod_items)
      end
  end.

Definition collect_accessory_ids (cat : Catalog) (accessory_items : list GachaPoolItem)
    : list Z * gmap Z Accessory :=
  foldl (λ '(accessory_ids, accessory_templates) accessory_item,
           match accessories cat !! item_id accessory_item with
           | Some accessory_template =>
               (accessory_ids ++ [item_id accessory_item],
                <[item_id accessory_item := accessory_template]> accessory_templates)
           | None => (accessory_ids, accessory_templates)
           end)
        ([], ∅) accessory_items.

Definition accessory_grants (uid : string) (accessory_templates : gmap Z Accessory)
    (accessory_items : list GachaPoolItem) : Granted :=
  omap (λ accessory_item,
          accessory_template ← accessory_templates !! item_id accessory_item;
          Some (RewardAccessory (item_id accessory_item)
                                (accessory_name accessory_template)
                                (accessory_rarity accessory_template),
                _create_log_record uid accessory_item
                                   (accessory_name accessory_template)
                                   (accessory_rarity accessory_template)))
       accessory_items.

Definition grant_accessories (uid : string) (accessory_items : list GachaPoolItem) : M Granted :=
  match accessory_items with
  | [] => ret []
  | _ =>
      cat <- gets catalog ;;
      let '(accessory_ids, accessory_templates) := collect_accessory_ids cat accessory_items in
      match accessory_ids with
      | [] => ret []
      | _ =>
          inserted_ids <- inventory_repo_batch_add_accessory_instances uid accessory_ids ;;
          ret (accessory_grants uid accessory_templates accessory_items)
      end
  end.

(** The loop [for bait_id, total_quantity in aggregated_rewards["baits"].items()]
    that builds the results and the audit rows: one of each for a bait whose
    template exists and whose total is positive. *)
Definition bait_grants (uid : string) (cat : Catalog) (bait_totals : list (Z * Z)) : Granted :=
  omap (λ '(bid, total_quantity),
          bait_template ← baits cat !! bid;
          if decide (0 < total_quantity)
          then Some (RewardBait bid (bait_name bait_template)
                                (bait_rarity bait_template) total_quantity,
                     _create_log_record uid (virtual_item "bait" bid total_quantity)
                                        (bait_name bait_template)
                                        (bait_rarity bait_template))
          else None)
       bait_totals.

(** The repository at hand has [batch_update_bait_quantities], so the
    [hasattr] test holds and the sequential branch is not taken. *)
Definition grant_baits (uid : string) (bait_totals : list (Z * Z)) : M Granted :=
  match bait_totals with
  | [] => ret []
  | _ =>
      let bait_updates := bait_totals in
      _ <- inventory_repo_batch_update_bait_quantities uid bait_updates ;;
      cat <- gets catalog ;;
      ret (bait_grants uid cat bait_totals)
  end.

(** [user.coins += ...] on the [None] that [get_by_id] returns for a missing
    user raises. *)
Definition grant_coins (uid : string) (total_coins : Z) : M Granted :=
  if decide (0 < total_coins) then
    user <- user_repo_get_by_id uid ;;
    match user with
    | None => raise
    | Some user =>
        _ <- user_repo_update (with_coins (coins user + total_coins) user) ;;
        ret [(RewardCoins total_coins,
              _create_log_record uid (virtual_item "coins" 0 total_coins)
                                 (pretty total_coins +:+ " 金币") 1)]
    end
  else ret [].

(** The loop over the set of title ids, in the order the set yields them. *)
Fixpoint grant_titles (uid : string) (title_ids : list Z) : M Granted :=
  match title_ids with
  | [] => ret []
  | title_id :: rest =>
      cat <- gets catalog ;;
      this <- match titles cat !! title_id with
              | Some title_template =>
                  _ <- achievement_repo_grant_title_to_user uid title_id ;;
                  ret [(RewardTitle title_id (title_name title_template),
                        _create_log_record uid (virtual_item "titles" title_id 1)
                                           (title_name title_template) 0)]
              | None => ret []
              end ;;
      others <- grant_titles uid rest ;;
      ret (this ++ others)
  end.

(** [_grant_rewards_batch].  The [except Exception as e: raise e] around
    the database phase lets every exception through; the operation counts
    only feed the logger. *)
Definition _grant_rewards_batch (uid : string) (draw_results : list GachaPoolItem)
    : M (list Reward) :=
  (* 1. aggregation in memory *)
  let aggregated_rewards := aggregate draw_results in
  (* 2. database operations *)
  from_rods <- grant_rods uid (agg_rods aggregated_rewards) ;;
  from_accessories <- grant_accessories uid (agg_accessories aggregated_rewards) ;;
  from_baits <- grant_baits uid (agg_baits aggregated_rewards) ;;
  from_coins <- grant_coins uid (agg_coins aggregated_rewards) ;;
  from_titles <- grant_titles uid (elements (agg_titles aggregated_rewards)) ;;
  let granted := from_rods ++ from_accessories ++ from_baits ++ from_coins ++ from_titles in
  let granted_rewards := granted.*1 in
  let log_records := granted.*2 in
  (* 3. the audit rows *)
  _ <- for_each log_records log_repo_add_gacha_record ;;
  ret granted_rewards.

(** *** [perform_draw] *)

(** The [message] of a failed draw: the user does not exist; the pool does
    not exist or is empty; not enough coins, [total_cost] are needed; the
    draw failed. *)
Inductive DrawMessage :=
| UserNotFound
| PoolMissingOrEmpty
| InsufficientCoins (total_cost : Z)
| DrawFailed.

(** The dictionary [perform_draw] returns: [{"success": True, "results": _}]
    or [{"success": False, "message": _}]. *)
Inductive DrawResponse :=
| Success (results : list Reward)
| Failure (message : DrawMessage).

(** The loop [for _ in range(num_draws)], collecting the items drawn. *)
Fixpoint draw_loop (n : nat) (pool : GachaPool) : M (list GachaPoolItem) :=
  match n with
  | O => ret []
  | S n' =>
      drawn_item <- _perform_single_weighted_draw pool ;;
      rest <- draw_loop n' pool ;;
      ret (match drawn_item with
           | Some item => item :: rest
           | None => rest
           end)
  end.

Definition perform_draw (uid : string) (pool_id : Z) (num_draws : Z) : M DrawResponse :=
  user <- user_repo_get_by_id uid ;;
  match user with
  | None => ret (Failure UserNotFound)
  | Some user =>
      pool <- gacha_repo_get_pool_by_id pool_id ;;
      match pool with
      | None => ret (Failure PoolMissingOrEmpty)
      | Some pool =>
          match items pool with
          | [] => ret (Failure PoolMissingOrEmpty)
          | _ =>
              let total_cost := cost_coins pool * num_draws in
              if negb (can_afford user total_cost)
              then ret (Failure (InsufficientCoins total_cost))
              else
                (* 1. draw, collecting the results in memory *)
                draw_results <- draw_loop (Z.to_nat num_draws) pool ;;
                match draw_results with
                | [] => ret (Failure DrawFailed)
                | _ =>
                    (* 2. take the cost *)
                    let user := with_coins (coins user - total_cost) user in
                    _ <- user_repo_update user ;;
                    (* 3. aggregate and grant *)
                    granted_rewards <- _grant_rewards_batch uid draw_results ;;
                    ret (Success granted_rewards)
                end
          end
      end
  end.

(** ** The command handler [ten_thousand_gacha] ([main.py]) *)

(** The message event of the host framework: [get_sender_id()] and
    [message_str]. *)
Record Event := {
  sender_id : string;
  message_str : string;
}.

(** [s.split(" ")]. *)
Fixpoint split_space (s : string) : list string :=
  match s with
  | EmptyString => [EmptyString]
  | String c rest =>
      if Ascii.eqb c (Ascii.ascii_of_nat 32) then EmptyString :: split_space rest
      else match split_space rest with
           | [] => [String c EmptyString]
           | word :: words => String c word :: words
           end
  end.

Definition digit_of (c : Ascii.ascii) : option Z :=
  let n := Z.of_N (Ascii.N_of_ascii c) in
  if decide (48 ≤ n ∧ n ≤ 57) then Some (n - 48) else None.

(** [s.isdigit()] followed by [int(s)], on a string of ASCII characters:
    [None] when [isdigit] is false, the number read otherwise.  On characters
    outside ASCII the two differ from this: [str.isdigit] also holds of
    other digits, for some of which [int] raises [ValueError] (the handler
    makes that call outside its [try]); and [int] refuses a string of more
    digits than its limit, 4300 by default. *)
Definition parse_digits (s : string) : option Z :=
  match s with
  | EmptyString => None
  | _ => foldl (λ acc c, n ← acc; d ← digit_of c; Some (10 * n + d)) (Some 0)
               (String.list_ascii_of_string s)
  end.

(** What the handler sends back.  The texts are formatted for the chat; a
    reply keeps the values a text is built from. *)
Inductive Reply :=
| ReplyAlreadyRunning
| ReplyBusy (holder_nickname : string)
| ReplyMissingPoolId
| ReplyPoolIdNotNumber
| ReplyPoolNotFound
| ReplyNotRegistered
| ReplyCoinsShort (total_cost balance : Z)
| ReplyStarting (total_cost : Z)
| ReplyProgress (processed : Z)
| ReplySummary (failed_at_batch actual_draws actual_cost refunded_cost : Z)
               (total_results : list Reward)
| ReplyFullRefund (total_cost : Z)
| ReplyAborted (processed remaining_cost : Z)
| ReplyRefundFailed (processed : Z).

Definition batch_size : Z := 2000.

(** The local variables of the handler that the loop over the sub-batches
    reads and writes; [replies] collects what the loop yields. *)
Record Locals := {
  user : User;
  total_results : list Reward;
  processed : Z;
  failed_at_batch : Z;
  replies : list Reply;
}.

(** How the loop was left: it ran to its end or to its [break], or a call
    raised. *)
Inductive LoopExit :=
| Completed
| Raised.

Section Handler.

(** While the handler is suspended at a [yield], other handlers of the
    plugin run: [env k] is what they do to the world at the [k]-th
    suspension of this call. *)
Variable env : nat → World → World.

Definition suspend (k : nat) : M unit := modify (env k).

(** [for batch in range(5)], given the batches still to run. *)
Fixpoint sub_batches (uid : string) (pool_id : Z) (pool_info : GachaPool)
    (batches : list Z) (st : Locals) : M (LoopExit * Locals) :=
  match batches with
  | [] => ret (Completed, st)
  | batch :: rest =>
      batch_result <- try_except
                        (r <- perform_draw uid pool_id batch_size ;; ret (Some r))
                        (ret None) ;;
      match batch_result with
      | None => ret (Raised, st)
      | Some (Success results) =>
          let st := {| user := user st;
                       total_results := total_results st ++ results;
                       processed := processed st + batch_size;
                       failed_at_batch := failed_at_batch st;
                       replies := replies st |} in
          if decide (batch < 4) then
            (* the progress message, not after the last batch *)
            let st := {| user := user st; total_results := total_results st;
                         processed := processed st;
                         failed_at_batch := failed_at_batch st;
                         replies := replies st ++ [ReplyProgress (processed st)] |} in
            _ <- suspend (Z.to_nat (batch + 1)) ;;
            sub_batches uid pool_id pool_info rest st
          else sub_batches uid pool_id pool_info rest st
      | Some (Failure _) =>
          (* the batch that failed *)
          let failed := batch + 1 in
          (* give back what is left of the cost *)
          let remaining_batches := 5 - batch in
          let remaining_cost := remaining_batches * batch_size * cost_coins pool_info in
          if decide (0 < remaining_cost) then
            let refunded := with_coins (coins (user st) + remaining_cost) (user st) in
            _ <- user_repo_update refunded ;;
            ret (Completed,
                 {| user := refunded; total_results := total_results st;
                    processed := processed st; failed_at_batch := failed;
                    replies := replies st |})
          else
            ret (Completed,
                 {| user := user st; total_results := total_results st;
                    processed := processed st; failed_at_batch := failed;
                    replies := replies st |})
      end
  end.

(** The [except Exception] branch of the handler: the refund after a
    call raised. *)
Definition refund_after_exception (uid : string) (pool_info : GachaPool)
    (total_cost : Z) (st : Locals) : M (list Reply) :=
  try_except
    (if decide (processed st = 0) then
       fresh <- user_repo_get_by_id uid ;;
       match fresh with
       | None => raise
       | Some fresh =>
           _ <- user_repo_update (with_coins (coins fresh + total_cost) fresh) ;;
           ret [ReplyFullRefund total_cost]
       end
     else
       let actual_cost := processed st * cost_coins pool_info in
       let remaining_cost := total_cost - actual_cost in
       _ <- (if decide (0 < remaining_cost) then
               fresh <- user_repo_get_by_id uid ;;
               match fresh with
               | None => raise
               | Some fresh =>
                   user_repo_update (with_coins (coins fresh + remaining_cost) fresh)
               end
             else ret tt) ;;
       ret [ReplyAborted (processed st) remaining_cost])
    (ret [ReplyRefundFailed (processed st)]).

Definition release_lock : M unit := modify (set_lock false None).

(** The handler.  The statistics over the rewards that the final message
    shows are formatting and are not computed here; the message keeps the
    list they are computed from. *)
Definition ten_thousand_gacha (event : Event) : M (list Reply) :=
  let uid := sender_id event in
  (* the admission slot *)
  held <- gets ten_thousand_gacha_lock ;;
  if held then
    current_user <- gets ten_thousand_gacha_user ;;
    if decide (current_user = Some uid) then ret [ReplyAlreadyRunning]
    else
      (* [get_by_id(current_user) if current_user else None]: [None] and the
         empty string are both false *)
      holder <- match current_user with
                | Some current =>
                    if decide (current = "") then ret None
                    else user_repo_get_by_id current
                | None => ret None
                end ;;
      let holder_nickname :=
        match holder with
        | Some holder => nickname holder
        | None => "未知用户"
        end in
      ret [ReplyBusy holder_nickname]
  else
    let args := split_space (message_str event) in
    if decide (length args < 2)%nat then ret [ReplyMissingPoolId]
    else
      match parse_digits (nth 1 args EmptyString) with
      | None => ret [ReplyPoolIdNotNumber]
      | Some pool_id =>
          pool_info <- gacha_repo_get_pool_by_id pool_id ;;
          match pool_info with
          | None => ret [ReplyPoolNotFound]
          | Some pool_info =>
              let total_cost := cost_coins pool_info * 10000 in
              caller <- user_repo_get_by_id uid ;;
              match caller with
              | None => ret [ReplyNotRegistered]
              | Some caller =>
                  if negb (can_afford caller total_cost)
                  then ret [ReplyCoinsShort total_cost (coins caller)]
                  else
                    (* the warning, sent before the slot is taken *)
                    _ <- suspend 0 ;;
                    (* try: *)
                    _ <- modify (set_lock true (Some uid)) ;;
                    left <- sub_batches uid pool_id pool_info (seqZ 0 5)
                              {| user := caller; total_results := [];
                                 processed := 0; failed_at_batch := -1;
                                 replies := [] |} ;;
                    let '(exit, st) := left in
                    final <- match exit with
                             | Completed =>
                                 let is_partial := bool_decide (0 < failed_at_batch st) in
                                 let actual_draws := processed st in
                                 let actual_cost := actual_draws * cost_coins pool_info in
                                 let refunded_cost :=
                                   if is_partial then total_cost - actual_cost else 0 in
                                 _ <- suspend 5 ;;
                                 _ <- release_lock ;;
                                 ret [ReplySummary (failed_at_batch st) actual_draws
                                                   actual_cost refunded_cost
                                                   (total_results st)]
                             | Raised =>
                                 (* except Exception: *)
                                 out <- refund_after_exception uid pool_info total_cost st ;;
                                 _ <- suspend 5 ;;
                                 ret out
                             end ;;
                    (* finally: *)
                    _ <- release_lock ;;
                    ret (ReplyStarting total_cost :: replies st ++ final)
              end
          end
      end.

End Handler.

(** ** More of the inventory repository *)

(** *** The fish inventory *)

(** [SELECT user_id, fish_id, quantity FROM user_fish_inventory
     WHERE user_id = ? AND quantity > 0]. *)
Definition select_fish_inventory (uid : string) (d : Database)
    : list UserFishInventoryItem :=
  filter (λ ufi, fish_user_id ufi = uid ∧ 0 < fish_quantity ufi) (user_fish_inventory d).

Definition get_fish_inventory (uid : string) : M (list UserFishInventoryItem) :=
  transaction (λ _, execute_query (select_fish_inventory uid)).

Definition with_fish_quantity (q : Z) (ufi : UserFishInventoryItem) : UserFishInventoryItem :=
  {| fish_user_id := fish_user_id ufi; fish_id := fish_id ufi; fish_quantity := q |}.

Definition is_fish_row (uid : string) (fid : Z) (ufi : UserFishInventoryItem) : Prop :=
  fish_user_id ufi = uid ∧ fish_id ufi = fid.

Global Instance is_fish_row_dec uid fid ufi : Decision (is_fish_row uid fid ufi).
Proof. unfold is_fish_row. apply _. Defined.

(** [INSERT INTO user_fish_inventory (user_id, fish_id, quantity) VALUES (?, ?, ?)
     ON CONFLICT(user_id, fish_id) DO UPDATE SET quantity = quantity + excluded.quantity].
    The sum is that of [Z]: that of SQLite when it is a [sqlite_integer]. *)
Definition upsert_fish (uid : string) (fid qty : Z) (d : Database) : Database :=
  set_user_fish_inventory
    (if decide (Exists (is_fish_row uid fid) (user_fish_inventory d))
     then (λ ufi, if decide (is_fish_row uid fid ufi)
                  then with_fish_quantity (fish_quantity ufi + qty) ufi
                  else ufi) <$> user_fish_inventory d
     else user_fish_inventory d ++
          [{| fish_user_id := uid; fish_id := fid; fish_quantity := qty |}])
    d.

Definition add_fish_to_inventory (uid : string) (fid qty : Z) : M unit :=
  transaction (λ _,
    _ <- execute_update (upsert_fish uid fid qty) ;;
    execute).                                         (* conn.commit() *)

(** [INSERT ... VALUES (?, ?, MAX(0, ?)) ON CONFLICT(user_id, fish_id)
     DO UPDATE SET quantity = MAX(0, quantity + ?)] of [update_fish_quantity]. *)
Definition upsert_fish_floored (uid : string) (fid delta : Z) (d : Database) : Database :=
  set_user_fish_inventory
    (if decide (Exists (is_fish_row uid fid) (user_fish_inventory d))
     then (λ ufi, if decide (is_fish_row uid fid ufi)
                  then with_fish_quantity (Z.max 0 (fish_quantity ufi + delta)) ufi
                  else ufi) <$> user_fish_inventory d
     else user_fish_inventory d ++
          [{| fish_user_id := uid; fish_id := fid; fish_quantity := Z.max 0 delta |}])
    d.

(** [DELETE FROM user_fish_inventory WHERE user_id = ? AND quantity <= 0]. *)
Definition delete_empty_fish (uid : string) (d : Database) : Database :=
  set_user_fish_inventory
    (filter (λ ufi, ¬ (fish_user_id ufi = uid ∧ fish_quantity ufi ≤ 0))
            (user_fish_inventory d))
    d.

Definition update_fish_quantity (uid : string) (fid delta : Z) : M unit :=
  transaction (λ _,
    _ <- execute_update (upsert_fish_floored uid fid delta) ;;
    _ <- execute_update (delete_empty_fish uid) ;;
    execute).                                         (* conn.commit() *)

Section FishRarity.

(** The column [rarity] of the table [fish], which the record [Fish] does
    not carry: the rarity of the fish of a given id. *)
Variable fish_rarity : Z → Z.

(** The optional [AND f.rarity = ?]. *)
Definition rarity_is (rarity : option Z) (fid : Z) : Prop :=
  match rarity with
  | None => True
  | Some r => fish_rarity fid = r
  end.

Global Instance rarity_is_dec rarity fid : Decision (rarity_is rarity fid).
Proof. destruct rarity; simpl; apply _. Defined.

(** The rows [f.base_value * ufi.quantity] that
    [SELECT SUM(...) FROM user_fish_inventory ufi JOIN fish f
     ON ufi.fish_id = f.fish_id WHERE ufi.user_id = ?] adds up. *)
Definition fish_values (uid : string) (rarity : option Z) (d : Database) : list Z :=
  omap (λ ufi,
          f ← fish d !! fish_id ufi;
          if decide (fish_user_id ufi = uid ∧ rarity_is rarity (fish_id ufi))
          then Some (base_value f * fish_quantity ufi)
          else None)
       (user_fish_inventory d).

(** [SUM] over no row is [NULL].  The products and the sum are those of
    [Z]: those of SQLite when every product and every partial sum is a
    [sqlite_integer] (see [fish_value_magnitude]). *)
Definition select_fish_inventory_value (uid : string) (rarity : option Z) (d : Database)
    : option Z :=
  match fish_values uid rarity d with
  | [] => None
  | values => Some (foldr Z.add 0 values)
  end.

Definition get_fish_inventory_value (uid : string) (rarity : option Z) : M Z :=
  transaction (λ _,
    result <- execute_query (select_fish_inventory_value uid rarity) ;;
    ret (default 0 result)).

(** The [WHERE] of the [DELETE] of [clear_fish_inventory]:
    [user_id = ?], or with
    [AND fish_id IN (SELECT fish_id FROM fish WHERE rarity = ?)]. *)
Definition fish_to_clear (uid : string) (rarity : option Z) (d : Database)
    (ufi : UserFishInventoryItem) : Prop :=
  fish_user_id ufi = uid ∧
  match rarity with
  | None => True
  | Some r => is_Some (fish d !! fish_id ufi) ∧ fish_rarity (fish_id ufi) = r
  end.

Global Instance fish_to_clear_dec uid rarity d ufi : Decision (fish_to_clear uid rarity d ufi).
Proof. unfold fish_to_clear. destruct rarity; apply _. Defined.

Definition delete_fish (uid : string) (rarity : option Z) (d : Database) : Database :=
  set_user_fish_inventory
    (filter (λ ufi, ¬ fish_to_clear uid rarity d ufi) (user_fish_inventory d)) d.

Definition clear_fish_inventory (uid : string) (rarity : option Z) : M unit :=
  transaction (λ _,
    _ <- execute_update (delete_fish uid rarity) ;;
    execute).                                         (* conn.commit() *)

End FishRarity.

(** *** Reading the bait inventory *)

(** [SELECT bait_id FROM user_bait_inventory WHERE user_id = ? AND quantity > 0]. *)
Definition select_disposable_baits (uid : string) (d : Database) : list Z :=
  bait_id <$> filter (λ r, bait_user_id r = uid ∧ 0 < bait_quantity r) (user_bait_inventory d).

Definition get_user_disposable_baits (uid : string) : M (list Z) :=
  transaction (λ _, execute_query (select_disposable_baits uid)).

(** [{row["bait_id"]: row["quantity"] for row in cursor.fetchall()}] over
    [SELECT bait_id, quantity FROM user_bait_inventory WHERE user_id = ?]:
    a later row of the same bait replaces an earlier one. *)
Definition select_bait_inventory (uid : string) (d : Database) : gmap Z Z :=
  foldl (λ inventory r, <[bait_id r := bait_quantity r]> inventory) ∅
        (filter (λ r, bait_user_id r = uid) (user_bait_inventory d)).

Definition get_user_bait_inventory (uid : string) : M (gmap Z Z) :=
  transaction (λ _, execute_query (select_bait_inventory uid)).

(** *** Reading, deleting and updating rod and accessory instances *)

(** [SELECT * FROM user_rods WHERE user_id = ? AND is_equipped = 1]
    and [fetchone()]. *)
Definition select_equipped_rod (uid : string) (d : Database) : option UserRodInstance :=
  head (filter (λ r, rod_user_id r = uid ∧ rod_is_equipped r = true) (user_rods d)).

Definition get_user_equipped_rod (uid : string) : M (option UserRodInstance) :=
  transaction (λ _, execute_query (select_equipped_rod uid)).

(** [SELECT * FROM user_accessories WHERE user_id = ? AND is_equipped = 1]
    and [fetchone()]. *)
Definition select_equipped_accessory (uid : string) (d : Database)
    : option UserAccessoryInstance :=
  head (filter (λ a, accessory_user_id a = uid ∧ accessory_is_equipped a = true)
               (user_accessories d)).

Definition get_user_equipped_accessory (uid : string) : M (option UserAccessoryInstance) :=
  transaction (λ _, execute_query (select_equipped_accessory uid)).

(** [SELECT * FROM user_rods WHERE user_id = ? AND rod_instance_id = ?]
    and [fetchone()]. *)
Definition select_rod_instance (uid : string) (instance_id : Z) (d : Database)
    : option UserRodInstance :=
  head (filter (λ r, rod_user_id r = uid ∧ rod_instance_id r = instance_id) (user_rods d)).

Definition get_user_rod_instance_by_id (uid : string) (instance_id : Z)
    : M (option UserRodInstance) :=
  transaction (λ _, execute_query (select_rod_instance uid instance_id)).

(** [SELECT * FROM user_rods WHERE user_id = ?]. *)
Definition select_rod_instances (uid : string) (d : Database) : list UserRodInstance :=
  filter (λ r, rod_user_id r = uid) (user_rods d).

Definition get_user_rod_instances (uid : string) : M (list UserRodInstance) :=
  transaction (λ _, execute_query (select_rod_instances uid)).

(** [DELETE FROM user_rods WHERE rod_instance_id = ?]: the owner is not
    part of the condition. *)
Definition delete_rod (instance_id : Z) (d : Database) : Database :=
  set_user_rods (filter (λ r, rod_instance_id r ≠ instance_id) (user_rods d)) (rod_seq d) d.

Definition delete_rod_instance (instance_id : Z) : M unit :=
  transaction (λ _,
    _ <- execute_update (delete_rod instance_id) ;;
    execute).                                         (* conn.commit() *)

(** [SELECT * FROM user_accessories WHERE user_id = ?]. *)
Definition select_accessory_instances (uid : string) (d : Database)
    : list UserAccessoryInstance :=
  filter (λ a, accessory_user_id a = uid) (user_accessories d).

Definition get_user_accessory_instances (uid : string) : M (list UserAccessoryInstance) :=
  transaction (λ _, execute_query (select_accessory_instances uid)).

(** [DELETE FROM user_accessories WHERE accessory_instance_id = ?]. *)
Definition delete_accessory (instance_id : Z) (d : Database) : Database :=
  set_user_accessories
    (filter (λ a, accessory_instance_id a ≠ instance_id) (user_accessories d))
    (accessory_seq d) d.

Definition delete_accessory_instance (instance_id : Z) : M unit :=
  transaction (λ _,
    _ <- execute_update (delete_accessory instance_id) ;;
    execute).                                         (* conn.commit() *)

(** [UPDATE user_rods
     SET rod_id = ?, is_equipped = ?, current_durability = ?, refine_level = ?
     WHERE rod_instance_id = ? AND user_id = ?]. *)
Definition update_rod (rod_instance : UserRodInstance) (d : Database) : Database :=
  set_user_rods
    ((λ r, if decide (rod_instance_id r = rod_instance_id rod_instance ∧
                      rod_user_id r = rod_user_id rod_instance)
           then {| rod_instance_id := rod_instance_id r; rod_user_id := rod_user_id r;
                   rod_id := rod_id rod_instance;
                   rod_is_equipped := rod_is_equipped rod_instance;
                   current_durability := current_durability rod_instance;
                   rod_refine_level := rod_refine_level rod_instance |}
           else r) <$> user_rods d)
    (rod_seq d) d.

Definition update_rod_instance (rod_instance : UserRodInstance) : M unit :=
  transaction (λ _,
    _ <- execute_update (update_rod rod_instance) ;;
    execute).                                         (* conn.commit() *)

Section RodRarity.

(** The column [rarity] of the table [rods]: the rarity of the rod of a
    given id, if the table has the row. *)
Variable rod_rarity_of : Z → option Z.

(** [rod_id IN (SELECT rod_id FROM rods WHERE rarity >= 5)]. *)
Definition five_star_rod (rid : Z) : Prop :=
  match rod_rarity_of rid with
  | Some rarity => 5 ≤ rarity
  | None => False
  end.

Global Instance five_star_rod_dec rid : Decision (five_star_rod rid).
Proof. unfold five_star_rod. destruct (rod_rarity_of rid); apply _. Defined.

(** [DELETE FROM user_rods
     WHERE user_id = ? AND is_equipped = 0 AND rod_id NOT IN
       (SELECT rod_id FROM rods WHERE rarity >= 5)]. *)
Definition delete_plain_rods (uid : string) (d : Database) : Database :=
  set_user_rods
    (filter (λ r, ¬ (rod_user_id r = uid ∧ rod_is_equipped r = false ∧
                     ¬ five_star_rod (rod_id r)))
            (user_rods d))
    (rod_seq d) d.

Definition clear_user_rod_instances (uid : string) : M unit :=
  transaction (λ _,
    _ <- execute_update (delete_plain_rods uid) ;;
    execute).                                         (* conn.commit() *)

End RodRarity.

(** *** The legacy [_grant_reward] *)

Section LegacyGrant.

(** [template.rarity if hasattr(template, "rarity") else 1] for the
    template of a title: the model of a title is not part of the sources
    at hand. *)
Variable title_log_rarity : Title → Z.

(** The first half of [_grant_reward]: the grant by item type, and the
    name and the rarity for the audit row, ["未知物品"] and 1 unless a
    template was found. *)
Definition grant_one (uid : string) (item : GachaPoolItem) : M (string * Z) :=
  let unknown := ("未知物品", 1) in
  if decide (item_type item = "rod") then
    _ <- add_rod_instance uid (item_id item) None 1 ;;
    cat <- gets catalog ;;
    ret (match rods cat !! item_id item with
         | Some template => (rod_name template, rod_rarity template)
         | None => unknown
         end)
  else if decide (item_type item = "accessory") then
    _ <- add_accessory_instance uid (item_id item) 1 ;;
    cat <- gets catalog ;;
    ret (match accessories cat !! item_id item with
         | Some template => (accessory_name template, accessory_rarity template)
         | None => unknown
         end)
  else if decide (item_type item = "bait") then
    _ <- update_bait_quantity uid (item_id item) (quantity item) ;;
    cat <- gets catalog ;;
    ret (match baits cat !! item_id item with
         | Some template => (bait_name template, bait_rarity template)
         | None => unknown
         end)
  else if decide (item_type item = "coins") then
    user <- user_repo_get_by_id uid ;;
    match user with
    | None => raise                                   (* None.coins *)
    | Some user =>
        _ <- user_repo_update (with_coins (coins user + quantity item) user) ;;
        ret (pretty (quantity item) +:+ " 金币", 1)
    end
  else if decide (item_type item = "titles") then
    _ <- achievement_repo_grant_title_to_user uid (item_id item) ;;
    cat <- gets catalog ;;
    ret (match titles cat !! item_id item with
         | Some template => (title_name template, title_log_rarity template)
         | None => unknown
         end)
  else ret unknown.

Definition _grant_reward (uid : string) (item : GachaPoolItem) : M unit :=
  named <- grant_one uid item ;;
  log_repo_add_gacha_record
    {| rec_user_id := uid; rec_gacha_pool_id := gacha_pool_id item;
       rec_item_type := item_type item; rec_item_id := item_id item;
       rec_item_name := named.1; rec_quantity := quantity item;
       rec_rarity := named.2 |}.

End LegacyGrant.

(** ** The market service ([market_service.py]) *)

(** A row of the market, with the attributes the service reads (the domain
    model is not part of the sources at hand). *)
Record MarketListing := {
  listing_user_id : string;
  listing_item_type : string;
  listing_item_id : Z;
  listing_price : Z;
  listing_refine_level : Z;
}.

(** The [message] of a refusal: the buyer, or the user, does not exist; the
    listing does not exist or was bought; the listing is the buyer's own;
    the seller is missing; not enough coins, [price] are needed; the
    listing is not the user's; the item type is not supported; the price
    is not positive; not enough coins for the fee [tax_cost]; the item does
    not exist or is not the user's; the item is equipped. *)
Inductive MarketMessage :=
| MarketUserNotFound
| ListingNotFound
| OwnListing
| SellerMissing
| MarketCoinsShort (price : Z)
| NotOwnListing
| UnsupportedItemType
| PriceNotPositive
| TaxShort (tax_cost : Z)
| ItemNotOwned
| ItemEquipped.

(** The tax row that [put_item_on_sale] logs, with the amounts it holds. *)
Record TaxRecord := {
  tax_user_id : string;
  tax_amount : Z;
  original_amount : Z;
  balance_after : Z;
}.

(** [{"success": True, ...}] or [{"success": False, "message": _}]. *)
Inductive MarketResponse :=
| MarketSuccess
| MarketFailure (message : MarketMessage).

Section Market.

(** The market repository is not part of the sources at hand: the two
    calls the service makes to it are parameters. *)
Variable market_repo_get_listing_by_id : Z → M (option MarketListing).
Variable market_repo_remove_listing : Z → M unit.

(** [rod_template.durability if rod_template else None] for the rod of a
    listing. *)
Definition listed_rod_durability (cat : Catalog) (listing : MarketListing) : option Z :=
  match rods cat !! listing_item_id listing with
  | Some rod_template => rod_durability rod_template
  | None => None
  end.

Definition buy_market_item (buyer_id : string) (market_id : Z) : M MarketResponse :=
  buyer <- user_repo_get_by_id buyer_id ;;
  match buyer with
  | None => ret (MarketFailure MarketUserNotFound)
  | Some buyer =>
      listing <- market_repo_get_listing_by_id market_id ;;
      match listing with
      | None => ret (MarketFailure ListingNotFound)
      | Some listing =>
          if decide (buyer_id = listing_user_id listing)
          then ret (MarketFailure OwnListing)
          else
            seller <- user_repo_get_by_id (listing_user_id listing) ;;
            match seller with
            | None => ret (MarketFailure SellerMissing)
            | Some seller =>
                if negb (can_afford buyer (listing_price listing))
                then ret (MarketFailure (MarketCoinsShort (listing_price listing)))
                else
                  (* 1. take the price from the buyer *)
                  _ <- user_repo_update
                         (with_coins (coins buyer - listing_price listing) buyer) ;;
                  (* 2. pay the seller *)
                  _ <- user_repo_update
                         (with_coins (coins seller + listing_price listing) seller) ;;
                  (* 3. hand the item to the buyer *)
                  _ <- (if decide (listing_item_type listing = "rod") then
                          cat <- gets catalog ;;
                          _ <- add_rod_instance buyer_id (listing_item_id listing)
                                 (listed_rod_durability cat listing)
                                 (listing_refine_level listing) ;;
                          ret tt
                        else if decide (listing_item_type listing = "accessory") then
                          _ <- add_accessory_instance buyer_id (listing_item_id listing)
                                 (listing_refine_level listing) ;;
                          ret tt
                        else ret tt) ;;
                  (* 4. take the listing off the market *)
                  _ <- market_repo_remove_listing market_id ;;
                  ret MarketSuccess
            end
      end
  end.

Definition remove_item_from_market (uid : string) (market_id : Z) : M MarketResponse :=
  user <- user_repo_get_by_id uid ;;
  match user with
  | None => ret (MarketFailure MarketUserNotFound)
  | Some _ =>
      listing <- market_repo_get_listing_by_id market_id ;;
      match listing with
      | None => ret (MarketFailure ListingNotFound)
      | Some listing =>
          if decide (uid ≠ listing_user_id listing)
          then ret (MarketFailure NotOwnListing)
          else
            (* the item goes back to the inventory of the user *)
            if decide (listing_item_type listing = "rod") then
              cat <- gets catalog ;;
              _ <- add_rod_instance uid (listing_item_id listing)
                     (listed_rod_durability cat listing)
                     (listing_refine_level listing) ;;
              _ <- market_repo_remove_listing market_id ;;
              ret MarketSuccess
            else if decide (listing_item_type listing = "accessory") then
              _ <- add_accessory_instance uid (listing_item_id listing)
                     (listing_refine_level listing) ;;
              _ <- market_repo_remove_listing market_id ;;
              ret MarketSuccess
            else ret (MarketFailure UnsupportedItemType)
      end
  end.

End Market.

Section Listing.

(** [int(price * tax_rate)], the fee for a price: a product of floats,
    with the rate read from the configuration; it is a parameter here. *)
Variable listing_tax : Z → Z.

(** [log_repo.add_tax_record] and [market_repo.add_listing]: neither
    repository is part of the sources at hand. *)
Variable log_repo_add_tax_record : TaxRecord → M unit.
Variable market_repo_add_listing : MarketListing → M unit.

(** The steps 2 to 4 of [put_item_on_sale]: the fee, its log row and the
    listing. *)
Definition list_item (uid : string) (seller : User) (item_type : string)
    (item_template_id price item_refine_level : Z) : M MarketResponse :=
  let tax_cost := listing_tax price in
  let seller := with_coins (coins seller - tax_cost) seller in
  _ <- user_repo_update seller ;;
  _ <- log_repo_add_tax_record
         {| tax_user_id := uid; tax_amount := tax_cost; original_amount := price;
            balance_after := coins seller |} ;;
  _ <- market_repo_add_listing
         {| listing_user_id := uid; listing_item_type := item_type;
            listing_item_id := item_template_id; listing_price := price;
            listing_refine_level := item_refine_level |} ;;
  ret MarketSuccess.

Definition put_item_on_sale (uid : string) (item_type : string)
    (item_instance_id price : Z) : M MarketResponse :=
  if decide (price ≤ 0) then ret (MarketFailure PriceNotPositive)
  else
    seller <- user_repo_get_by_id uid ;;
    match seller with
    | None => ret (MarketFailure MarketUserNotFound)
    | Some seller =>
        let tax_cost := listing_tax price in
        if negb (can_afford seller tax_cost) then ret (MarketFailure (TaxShort tax_cost))
        else if decide (item_type = "rod") then
          user_items <- get_user_rod_instances uid ;;
          (* next((i for i in user_items if ...), None); the template read
             after it only supplies the name and the description shown
             with the listing, which [MarketListing] leaves out *)
          match head (filter (λ i, rod_instance_id i = item_instance_id) user_items) with
          | None => ret (MarketFailure ItemNotOwned)
          | Some item_to_list =>
              if rod_is_equipped item_to_list then ret (MarketFailure ItemEquipped)
              else
                (* 1. take the item out of the inventory *)
                _ <- delete_rod_instance item_instance_id ;;
                list_item uid seller item_type (rod_id item_to_list) price
                          (rod_refine_level item_to_list)
          end
        else if decide (item_type = "accessory") then
          user_items <- get_user_accessory_instances uid ;;
          match head (filter (λ i, accessory_instance_id i = item_instance_id) user_items) with
          | None => ret (MarketFailure ItemNotOwned)
          | Some item_to_list =>
              if accessory_is_equipped item_to_list then ret (MarketFailure ItemEquipped)
              else
                _ <- delete_accessory_instance item_instance_id ;;
                list_item uid seller item_type (accessory_id item_to_list) price
                          (accessory_refine_level item_to_list)
          end
        else ret (MarketFailure UnsupportedItemType)
    end.

End Listing.

(** ** Predicates of the statements *)

(** No bait row has a negative quantity. *)
Definition quantities_not_negative (d : Database) : Prop :=
  Forall (λ r, 0 ≤ bait_quantity r) (user_bait_inventory d).

(** [new] is [old] with its quantity brought down to 1 if it was above 1
    and the row is of user [uid]; it is [old] otherwise. *)
Definition clamped_to_one (uid : string) (old new : UserFishInventoryItem) : Prop :=
  fish_user_id new = fish_user_id old ∧ fish_id new = fish_id old ∧
  fish_quantity new
  = if decide (fish_user_id old = uid ∧ 1 < fish_quantity old) then 1 else fish_quantity old.

(** [keeps R m]: whatever its outcome, [m] takes a world to one related to
    it by [R]. *)
Definition keeps (R : World → World → Prop) {A} (m : M A) : Prop :=
  ∀ w, R w (m w).2.


(** The draws of bait [bid], and the sum of their quantities. *)
Definition is_bait_draw (bid : Z) (item : GachaPoolItem) : Prop :=
  item_type item = "bait" ∧ item_id item = bid.

Global Instance is_bait_draw_dec bid item : Decision (is_bait_draw bid item).
Proof. unfold is_bait_draw. apply _. Defined.

Definition bait_total (bid : Z) (draw_results : list GachaPoolItem) : Z :=
  foldr (λ item total, (if decide (is_bait_draw bid item) then quantity item else 0) + total)
        0 draw_results.

(** Between two worlds, the audit table and the catalogue are the same. *)
Definition audit_kept (w w' : World) : Prop :=
  gacha_records w' = gacha_records w ∧ catalog w' = catalog w.

(** The audit rows for bait [bid] among [records]. *)
Definition bait_records (bid : Z) (records : list GachaRecord) : list GachaRecord :=
  filter (λ r, rec_item_type r = "bait" ∧ rec_item_id r = bid) records.

(** The audit rows of item type [ty] among [records]. *)
Definition records_of_type (ty : string) (records : list GachaRecord) : list GachaRecord :=
  filter (λ r, rec_item_type r = ty) records.

(** The audit row of one drawn rod, if its template exists. *)
Definition rod_audit_row (uid : string) (cat : Catalog) (item : GachaPoolItem)
    : option GachaRecord :=
  rod_template ← rods cat !! item_id item;
  Some (_create_log_record uid item (rod_name rod_template) (rod_rarity rod_template)).

(** What [get_fish_inventory_value] reads from the database [d]. *)
Definition fish_inventory_value (fish_rarity : Z → Z) (uid : string) (rarity : option Z)
    (d : Database) : Z :=
  default 0 (select_fish_inventory_value fish_rarity uid rarity d).

(** The key [(user_id, fish_id)] of [user_fish_inventory], the conflict
    target of the upserts. *)
Definition fish_keys_unique (d : Database) : Prop :=
  NoDup ((λ ufi, (fish_user_id ufi, fish_id ufi)) <$> user_fish_inventory d).

(** What a row of [user_fish_inventory] adds to the sum that
    [get_fish_inventory_value] reads for [uid] under the filter [rarity]. *)
Definition fish_row_value (fish_rarity : Z → Z) (uid : string) (rarity : option Z)
    (d : Database) (ufi : UserFishInventoryItem) : Z :=
  match fish d !! fish_id ufi with
  | Some f => if decide (fish_user_id ufi = uid ∧ rarity_is fish_rarity rarity (fish_id ufi))
              then base_value f * fish_quantity ufi else 0
  | None => 0
  end.

(** What a change of [qty] in the quantity of fish [fid] of user [uid]
    adds to the value read for user [other] under the filter [rarity]. *)
Definition value_of_change (fish_rarity : Z → Z) (uid : string) (fid qty : Z)
    (other : string) (rarity : option Z) (d : Database) : Z :=
  if decide (other = uid ∧ rarity_is fish_rarity rarity fid)
  then default 0 (base_value <$> fish d !! fid) * qty
  else 0.

(** The sum of the absolute values of the products that
    [get_fish_inventory_value] adds up.  When it is below [2 ^ 63], every
    product and every partial sum, in whatever order SQLite takes the
    rows, is a [sqlite_integer], so the [SUM] is the exact one. *)
Definition fish_value_magnitude (fish_rarity : Z → Z) (uid : string) (rarity : option Z)
    (d : Database) : Z :=
  foldr (λ value total, Z.abs value + total) 0 (fish_values fish_rarity uid rarity d).

(** The quantity in the row of the key, 0 without a row: the
    [SELECT quantity ... WHERE user_id = ? AND bait_id = ?] of the
    repository, with no row read as 0. *)
Definition bait_held (uid : string) (bid : Z) (d : Database) : Z :=
  default 0 (select_bait_quantity uid bid d).

(** The key [(user_id, bait_id)] of [user_bait_inventory], the conflict
    target of the upsert. *)
Definition bait_keys_unique (d : Database) : Prop :=
  NoDup ((λ r, (bait_user_id r, bait_id r)) <$> user_bait_inventory d).

(** What one update of the list does to the quantity a user holds of the
    bait [b]: an update of another bait, or by 0, does nothing. *)
Definition held_after_update (b : Z) (held : Z) (update : Z * Z) : Z :=
  if decide (b = update.1 ∧ update.2 ≠ 0) then Z.max 0 (held + update.2) else held.

(** The row id an entry of the list returned by the batch methods stands for. *)
Definition inserted_rod_id (entry : Inserted UserRodInstance) : Z :=
  match entry with
  | InsertedId id => id
  | InsertedInstance instance => rod_instance_id instance
  end.

(** Row ids of [user_rods] are unique and none is above the last one
    handed out. *)
Definition rod_ids_fresh (d : Database) : Prop :=
  NoDup (rod_instance_id <$> user_rods d) ∧
  Forall (λ r, rod_instance_id r ≤ rod_seq d) (user_rods d).

(** [d'] is [d] with rows added to [user_rods] for the rods [asked], and
    [inserted] reports them: the new rows come after the old ones, get the
    next row ids, are reported in their order, belong to [uid], are not
    equipped, have refine level 1, and are rods that were asked for, in the
    order they were asked. *)
Definition rods_added (uid : string) (asked : list (Z * option Z))
    (inserted : list (Inserted UserRodInstance)) (d d' : Database) : Prop :=
  ∃ new_rows,
    d' = set_user_rods (user_rods d ++ new_rows)
                       (rod_seq d + Z.of_nat (length new_rows)) d
    ∧ rod_instance_id <$> new_rows = seqZ (rod_seq d + 1) (Z.of_nat (length new_rows))
    ∧ inserted_rod_id <$> inserted = rod_instance_id <$> new_rows
    ∧ Forall (λ r, rod_user_id r = uid ∧ rod_is_equipped r = false ∧ rod_refine_level r = 1)
             new_rows
    ∧ sublist ((λ r, (rod_id r, current_durability r)) <$> new_rows) asked.

(** The coins among the rewards that a draw reports. *)
Definition coins_granted (results : list Reward) : Z :=
  foldr (λ reward total,
           match reward with
           | RewardCoins qty => qty + total
           | _ => total
           end) 0 results.

(** Between two worlds, the user store did not change. *)
Definition users_kept (w w' : World) : Prop := users w' = users w.

(** Between two worlds, the pools did not change. *)
Definition pools_kept (w w' : World) : Prop := pools w' = pools w.

(** Between two worlds, the users, the inventory database and the item
    templates did not change. *)
Definition market_kept (w w' : World) : Prop :=
  users w' = users w ∧ db w' = db w ∧ catalog w' = catalog w.

(** A market repository that answers [listing] for every id and does
    nothing else. *)
Definition one_listing (listing : MarketListing) : Z → M (option MarketListing) :=
  λ _, ret (Some listing).

(** The replies that end an admitted run of [ten_thousand_gacha]: the
    summary, or one of the three replies of the [except] branch. *)
Definition closing_reply (reply : Reply) : Prop :=
  match reply with
  | ReplySummary _ _ _ _ _ | ReplyFullRefund _ | ReplyAborted _ _ | ReplyRefundFailed _ => True
  | _ => False
  end.

(** The coins among the draws: the sum of the quantities of the draws of
    type "coins". *)
Definition coins_drawn (draw_results : list GachaPoolItem) : Z :=
  foldr (λ item total,
           if decide (item_type item = "coins") then quantity item + total else total)
        0 draw_results.

(** ** The sale value in the words of the specification *)

(** "For every stackable item with quantity > 1, the sale value of
    (quantity - 1) units at template base value", summed over the items of
    the user. *)
Definition keep_one_sale_value (prices : gmap Z Fish) (uid : string)
    (rows : list UserFishInventoryItem) : Z :=
  foldr (λ ufi total,
           (if decide (fish_user_id ufi = uid ∧ 1 < fish_quantity ufi)
            then (fish_quantity ufi - 1) * default 0 (base_value <$> prices !! fish_id ufi)
            else 0) + total)
        0 rows.

(** ** Sample data *)

Module Sample.

Definition no_faults : nat → bool := λ _, false.

Definition empty_db : Database :=
  {| user_fish_inventory := []; user_bait_inventory := []; user_rods := [];
     user_accessories := []; rod_seq := 0; accessory_seq := 0; fish := ∅ |}.

Definition catalogue : Catalog :=
  {| rods := {[ 1 := {| rod_name := "bamboo rod"; rod_rarity := 4;
                        rod_durability := Some 100 |} ]};
     accessories := {[ 2 := {| accessory_name := "lucky charm"; accessory_rarity := 3 |} ]};
     baits := {[ 7 := {| bait_name := "worm"; bait_rarity := 1 |} ]};
     titles := {[ 9 := {| title_name := "angler" |} ]} |}.

Definition alice (balance : Z) : User :=
  {| user_id := "alice"; nickname := "Alice"; coins := balance |}.

Definition bob : User := {| user_id := "bob"; nickname := "Bob"; coins := 0 |}.

Definition coins_item : GachaPoolItem :=
  {| gacha_pool_id := 1; item_type := "coins"; item_id := 0; quantity := 10; weight := 30 |}.

Definition rod_item : GachaPoolItem :=
  {| gacha_pool_id := 1; item_type := "rod"; item_id := 1; quantity := 1; weight := 70 |}.

Definition worms (n : Z) : GachaPoolItem :=
  {| gacha_pool_id := 1; item_type := "bait"; item_id := 7; quantity := n; weight := 10 |}.

(** The pool of the example of the specification: a rod of weight 70 and
    10 coins of weight 30, at 100 coins a draw. *)
Definition pool : GachaPool := {| cost_coins := 100; items := [rod_item; coins_item] |}.

Definition coins_pool : GachaPool := {| cost_coins := 100; items := [coins_item] |}.

(** A pool whose only entry has weight 0. *)
Definition weightless_pool : GachaPool :=
  {| cost_coins := 100;
     items := [{| gacha_pool_id := 3; item_type := "coins"; item_id := 0;
                  quantity := 10; weight := 0 |}] |}.

(** A world where [alice] owns [balance] coins, every draw of the random
    source is 1/2 and no statement raises. *)
Definition world (balance : Z) (d : Database) : World :=
  {| db := d; stmt := 0; fault := no_faults; rng := λ _, (1 # 2)%Q; rng_pos := 0;
     users := {[ "alice" := alice balance; "bob" := bob ]};
     pools := {[ 1 := pool; 2 := coins_pool; 3 := weightless_pool ]};
     catalog := catalogue; user_titles := ∅; gacha_records := []; calls := [];
     ten_thousand_gacha_lock := false; ten_thousand_gacha_user := None |}.

(** [alice] has rod 1 and accessory 2 equipped, and a spare rod 3. *)
Definition equipped_db : Database :=
  set_user_accessories
    [{| accessory_instance_id := 2; accessory_user_id := "alice"; accessory_id := 2;
        accessory_is_equipped := true; accessory_refine_level := 1 |}] 2
    (set_user_rods
       [{| rod_instance_id := 1; rod_user_id := "alice"; rod_id := 1;
           rod_is_equipped := true; current_durability := Some 100;
           rod_refine_level := 1 |};
        {| rod_instance_id := 3; rod_user_id := "alice"; rod_id := 1;
           rod_is_equipped := false; current_durability := Some 100;
           rod_refine_level := 1 |}] 3 empty_db).

(** The world [w] with the statements numbered in [bad] raising, and no
    other. *)
Definition failing_at (bad : list nat) (w : World) : World :=
  {| db := db w; stmt := stmt w; fault := λ n, bool_decide (n ∈ bad); rng := rng w;
     rng_pos := rng_pos w; users := users w; pools := pools w; catalog := catalog w;
     user_titles := user_titles w; gacha_records := gacha_records w;
     calls := calls w; ten_thousand_gacha_lock := ten_thousand_gacha_lock w;
     ten_thousand_gacha_user := ten_thousand_gacha_user w |}.

(** [alice] has 5 worms. *)
Definition bait_db : Database :=
  set_user_bait_inventory
    [{| bait_user_id := "alice"; bait_id := 7; bait_quantity := 5 |}] empty_db.

(** The inventory of the example of the specification: 5 fish A worth 10
    each and 1 fish B worth 20. *)
Definition fish_db : Database :=
  {| user_fish_inventory :=
       [{| fish_user_id := "alice"; fish_id := 1; fish_quantity := 5 |};
        {| fish_user_id := "alice"; fish_id := 2; fish_quantity := 1 |}];
     user_bait_inventory := []; user_rods := []; user_accessories := [];
     rod_seq := 0; accessory_seq := 0;
     fish := {[ 1 := {| fish_name := "fishA"; base_value := 10 |};
                2 := {| fish_name := "fishB"; base_value := 20 |} ]} |}.

(** Nobody else runs while the handler is suspended. *)
Definition quiet : nat → World → World := λ _ w, w.

(** While the handler is suspended after its second sub-batch, [alice]
    spends all her coins elsewhere. *)
Definition spends_all_after_second_batch : nat → World → World :=
  λ k w, if decide (k = 2%nat) then set_users (<["alice" := alice 0]> (users w)) w else w.





Definition ten_thousand_on_pool_2 : Event :=
  {| sender_id := "alice"; message_str := "/ten_thousand 2" |}.

End Sample.

Module SampleMarket.

(** Alice, who has 50 coins, lists rod 1 at refine level 3 for 300 coins. *)
Definition listed_rod : MarketListing :=
  {| listing_user_id := "alice"; listing_item_type := "rod"; listing_item_id := 1;
     listing_price := 300; listing_refine_level := 3 |}.

(** A world where [bob] owns [balance] coins and [alice] 50. *)
Definition world_of_two (balance : Z) : World :=
  set_users {[ "alice" := Sample.alice 50;
               "bob" := {| user_id := "bob"; nickname := "Bob"; coins := balance |} ]}
            (Sample.world 0 Sample.empty_db).

End SampleMarket.


(** * Properties *)

(** ** The draw engine *)

(** The walk stops at the latest on the last entry, where the running sum
    is the total weight. *)
Lemma weighted_walk_finds rand_val (its : list GachaPoolItem) :
  ∀ current_weight,
    its ≠ [] →
    (rand_val <= inject_Z (current_weight + sum_weights its))%Q →
    ∃ item, weighted_walk rand_val current_weight its = Some item ∧ item ∈ its.
Proof.
  induction its as [|item rest IH]; intros cw Hne Hle; [congruence|].
  simpl. destruct (Qle_bool rand_val (inject_Z (cw + weight item))) eqn:Hcmp.
  - exists item. split; [reflexivity | apply list_elem_of_here].
  - destruct rest as [|item' rest'].
    + simpl in Hle. rewrite Z.add_0_r in Hle.
      apply Qle_bool_iff in Hle. congruence.
    + destruct (IH (cw + weight item)) as (found & Hw & Hin); [congruence| |].
      * simpl in Hle |- *. rewrite <- Z.add_assoc. exact Hle.
      * exists found. split; [exact Hw | apply list_elem_of_further, Hin].
Qed.

Lemma random_uniform_range a b (w : World) :
  a ≤ b → (0 <= rng w (rng_pos w))%Q → (rng w (rng_pos w) <= 1)%Q →
  ∃ r w', random_uniform a b w = (Val r, w') ∧ (inject_Z a <= r)%Q ∧ (r <= inject_Z b)%Q.
Proof.
  intros Hab H0 H1. eexists _, _. split; [reflexivity|].
  assert (inject_Z a <= inject_Z b)%Q as Hq by (rewrite <- Zle_Qle; exact Hab).
  simpl. generalize dependent (rng w (rng_pos w)).
  generalize dependent (inject_Z a). generalize dependent (inject_Z b).
  intros qb qa ? u ? ?. split; nra.
Qed.

(** C3, as the code has it: on a pool without entries the draw returns
    [None], no entry; on every pool with at least one entry and a total
    weight that is not negative (zero included) it returns one of the
    entries of the pool. *)
Theorem single_draw_returns_entry_iff_pool_has_entries (pool : GachaPool) (w : World) :
  0 ≤ total_weight pool →
  (0 <= rng w (rng_pos w))%Q → (rng w (rng_pos w) <= 1)%Q →
  (items pool = [] → (_perform_single_weighted_draw pool w).1 = Val None) ∧
  (items pool ≠ [] →
   ∃ item, (_perform_single_weighted_draw pool w).1 = Val (Some item) ∧ item ∈ items pool).
Proof.
  intros HW H0 H1. split.
  - intros Hnil. unfold _perform_single_weighted_draw, bind, ret.
    destruct (random_uniform 0 (total_weight pool) w) as [[r|] w'] eqn:Hr;
      [rewrite Hnil; reflexivity|].
    destruct (random_uniform_range 0 _ w HW H0 H1) as (r & w'' & Hrun & _). congruence.
  - intros Hne.
    destruct (random_uniform_range 0 _ w HW H0 H1) as (r & w' & Hrun & _ & Hle).
    destruct (weighted_walk_finds r (items pool) 0 Hne) as (item & Hw & Hin).
    { simpl. exact Hle. }
    exists item. split; [|exact Hin].
    unfold _perform_single_weighted_draw, bind, ret. rewrite Hrun. simpl. by rewrite Hw.
Qed.

(** On a pool whose only entry has weight 0, hence of total weight 0, the
    draw returns that entry.  (C3 as stated asks for an error there.) *)
Lemma single_draw_on_weightless_pool_returns_entry :
  total_weight Sample.weightless_pool = 0 ∧
  (_perform_single_weighted_draw Sample.weightless_pool (Sample.world 1000 Sample.empty_db)).1
  = Val (Some {| gacha_pool_id := 3; item_type := "coins"; item_id := 0;
                 quantity := 10; weight := 0 |}).
Proof. split; reflexivity. Qed.

Lemma single_draw_returns_entry_witness :
  ∃ item,
    (_perform_single_weighted_draw Sample.pool (Sample.world 1000 Sample.empty_db)).1
    = Val (Some item) ∧ item ∈ items Sample.pool.
Proof.
  apply (single_draw_returns_entry_iff_pool_has_entries
           Sample.pool (Sample.world 1000 Sample.empty_db)).
  - vm_compute. discriminate.
  - vm_compute. discriminate.
  - vm_compute. discriminate.
  - discriminate.
Defined.

(** ** The inventory repository *)

(** C10: with an empty list, each of the three batch methods returns at
    once, the empty list or nothing, and leaves the world as it was; no
    statement is issued. *)
Theorem batch_methods_on_empty_input_do_nothing (uid : string) (w : World) :
  batch_add_rod_instances uid [] w = (Val [], w) ∧
  batch_add_accessory_instances uid [] w = (Val [], w) ∧
  batch_update_bait_quantities uid [] w = (Val tt, w).
Proof. repeat split. Qed.

(** ** [perform_draw] *)

(** C7: for a registered user and a pool with at least one entry (the two
    checks that come first), a balance below [cost_coins * num_draws] makes
    [perform_draw] fail with the message that names that amount, and the
    world is left as it was: same balance, no reward, no audit row, no call
    to any collaborator. *)
Theorem perform_draw_insufficient_coins
    (uid : string) (pool_id num_draws : Z) (w : World) (u : User) (pool : GachaPool) :
  users w !! uid = Some u →
  pools w !! pool_id = Some pool →
  items pool ≠ [] →
  coins u < cost_coins pool * num_draws →
  perform_draw uid pool_id num_draws w
  = (Val (Failure (InsufficientCoins (cost_coins pool * num_draws))), w).
Proof.
  intros Hu Hp Hitems Hlt.
  unfold perform_draw, bind, user_repo_get_by_id, gacha_repo_get_pool_by_id, gets.
  rewrite Hu, Hp.
  destruct (items pool) as [|item rest]; [congruence|].
  unfold can_afford. rewrite bool_decide_eq_false_2 by lia. reflexivity.
Qed.

(** The example of the specification: balance 500, cost 100, 10 draws. *)
Lemma perform_draw_insufficient_coins_witness :
  perform_draw "alice" 1 10 (Sample.world 500 Sample.empty_db)
  = (Val (Failure (InsufficientCoins 1000)), Sample.world 500 Sample.empty_db).
Proof.
  apply (perform_draw_insufficient_coins "alice" 1 10 (Sample.world 500 Sample.empty_db)
           (Sample.alice 500) Sample.pool).
  - reflexivity.
  - reflexivity.
  - discriminate.
  - reflexivity.
Defined.

(** ** The admission slot *)

(** C9: a request that arrives while another user holds the slot gets one
    reply, the one that says the system is busy, and the world is left as it
    was: the request is not recorded anywhere and nothing is taken from the
    balance.  The reply names the holder by the nickname of its account. *)
Theorem ten_thousand_gacha_busy
    (env : nat → World → World) (event : Event) (w : World) (current : string) :
  ten_thousand_gacha_lock w = true →
  ten_thousand_gacha_user w = Some current →
  current ≠ sender_id event →
  ∃ name,
    ten_thousand_gacha env event w = (Val [ReplyBusy name], w) ∧
    ∀ holder, current ≠ "" → users w !! current = Some holder → name = nickname holder.
Proof.
  intros Hlock Hcur Hne.
  unfold ten_thousand_gacha, bind, gets, user_repo_get_by_id.
  rewrite Hlock, Hcur.
  rewrite decide_False by congruence.
  destruct (decide (current = "")) as [Hempty|Hfull]; simpl.
  - eexists. split; [reflexivity|]. intros holder Hcurrent. contradiction.
  - destruct (users w !! current) as [holder|]; eexists; (split; [reflexivity|]).
    + intros holder' _ [= <-]. reflexivity.
    + intros holder' _ [=].
Qed.

Lemma ten_thousand_gacha_busy_witness :
  ∃ name,
    ten_thousand_gacha Sample.quiet Sample.ten_thousand_on_pool_2
      (set_lock true (Some "bob") (Sample.world 100000000 Sample.empty_db))
    = (Val [ReplyBusy name],
       set_lock true (Some "bob") (Sample.world 100000000 Sample.empty_db)) ∧
    ∀ holder, "bob" ≠ "" →
              users (set_lock true (Some "bob") (Sample.world 100000000 Sample.empty_db))
                !! "bob" = Some holder →
              name = nickname holder.
Proof.
  apply (ten_thousand_gacha_busy Sample.quiet Sample.ten_thousand_on_pool_2
           (set_lock true (Some "bob") (Sample.world 100000000 Sample.empty_db)) "bob").
  - reflexivity.
  - reflexivity.
  - discriminate.
Defined.

(** On the sample world the reply names Bob. *)
Example ten_thousand_gacha_busy_example :
  ten_thousand_gacha Sample.quiet Sample.ten_thousand_on_pool_2
    (set_lock true (Some "bob") (Sample.world 100000000 Sample.empty_db))
  = (Val [ReplyBusy "Bob"],
     set_lock true (Some "bob") (Sample.world 100000000 Sample.empty_db)).
Proof. reflexivity. Qed.

(** ** Equipment *)

(** Unfold the monadic plumbing of the repository methods. *)
Ltac run_sql :=
  cbv beta delta [transaction try_except bind execute_update execute_query execute
                  rollback_to modify gets ret raise];
  simpl.

(** Case analysis on the statements that raise. *)
Ltac split_faults :=
  repeat match goal with
         | |- context [if fault ?w ?n then _ else _] =>
             destruct (fault w n); simpl
         end.

Lemma unequip_then_equip_rod uid instance_id (rows : list UserRodInstance) :
  (λ r, if decide (rod_instance_id r = instance_id ∧ rod_user_id r = uid)
        then with_rod_equipped true r else r)
    <$> ((λ r, if decide (rod_user_id r = uid) then with_rod_equipped false r else r)
           <$> rows)
  = (λ r, if decide (rod_user_id r = uid)
          then with_rod_equipped (bool_decide (Some instance_id = Some (rod_instance_id r))) r
          else r) <$> rows.
Proof.
  rewrite <- list_fmap_compose. apply list_fmap_ext. intros _ r _. simpl.
  destruct (decide (rod_user_id r = uid)) as [Hu|Hu]; simpl.
  - destruct (decide (rod_instance_id r = instance_id)) as [Hi|Hi].
    + rewrite decide_True by done. rewrite bool_decide_eq_true_2 by congruence. done.
    + rewrite decide_False by tauto. rewrite bool_decide_eq_false_2 by congruence. done.
  - rewrite decide_False by tauto. done.
Qed.

Lemma unequip_then_equip_accessory uid instance_id (rows : list UserAccessoryInstance) :
  (λ a, if decide (accessory_instance_id a = instance_id ∧ accessory_user_id a = uid)
        then with_accessory_equipped true a else a)
    <$> ((λ a, if decide (accessory_user_id a = uid)
               then with_accessory_equipped false a else a) <$> rows)
  = (λ a, if decide (accessory_user_id a = uid)
          then with_accessory_equipped
                 (bool_decide (Some instance_id = Some (accessory_instance_id a))) a
          else a) <$> rows.
Proof.
  rewrite <- list_fmap_compose. apply list_fmap_ext. intros _ a _. simpl.
  destruct (decide (accessory_user_id a = uid)) as [Hu|Hu]; simpl.
  - destruct (decide (accessory_instance_id a = instance_id)) as [Hi|Hi].
    + rewrite decide_True by done. rewrite bool_decide_eq_true_2 by congruence. done.
    + rewrite decide_False by tauto. rewrite bool_decide_eq_false_2 by congruence. done.
  - rewrite decide_False by tauto. done.
Qed.

(** C6, as the code has it: [set_equipment_status] resets the equipped flag
    of every rod and of every accessory of the user, then equips the rod
    and the accessory it is given, if any.  After a call that returns, a
    rod of the user is equipped exactly when it is the rod passed, an
    accessory of the user exactly when it is the accessory passed (so a
    category for which nothing is passed ends with nothing equipped); the
    instances of other users and the other tables are untouched.  A call
    that raises leaves the database as it was. *)
Theorem set_equipment_status_resets_both_categories
    (uid : string) (rod_instance accessory_instance : option Z) (w : World) :
  match set_equipment_status uid rod_instance accessory_instance w with
  | (Val _, w') =>
      user_rods (db w')
      = (λ r, if decide (rod_user_id r = uid)
              then with_rod_equipped (bool_decide (rod_instance = Some (rod_instance_id r))) r
              else r) <$> user_rods (db w)
      ∧ user_accessories (db w')
        = (λ a, if decide (accessory_user_id a = uid)
                then with_accessory_equipped
                       (bool_decide (accessory_instance = Some (accessory_instance_id a))) a
                else a) <$> user_accessories (db w)
      ∧ user_fish_inventory (db w') = user_fish_inventory (db w)
      ∧ user_bait_inventory (db w') = user_bait_inventory (db w)
  | (Exn, w') => db w' = db w
  end.
Proof.
  unfold set_equipment_status.
  destruct rod_instance as [rid|], accessory_instance as [aid|];
    run_sql; split_faults; try reflexivity;
    rewrite ?unequip_then_equip_rod, ?unequip_then_equip_accessory;
    repeat split; reflexivity.
Qed.

(** Equipping a rod, with no accessory passed, unequips the accessory that
    was equipped.  (C6 as stated asks that it stay equipped.) *)
Lemma set_equipment_status_unequips_other_category :
  accessory_is_equipped <$> user_accessories Sample.equipped_db = [true] ∧
  ∃ w', set_equipment_status "alice" (Some 3) None (Sample.world 0 Sample.equipped_db)
        = (Val tt, w') ∧
        rod_is_equipped <$> user_rods (db w') = [false; true] ∧
        accessory_is_equipped <$> user_accessories (db w') = [false].
Proof. split; [reflexivity|]. eexists. repeat split. Qed.

(** ** Bait quantities *)

(** An invariant of the world that every iteration keeps is kept by the
    loop, whether it runs to its end or stops at an exception. *)
Lemma for_each_invariant {A} (I : World → Prop) (body : A → M unit) (xs : list A) :
  (∀ x w, I w → I (body x w).2) →
  ∀ w, I w → I (for_each xs body w).2.
Proof.
  intros Hbody. induction xs as [|x xs IH]; intros w Hw; [exact Hw|].
  simpl. unfold bind. specialize (Hbody x w Hw).
  destruct (body x w) as [[[]|] w1]; simpl in *; [apply IH|]; exact Hbody.
Qed.

(** After [update_bait_quantity] returns, the user has no row with a
    quantity of 0 or less; when it raises the database is as it was. *)
Lemma update_bait_quantity_leaves_no_empty_row (uid : string) (bid delta : Z) (w : World) :
  match update_bait_quantity uid bid delta w with
  | (Val _, w') =>
      ∀ r, r ∈ user_bait_inventory (db w') → bait_user_id r = uid → 0 < bait_quantity r
  | (Exn, w') => db w' = db w
  end.
Proof.
  unfold update_bait_quantity. run_sql. split_faults; try reflexivity.
  intros r Hr Hu. apply list_elem_of_filter in Hr as [Hr _].
  destruct (decide (bait_quantity r ≤ 0)); [exfalso; apply Hr; done | lia].
Qed.

Lemma batch_update_one_not_negative (uid : string) (update : Z * Z) (w : World) :
  quantities_not_negative (db w) →
  quantities_not_negative (db (batch_update_one uid update w).2).
Proof.
  intros Hw. destruct update as [bid delta]. unfold batch_update_one.
  destruct (decide (delta = 0)); [exact Hw|].
  run_sql. destruct (fault w (stmt w)); simpl; [exact Hw|].
  destruct (select_bait_quantity uid bid (db w)) as [current|]; simpl.
  - destruct (fault w (S (stmt w))); simpl; [exact Hw|].
    unfold quantities_not_negative in *. simpl.
    apply Forall_fmap. eapply Forall_impl; [exact Hw|].
    intros r Hr. simpl in Hr |- *. destruct (decide (is_bait_row uid bid r)); simpl; lia.
  - destruct (decide (0 < delta)); [|exact Hw].
    cbv beta delta [bind]. simpl.
    destruct (fault w (S (stmt w))); simpl; [exact Hw|].
    unfold quantities_not_negative in *. simpl.
    apply Forall_app. split; [exact Hw|]. apply Forall_singleton. simpl. lia.
Qed.

(** Neither outcome of [batch_update_bait_quantities] brings a negative
    quantity into the table. *)
Lemma batch_update_bait_quantities_not_negative
    (uid : string) (bait_updates : list (Z * Z)) (w : World) :
  quantities_not_negative (db w) →
  quantities_not_negative (db (batch_update_bait_quantities uid bait_updates w).2).
Proof.
  intros Hw. unfold batch_update_bait_quantities.
  destruct bait_updates as [|update rest]; [exact Hw|].
  set (updates := update :: rest). clearbody updates.
  cbv beta delta [transaction try_except bind execute rollback_to modify gets ret raise].
  simpl. destruct (fault w (stmt w)); simpl; [exact Hw|].
  pose proof (for_each_invariant (λ w, quantities_not_negative (db w))
                (batch_update_one uid) updates (batch_update_one_not_negative uid)
                (set_stmt (S (stmt w)) w) Hw) as Hloop.
  destruct (for_each updates (batch_update_one uid) (set_stmt (S (stmt w)) w))
    as [[[]|] w1]; simpl in *; [|exact Hw].
  destruct (fault w1 (stmt w1)); simpl; [exact Hw | exact Hloop].
Qed.

(** C5 at its failing input: the user has 5 worms and the batch update
    takes 5 away.  The batch method returns and leaves the row in the table
    with quantity 0, where [update_bait_quantity], on the same input,
    deletes it. *)
Theorem batch_update_bait_quantities_retains_empty_row :
  (∃ w', batch_update_bait_quantities "alice" [(7, -5)] (Sample.world 0 Sample.bait_db)
         = (Val tt, w') ∧
         user_bait_inventory (db w')
         = [{| bait_user_id := "alice"; bait_id := 7; bait_quantity := 0 |}]) ∧
  (∃ w', update_bait_quantity "alice" 7 (-5) (Sample.world 0 Sample.bait_db)
         = (Val tt, w') ∧
         user_bait_inventory (db w') = []).
Proof. split; eexists; split; reflexivity. Qed.

(** ** Selling all but one *)

Lemma sold_value_of_from (items_to_sell : list FishToSell) (start : Z) :
  foldl (λ sold_value item, sold_value + (sell_quantity item - 1) * sell_base_value item)
        start items_to_sell
  = start + sold_value_of items_to_sell.
Proof.
  unfold sold_value_of. revert start.
  induction items_to_sell as [|item rest IH]; intros start; simpl; [lia|].
  rewrite IH. rewrite (IH (0 + _)). lia.
Qed.

Section SellFishKeepOne.

Variable uid : string.
Variable d : Database.

(** Every fish the user holds has its row in [fish]: the foreign key of
    [user_fish_inventory]. *)
Hypothesis fish_known :
  ∀ ufi, ufi ∈ user_fish_inventory d → fish_user_id ufi = uid →
         is_Some (fish d !! fish_id ufi).

Lemma sold_value_is_keep_one_sale_value :
  sold_value_of (select_fish_to_sell uid d)
  = keep_one_sale_value (fish d) uid (user_fish_inventory d).
Proof using fish_known.
  unfold select_fish_to_sell.
  induction (user_fish_inventory d) as [|ufi rows IH]; [reflexivity|].
  assert (∀ x, x ∈ rows → fish_user_id x = uid → is_Some (fish d !! fish_id x)) as Hrows
    by (intros x Hx; apply fish_known; by apply list_elem_of_further).
  specialize (IH Hrows). cbn.
  destruct (decide (fish_user_id ufi = uid ∧ 1 < fish_quantity ufi)) as [[Hu Hq]|Hno].
  - destruct (fish_known ufi (list_elem_of_here _ _) Hu) as [f Hf].
    rewrite Hf. cbn. rewrite ?decide_True by done.
    rewrite sold_value_of_from, IH. unfold keep_one_sale_value. lia.
  - destruct (fish d !! fish_id ufi) as [f|]; cbn;
      rewrite ?decide_False by done;
      rewrite sold_value_of_from, IH; unfold keep_one_sale_value; lia.
Qed.

Lemma nothing_to_sell_nothing_to_clamp :
  select_fish_to_sell uid d = [] →
  ∀ ufi, ufi ∈ user_fish_inventory d →
         ¬ (fish_user_id ufi = uid ∧ 1 < fish_quantity ufi).
Proof using fish_known.
  unfold select_fish_to_sell.
  induction (user_fish_inventory d) as [|row rows IH]; intros Hsel ufi Hin;
    [by apply elem_of_nil in Hin|].
  assert (∀ x, x ∈ rows → fish_user_id x = uid → is_Some (fish d !! fish_id x)) as Hrows
    by (intros x Hx; apply fish_known; by apply list_elem_of_further).
  simpl in Hsel.
  destruct (decide (fish_user_id row = uid ∧ 1 < fish_quantity row)) as [[Hu Hq]|Hno].
  - destruct (fish_known row (list_elem_of_here _ _) Hu) as [f Hf].
    rewrite Hf in Hsel. simpl in Hsel. rewrite ?decide_True in Hsel by done.
    discriminate.
  - assert (omap (λ ufi, f ← fish d !! fish_id ufi;
                         if decide (fish_user_id ufi = uid ∧ 1 < fish_quantity ufi)
                         then Some {| sell_fish_id := fish_id ufi;
                                      sell_quantity := fish_quantity ufi;
                                      sell_base_value := base_value f;
                                      sell_name := fish_name f |}
                         else None) rows = []) as Hrest.
    { destruct (fish d !! fish_id row); simpl in Hsel;
        rewrite ?decide_False in Hsel by done; exact Hsel. }
    apply elem_of_cons in Hin as [->|Hin]; [exact Hno | by apply IH].
Qed.

End SellFishKeepOne.

(** C8: when every fish the user holds has its template, a call of
    [sell_fish_keep_one] that returns, returns the sum over the rows of the
    user with quantity above 1 of (quantity - 1) times the base value; in
    the table each of those rows now has quantity 1 and every other row,
    as every other table, is as before.  A call raises only when one of
    its four statements does, and it then leaves the database as it was:
    all or nothing. *)
Theorem sell_fish_keep_one_all_but_one (uid : string) (w : World) :
  (∀ ufi, ufi ∈ user_fish_inventory (db w) → fish_user_id ufi = uid →
          is_Some (fish (db w) !! fish_id ufi)) →
  match sell_fish_keep_one uid w with
  | (Val sold_value, w') =>
      sold_value = keep_one_sale_value (fish (db w)) uid (user_fish_inventory (db w))
      ∧ Forall2 (clamped_to_one uid) (user_fish_inventory (db w)) (user_fish_inventory (db w'))
      ∧ user_bait_inventory (db w') = user_bait_inventory (db w)
      ∧ user_rods (db w') = user_rods (db w)
      ∧ user_accessories (db w') = user_accessories (db w)
      ∧ fish (db w') = fish (db w)
  | (Exn, w') =>
      db w' = db w ∧ ∃ n, (stmt w ≤ n < stmt w + 4)%nat ∧ fault w n = true
  end.
Proof.
  intros Hknown. unfold sell_fish_keep_one. run_sql.
  destruct (fault w (stmt w)) eqn:Hbegin; simpl;
    [split; [reflexivity | exists (stmt w); split; [lia | exact Hbegin]]|].
  destruct (fault w (S (stmt w))) eqn:Hselect; simpl;
    [split; [reflexivity | exists (S (stmt w)); split; [lia | exact Hselect]]|].
  pose proof (sold_value_is_keep_one_sale_value uid (db w) Hknown) as Hvalue.
  destruct (select_fish_to_sell uid (db w)) as [|item rest] eqn:Hsel; simpl.
  - split; [exact Hvalue|]. split; [|done].
    pose proof (nothing_to_sell_nothing_to_clamp uid (db w) Hknown Hsel) as Hnone.
    apply Forall2_same_length_lookup_2; [reflexivity|].
    intros i old new Hold Hnew. assert (new = old) as -> by congruence.
    unfold clamped_to_one. rewrite decide_False; [done|].
    apply Hnone. by eapply list_elem_of_lookup_2.
  - destruct (fault w (S (S (stmt w)))) eqn:Hupdate; simpl;
      [split; [reflexivity | exists (S (S (stmt w))); split; [lia | exact Hupdate]]|].
    destruct (fault w (S (S (S (stmt w))))) eqn:Hcommit; simpl;
      [split; [reflexivity | exists (S (S (S (stmt w)))); split; [lia | exact Hcommit]]|].
    split; [exact Hvalue|]. split; [|done].
    apply Forall2_fmap_r, Forall_Forall2_diag, Forall_forall. intros ufi _.
    unfold clamped_to_one.
    simpl. destruct (decide (fish_user_id ufi = uid ∧ 1 < fish_quantity ufi));
      simpl; repeat split.
Qed.

(** The example of the specification: 5 fish A at 10 and 1 fish B at 20.
    The call returns, with the value 40, and leaves one of each. *)
Lemma sell_fish_keep_one_all_but_one_witness :
  match sell_fish_keep_one "alice" (Sample.world 0 Sample.fish_db) with
  | (Val sold_value, w') =>
      sold_value = 40
      ∧ Forall2 (clamped_to_one "alice") (user_fish_inventory Sample.fish_db)
                (user_fish_inventory (db w'))
      ∧ user_bait_inventory (db w') = []
      ∧ user_rods (db w') = []
      ∧ user_accessories (db w') = []
      ∧ fish (db w') = fish Sample.fish_db
  | (Exn, w') => False
  end.
Proof.
  assert (∀ ufi, ufi ∈ user_fish_inventory Sample.fish_db → fish_user_id ufi = "alice" →
                 is_Some (fish Sample.fish_db !! fish_id ufi)) as Hknown.
  { intros ufi Hin _. simpl in Hin.
    apply elem_of_cons in Hin as [->|Hin]; [by eexists|].
    apply elem_of_cons in Hin as [->|Hin]; [by eexists|].
    by apply elem_of_nil in Hin. }
  pose proof (sell_fish_keep_one_all_but_one "alice" (Sample.world 0 Sample.fish_db) Hknown)
    as Hrun.
  destruct (sell_fish_keep_one "alice" (Sample.world 0 Sample.fish_db)) as [[sold_value|] w'];
    [exact Hrun|].
  destruct Hrun as [_ (n & _ & Hfault)]. discriminate Hfault.
Defined.

Example sell_fish_keep_one_example :
  ∃ w', sell_fish_keep_one "alice" (Sample.world 0 Sample.fish_db) = (Val 40, w') ∧
        user_fish_inventory (db w')
        = [{| fish_user_id := "alice"; fish_id := 1; fish_quantity := 1 |};
           {| fish_user_id := "alice"; fish_id := 2; fish_quantity := 1 |}].
Proof. eexists. split; reflexivity. Qed.

(** ** The refund of the ten-thousand draw *)

Section SubBatches.

Variable env : nat → World → World.
Variables (uid : string) (pool_id : Z) (pool_info : GachaPool).

(** One iteration of the loop, by the outcome of [perform_draw]. *)
Lemma sub_batches_cons (batch : Z) (rest : list Z) (st : Locals) (w : World) :
  sub_batches env uid pool_id pool_info (batch :: rest) st w
  = match perform_draw uid pool_id batch_size w with
    | (Val (Success results), w1) =>
        let st1 := {| user := user st; total_results := total_results st ++ results;
                      processed := processed st + batch_size;
                      failed_at_batch := failed_at_batch st; replies := replies st |} in
        if decide (batch < 4) then
          sub_batches env uid pool_id pool_info rest
            {| user := user st1; total_results := total_results st1;
               processed := processed st1; failed_at_batch := failed_at_batch st1;
               replies := replies st1 ++ [ReplyProgress (processed st1)] |}
            (env (Z.to_nat (batch + 1)) w1)
        else sub_batches env uid pool_id pool_info rest st1 w1
    | (Val (Failure _), w1) =>
        let remaining_cost := (5 - batch) * batch_size * cost_coins pool_info in
        if decide (0 < remaining_cost) then
          let refunded := with_coins (coins (user st) + remaining_cost) (user st) in
          (Val (Completed,
                {| user := refunded; total_results := total_results st;
                   processed := processed st; failed_at_batch := batch + 1;
                   replies := replies st |}),
           set_users (<[user_id refunded := refunded]> (users w1))
                     (set_calls (calls w1 ++ [CallUserUpdate refunded]) w1))
        else
          (Val (Completed,
                {| user := user st; total_results := total_results st;
                   processed := processed st; failed_at_batch := batch + 1;
                   replies := replies st |}), w1)
    | (Exn, w1) => (Val (Raised, st), w1)
    end.
Proof.
  cbn [sub_batches]. unfold bind at 1. unfold try_except, bind at 1.
  destruct (perform_draw uid pool_id batch_size w) as [[[results|message]|] w1];
    cbn [ret]; try reflexivity.
  - destruct (decide (batch < 4)); reflexivity.
  - cbv zeta. destruct (decide (0 < (5 - batch) * batch_size * cost_coins pool_info));
      reflexivity.
Qed.



End SubBatches.



(** The whole handler on the same input: the final message reports the
    third batch as failed, 4000 draws and 600,000 coins given back, and the
    stored balance of the user ends above the 100,000,000 she started
    with. *)
Example ten_thousand_gacha_third_batch_fails :
  ∃ w' total_results,
    ten_thousand_gacha Sample.spends_all_after_second_batch Sample.ten_thousand_on_pool_2
      (Sample.world 100000000 Sample.empty_db)
    = (Val [ReplyStarting 1000000; ReplyProgress 2000; ReplyProgress 4000;
            ReplySummary 3 4000 400000 600000 total_results], w') ∧
    coins <$> users w' !! "alice" = Some 100600000 ∧
    ten_thousand_gacha_lock w' = false.
Proof. eexists _, _. vm_compute. repeat split. Qed.

(** ** What the granting of rewards leaves alone *)

Section Frame.

(** A relation between the worlds before and after, that holds when the
    inventory database, the statement counter, the user store or the titles
    change, and when a call other than a draw is logged. *)
Variable R : World → World → Prop.
Hypothesis R_refl : ∀ w, R w w.
Hypothesis R_trans : ∀ w1 w2 w3, R w1 w2 → R w2 w3 → R w1 w3.
Hypothesis R_db : ∀ d w, R w (set_db d w).
Hypothesis R_stmt : ∀ n w, R w (set_stmt n w).
Hypothesis R_users : ∀ us w, R w (set_users us w).
Hypothesis R_titles : ∀ ts w, R w (set_user_titles ts w).
Hypothesis R_call : ∀ c w, c ≠ CallRandomUniform → R w (set_calls (calls w ++ [c]) w).

Lemma keeps_ret {A} (a : A) : keeps R (ret a).
Proof using R_refl. intros w. apply R_refl. Qed.

Lemma keeps_raise {A} : keeps R (@raise A).
Proof using R_refl. intros w. apply R_refl. Qed.

Lemma keeps_gets {A} (f : World → A) : keeps R (gets f).
Proof using R_refl. intros w. apply R_refl. Qed.

Lemma keeps_bind {A B} (m : M A) (k : A → M B) :
  keeps R m → (∀ a, keeps R (k a)) → keeps R (bind m k).
Proof using R_trans.
  intros Hm Hk w. unfold bind. specialize (Hm w).
  destruct (m w) as [[a|] w1]; simpl in *; [|exact Hm].
  eapply R_trans; [exact Hm | apply Hk].
Qed.

Lemma keeps_try_except {A} (m h : M A) :
  keeps R m → keeps R h → keeps R (try_except m h).
Proof using R_trans.
  intros Hm Hh w. unfold try_except. specialize (Hm w).
  destruct (m w) as [[a|] w1]; simpl in *; [exact Hm|].
  eapply R_trans; [exact Hm | apply Hh].
Qed.

Lemma keeps_for_each {A} (xs : list A) (body : A → M unit) :
  (∀ x, keeps R (body x)) → keeps R (for_each xs body).
Proof using R_refl R_trans.
  intros Hbody. induction xs as [|x xs IH]; simpl.
  - apply keeps_ret.
  - apply keeps_bind; [apply Hbody | intros _; exact IH].
Qed.

Lemma keeps_emit (c : Call) : c ≠ CallRandomUniform → keeps R (emit c).
Proof using R_call. intros Hc w. apply R_call, Hc. Qed.

Lemma keeps_execute : keeps R execute.
Proof using R_stmt.
  intros w. unfold execute. destruct (fault w (stmt w)); apply R_stmt.
Qed.

Lemma keeps_set_db (f : World → Database) : keeps R (modify (λ w, set_db (f w) w)).
Proof using R_db. intros w. apply R_db. Qed.

Lemma keeps_rollback_to (snapshot : Database) : keeps R (rollback_to snapshot).
Proof using R_db. intros w. apply R_db. Qed.

Lemma keeps_execute_update (f : Database → Database) : keeps R (execute_update f).
Proof using R_db R_stmt R_trans.
  apply keeps_bind; [apply keeps_execute | intros _; apply keeps_set_db].
Qed.

Lemma keeps_execute_query {A} (f : Database → A) : keeps R (execute_query f).
Proof using R_refl R_stmt R_trans.
  apply keeps_bind; [apply keeps_execute | intros _; apply keeps_gets].
Qed.

Lemma keeps_transaction {A} (body : Database → M A) :
  (∀ snapshot, keeps R (body snapshot)) → keeps R (transaction body).
Proof using R_db R_refl R_trans.
  intros Hbody. apply keeps_bind; [apply keeps_gets|]. intros snapshot.
  apply keeps_try_except; [apply Hbody|].
  apply keeps_bind; [|intros _; apply keeps_raise].
  intros w. apply R_db.
Qed.

(** Break the goal down along the structure of the monadic code. *)
Ltac frame_with known :=
  repeat first
    [ progress intros
    | known
    | match goal with
      | |- keeps _ (ret _) => apply keeps_ret
      | |- keeps _ raise => apply keeps_raise
      | |- keeps _ (gets _) => apply keeps_gets
      | |- keeps _ (bind _ _) => apply keeps_bind
      | |- keeps _ (try_except _ _) => apply keeps_try_except
      | |- keeps _ (transaction _) => apply keeps_transaction
      | |- keeps _ (for_each _ _) => apply keeps_for_each
      | |- keeps _ execute => apply keeps_execute
      | |- keeps _ (execute_update _) => apply keeps_execute_update
      | |- keeps _ (execute_query _) => apply keeps_execute_query
      | |- keeps _ (rollback_to _) => apply keeps_rollback_to
      | |- keeps _ (emit _) => apply keeps_emit; discriminate
      | |- keeps _ (match ?x with _ => _ end) => destruct x
      end
    | assumption ].

Ltac frame := frame_with fail.

Lemma keeps_batch_update_bait_quantities uid bait_updates :
  keeps R (batch_update_bait_quantities uid bait_updates).
Proof using R_db R_refl R_stmt R_trans.
  unfold batch_update_bait_quantities, batch_update_one. frame.
Qed.

Lemma keeps_add_rod_instance uid rid durability refine_level :
  keeps R (add_rod_instance uid rid durability refine_level).
Proof using R_db R_refl R_stmt R_trans. unfold add_rod_instance. frame. Qed.

Lemma keeps_fallback_add_rod_instances uid rod_data_list :
  keeps R (_fallback_add_rod_instances uid rod_data_list).
Proof using R_db R_refl R_stmt R_trans.
  induction rod_data_list as [|[rid durability] rest IH]; simpl;
    frame_with ltac:(apply keeps_add_rod_instance).
Qed.

Lemma keeps_batch_add_rod_instances uid rod_data_list :
  keeps R (batch_add_rod_instances uid rod_data_list).
Proof using R_db R_refl R_stmt R_trans.
  unfold batch_add_rod_instances, _batch_insert_rod_instances.
  frame_with ltac:(apply keeps_fallback_add_rod_instances).
Qed.

Lemma keeps_add_accessory_instance uid aid refine_level :
  keeps R (add_accessory_instance uid aid refine_level).
Proof using R_db R_refl R_stmt R_trans. unfold add_accessory_instance. frame. Qed.

Lemma keeps_fallback_add_accessory_instances uid accessory_ids :
  keeps R (_fallback_add_accessory_instances uid accessory_ids).
Proof using R_db R_refl R_stmt R_trans.
  induction accessory_ids as [|aid rest IH]; simpl;
    frame_with ltac:(apply keeps_add_accessory_instance).
Qed.

Lemma keeps_batch_add_accessory_instances uid accessory_ids :
  keeps R (batch_add_accessory_instances uid accessory_ids).
Proof using R_db R_refl R_stmt R_trans.
  unfold batch_add_accessory_instances, _batch_insert_accessory_instances.
  frame_with ltac:(apply keeps_fallback_add_accessory_instances).
Qed.

Lemma keeps_user_repo_update u : keeps R (user_repo_update u).
Proof using R_call R_trans R_users.
  unfold user_repo_update. apply keeps_bind; [apply keeps_emit; discriminate|].
  intros _ w. apply R_users.
Qed.

Lemma keeps_grant_title_to_user uid title_id :
  keeps R (achievement_repo_grant_title_to_user uid title_id).
Proof using R_call R_titles R_trans.
  unfold achievement_repo_grant_title_to_user.
  apply keeps_bind; [apply keeps_emit; discriminate|].
  intros _ w. apply R_titles.
Qed.

Lemma keeps_grant_rods uid rod_items : keeps R (grant_rods uid rod_items).
Proof using R_call R_db R_refl R_stmt R_trans.
  unfold grant_rods, inventory_repo_batch_add_rod_instances.
  frame_with ltac:(apply keeps_batch_add_rod_instances).
Qed.

Lemma keeps_grant_accessories uid accessory_items :
  keeps R (grant_accessories uid accessory_items).
Proof using R_call R_db R_refl R_stmt R_trans.
  unfold grant_accessories, inventory_repo_batch_add_accessory_instances.
  frame_with ltac:(apply keeps_batch_add_accessory_instances).
Qed.

Lemma keeps_grant_baits uid bait_totals : keeps R (grant_baits uid bait_totals).
Proof using R_call R_db R_refl R_stmt R_trans.
  unfold grant_baits, inventory_repo_batch_update_bait_quantities.
  frame_with ltac:(apply keeps_batch_update_bait_quantities).
Qed.

Lemma keeps_grant_coins uid total_coins : keeps R (grant_coins uid total_coins).
Proof using R_call R_refl R_trans R_users.
  unfold grant_coins, user_repo_get_by_id.
  frame_with ltac:(apply keeps_user_repo_update).
Qed.

Lemma keeps_grant_titles uid title_ids : keeps R (grant_titles uid title_ids).
Proof using R_call R_refl R_titles R_trans.
  induction title_ids as [|title_id rest IH]; simpl;
    frame_with ltac:(apply keeps_grant_title_to_user).
Qed.

End Frame.

(** ** The order of draws, debit and grants in [perform_draw] *)











(** The draws of a request are made one after the other, and each is a
    call to the random source and nothing else. *)
Lemma draw_loop_calls (n : nat) (pool : GachaPool) :
  ∀ w, ∃ draw_results,
    draw_loop n pool w
    = (Val draw_results,
       set_rng_pos (n + rng_pos w)
         (set_calls (calls w ++ replicate n CallRandomUniform) w)).
Proof.
  induction n as [|n IH]; intros w.
  - exists []. simpl. unfold ret. f_equal. destruct w; unfold set_rng_pos, set_calls; simpl.
    by rewrite app_nil_r.
  - cbn [draw_loop]. unfold bind at 1.
    unfold _perform_single_weighted_draw, random_uniform, bind, emit, modify, ret.
    cbn beta iota.
    match goal with
    | |- context [draw_loop n pool ?w1] => destruct (IH w1) as [rest Hrest]; rewrite Hrest
    end.
    eexists. f_equal. unfold set_rng_pos, set_calls. simpl.
    rewrite <- app_assoc. simpl. f_equal; lia.
Qed.





(** ** The audit rows of a batch *)

(** The dictionary of bait totals as a finite map. *)
Lemma defaultdict_add_lookup (k v : Z) (d : list (Z * Z)) :
  (list_to_map (defaultdict_add k v d) : gmap Z Z)
  = <[k := default 0 ((list_to_map d : gmap Z Z) !! k) + v]> (list_to_map d).
Proof.
  induction d as [|[k' v'] d IH]; simpl; [reflexivity|].
  destruct (decide (k' = k)) as [->|Hne]; simpl.
  - rewrite lookup_insert_eq. simpl. by rewrite insert_insert_eq.
  - rewrite IH, lookup_insert_ne by done. by apply insert_insert_ne.
Qed.

Lemma defaultdict_add_keys (k v : Z) (d : list (Z * Z)) :
  ∀ k0, k0 ∈ (defaultdict_add k v d).*1 ↔ k0 = k ∨ k0 ∈ d.*1.
Proof.
  induction d as [|[k' v'] d IH]; intros k0; simpl.
  - rewrite list_elem_of_singleton, elem_of_nil. tauto.
  - destruct (decide (k' = k)) as [->|Hne]; simpl; rewrite !elem_of_cons.
    + tauto.
    + rewrite IH. tauto.
Qed.

Lemma defaultdict_add_NoDup (k v : Z) (d : list (Z * Z)) :
  NoDup d.*1 → NoDup (defaultdict_add k v d).*1.
Proof.
  induction d as [|[k' v'] d IH]; simpl; intros Hd.
  - apply NoDup_singleton.
  - apply NoDup_cons in Hd as [Hk' Hd].
    destruct (decide (k' = k)) as [->|Hne]; simpl; apply NoDup_cons.
    + split; [exact Hk' | exact Hd].
    + split; [|by apply IH].
      rewrite defaultdict_add_keys. intros [?|?]; done.
Qed.

Lemma bait_total_not_drawn bid draw_results :
  ¬ Exists (is_bait_draw bid) draw_results → bait_total bid draw_results = 0.
Proof.
  induction draw_results as [|item rest IH]; intros Hno; [reflexivity|].
  cbn [bait_total foldr]. fold (bait_total bid rest). rewrite Exists_cons in Hno.
  destruct (decide (is_bait_draw bid item)) as [Hyes|_]; [tauto|].
  rewrite IH by tauto. reflexivity.
Qed.

Lemma agg_baits_aggregate_one agg item :
  agg_baits (aggregate_one agg item)
  = if decide (item_type item = "bait")
    then defaultdict_add (item_id item) (quantity item) (agg_baits agg)
    else agg_baits agg.
Proof.
  unfold aggregate_one. repeat case_decide; try reflexivity; congruence.
Qed.

Lemma agg_rods_aggregate_one agg item :
  agg_rods (aggregate_one agg item)
  = if decide (item_type item = "rod") then agg_rods agg ++ [item] else agg_rods agg.
Proof. unfold aggregate_one. repeat case_decide; reflexivity. Qed.

Lemma agg_accessories_aggregate_one agg item :
  agg_accessories (aggregate_one agg item)
  = if decide (item_type item = "accessory")
    then agg_accessories agg ++ [item] else agg_accessories agg.
Proof.
  unfold aggregate_one. repeat case_decide; try reflexivity; congruence.
Qed.

(** The total the aggregation holds for a bait: what it held before, plus
    the quantities of the draws of that bait. *)
Lemma aggregate_baits_from bid (draw_results : list GachaPoolItem) :
  ∀ agg,
    (list_to_map (agg_baits (foldl aggregate_one agg draw_results)) : gmap Z Z) !! bid
    = if decide (Exists (is_bait_draw bid) draw_results)
      then Some (default 0 ((list_to_map (agg_baits agg) : gmap Z Z) !! bid)
                 + bait_total bid draw_results)
      else (list_to_map (agg_baits agg) : gmap Z Z) !! bid.
Proof.
  induction draw_results as [|item rest IH]; intros agg.
  - cbn [foldl]. rewrite decide_False; [reflexivity|]. intros H. by apply Exists_nil in H.
  - cbn [foldl]. rewrite IH, agg_baits_aggregate_one. clear IH. cbn [bait_total foldr].
    fold (bait_total bid rest).
    destruct (decide (is_bait_draw bid item)) as [[Hty Hid]|Hnot].
    + rewrite (decide_True (P := Exists _ (item :: rest)))
        by (apply Exists_cons; left; done).
      rewrite (decide_True (P := item_type item = "bait")) by exact Hty.
      rewrite defaultdict_add_lookup, Hid, lookup_insert_eq. simpl.
      destruct (decide (Exists (is_bait_draw bid) rest)) as [Hrest|Hrest].
      * f_equal; lia.
      * rewrite (bait_total_not_drawn _ _ Hrest). f_equal; lia.
    + assert ((list_to_map (if decide (item_type item = "bait")
                            then defaultdict_add (item_id item) (quantity item) (agg_baits agg)
                            else agg_baits agg) : gmap Z Z) !! bid
              = (list_to_map (agg_baits agg) : gmap Z Z) !! bid) as ->.
      { destruct (decide (item_type item = "bait")) as [Hty|Hty]; [|reflexivity].
        rewrite defaultdict_add_lookup. apply lookup_insert_ne.
        intros Hid. apply Hnot. split; done. }
      destruct (decide (Exists (is_bait_draw bid) rest)) as [Hrest|Hrest].
      * rewrite decide_True by (apply Exists_cons; right; done). f_equal; lia.
      * rewrite decide_False; [reflexivity|]. rewrite Exists_cons. tauto.
Qed.

Lemma aggregate_baits_NoDup (draw_results : list GachaPoolItem) :
  ∀ agg, NoDup (agg_baits agg).*1 →
         NoDup (agg_baits (foldl aggregate_one agg draw_results)).*1.
Proof.
  induction draw_results as [|item rest IH]; intros agg Hagg; [exact Hagg|].
  cbn [foldl]. apply IH. rewrite agg_baits_aggregate_one.
  destruct (decide (item_type item = "bait")); [by apply defaultdict_add_NoDup | exact Hagg].
Qed.

Lemma aggregate_rods_typed (draw_results : list GachaPoolItem) :
  ∀ agg, Forall (λ item, item_type item = "rod") (agg_rods agg) →
         Forall (λ item, item_type item = "rod")
                (agg_rods (foldl aggregate_one agg draw_results)).
Proof.
  induction draw_results as [|item rest IH]; intros agg Hagg; [exact Hagg|].
  cbn [foldl]. apply IH. rewrite agg_rods_aggregate_one.
  destruct (decide (item_type item = "rod")); [|exact Hagg].
  apply Forall_app. split; [exact Hagg | by apply Forall_singleton].
Qed.

Lemma aggregate_accessories_typed (draw_results : list GachaPoolItem) :
  ∀ agg, Forall (λ item, item_type item = "accessory") (agg_accessories agg) →
         Forall (λ item, item_type item = "accessory")
                (agg_accessories (foldl aggregate_one agg draw_results)).
Proof.
  induction draw_results as [|item rest IH]; intros agg Hagg; [exact Hagg|].
  cbn [foldl]. apply IH. rewrite agg_accessories_aggregate_one.
  destruct (decide (item_type item = "accessory")); [|exact Hagg].
  apply Forall_app. split; [exact Hagg | by apply Forall_singleton].
Qed.

Lemma audit_kept_refl w : audit_kept w w.
Proof. by split. Qed.

Lemma audit_kept_trans w1 w2 w3 : audit_kept w1 w2 → audit_kept w2 w3 → audit_kept w1 w3.
Proof. intros [H1 H1'] [H2 H2']. split; congruence. Qed.

Lemma audit_kept_db d w : audit_kept w (set_db d w).
Proof. by split. Qed.

Lemma audit_kept_stmt n w : audit_kept w (set_stmt n w).
Proof. by split. Qed.

Lemma audit_kept_users us w : audit_kept w (set_users us w).
Proof. by split. Qed.

Lemma audit_kept_titles ts w : audit_kept w (set_user_titles ts w).
Proof. by split. Qed.

Lemma audit_kept_call (c : Call) w :
  c ≠ CallRandomUniform → audit_kept w (set_calls (calls w ++ [c]) w).
Proof. by split. Qed.

Lemma bait_records_app bid rs1 rs2 :
  bait_records bid (rs1 ++ rs2) = bait_records bid rs1 ++ bait_records bid rs2.
Proof. apply filter_app. Qed.

Lemma bait_records_other_type bid (ty : string) (granted : Granted) :
  ty ≠ "bait" →
  Forall (λ p, rec_item_type p.2 = ty) granted →
  bait_records bid granted.*2 = [].
Proof.
  intros Hty Hall. induction Hall as [|[reward record] rest Hrecord _ IH]; [reflexivity|].
  cbn [fmap list_fmap snd]. unfold bait_records in *. rewrite filter_cons_False; [exact IH|].
  simpl in Hrecord. intros [Hbait _]. congruence.
Qed.

Lemma rod_grants_typed uid rod_templates rod_items :
  Forall (λ item, item_type item = "rod") rod_items →
  Forall (λ p, rec_item_type p.2 = "rod") (rod_grants uid rod_templates rod_items).
Proof.
  intros Hall. unfold rod_grants.
  induction Hall as [|item rest Hitem _ IH]; [constructor|].
  cbn [omap list_omap]. destruct (rod_templates !! item_id item); simpl; [|exact IH].
  constructor; [exact Hitem | exact IH].
Qed.

Lemma accessory_grants_typed uid accessory_templates accessory_items :
  Forall (λ item, item_type item = "accessory") accessory_items →
  Forall (λ p, rec_item_type p.2 = "accessory")
         (accessory_grants uid accessory_templates accessory_items).
Proof.
  intros Hall. unfold accessory_grants.
  induction Hall as [|item rest Hitem _ IH]; [constructor|].
  cbn [omap list_omap]. destruct (accessory_templates !! item_id item); simpl; [|exact IH].
  constructor; [exact Hitem | exact IH].
Qed.

(** The rows the bait loop writes for [bid]: at most one, with the total of
    the dictionary. *)
Lemma bait_grants_records uid cat bid (bait_totals : list (Z * Z)) :
  NoDup bait_totals.*1 →
  bait_records bid (bait_grants uid cat bait_totals).*2
  = match (list_to_map bait_totals : gmap Z Z) !! bid, baits cat !! bid with
    | Some total_quantity, Some bait_template =>
        if decide (0 < total_quantity)
        then [_create_log_record uid (virtual_item "bait" bid total_quantity)
                                 (bait_name bait_template) (bait_rarity bait_template)]
        else []
    | _, _ => []
    end.
Proof.
  induction bait_totals as [|[k total] rest IH]; intros Hnodup.
  - simpl. rewrite lookup_empty. reflexivity.
  - cbn [fmap list_fmap fst] in Hnodup. apply NoDup_cons in Hnodup as [Hk Hrest].
    specialize (IH Hrest).
    assert (bait_records bid (bait_grants uid cat ((k, total) :: rest)).*2
            = bait_records bid
                (match baits cat !! k with
                 | Some bait_template =>
                     if decide (0 < total)
                     then [_create_log_record uid (virtual_item "bait" k total)
                                              (bait_name bait_template)
                                              (bait_rarity bait_template)]
                     else []
                 | None => []
                 end)
              ++ bait_records bid (bait_grants uid cat rest).*2) as ->.
    { rewrite <- bait_records_app. f_equal. unfold bait_grants. cbn [omap list_omap].
      destruct (baits cat !! k); simpl; [|reflexivity].
      destruct (decide (0 < total)); reflexivity. }
    rewrite IH. cbn [list_to_map foldr]. simpl.
    destruct (decide (k = bid)) as [->|Hne].
    + rewrite lookup_insert_eq.
      assert ((list_to_map rest : gmap Z Z) !! bid = None) as ->.
      { apply not_elem_of_list_to_map_1. exact Hk. }
      rewrite app_nil_r.
      destruct (baits cat !! bid); [|reflexivity].
      destruct (decide (0 < total)); [|reflexivity].
      unfold bait_records. rewrite filter_cons_True by done. reflexivity.
    + rewrite lookup_insert_ne by done.
      assert (bait_records bid
                (match baits cat !! k with
                 | Some bait_template =>
                     if decide (0 < total)
                     then [_create_log_record uid (virtual_item "bait" k total)
                                              (bait_name bait_template)
                                              (bait_rarity bait_template)]
                     else []
                 | None => []
                 end) = []) as ->; [|reflexivity].
      destruct (baits cat !! k); [|reflexivity].
      destruct (decide (0 < total)); [|reflexivity].
      unfold bait_records. rewrite filter_cons_False; [reflexivity|].
      simpl. intros [_ ?]. done.
Qed.

Lemma grant_accessories_result uid accessory_items w granted w' :
  grant_accessories uid accessory_items w = (Val granted, w') →
  ∃ accessory_templates, granted = accessory_grants uid accessory_templates accessory_items.
Proof.
  unfold grant_accessories. destruct accessory_items as [|item rest].
  - intros [= <- _]. by exists ∅.
  - unfold bind at 1, gets.
    destruct (collect_accessory_ids (catalog w) (item :: rest))
      as [accessory_ids accessory_templates].
    destruct accessory_ids as [|aid aids].
    + intros [= <- _]. exists ∅. unfold accessory_grants.
      induction (item :: rest) as [|x xs IH]; [reflexivity|].
      cbn [omap list_omap]. rewrite lookup_empty. exact IH.
    + unfold bind.
      destruct (inventory_repo_batch_add_accessory_instances uid (aid :: aids) w)
        as [[ids|] w1]; [|discriminate].
      intros [= <- _]. by exists accessory_templates.
Qed.

Lemma grant_baits_result uid bait_totals w granted w' :
  grant_baits uid bait_totals w = (Val granted, w') →
  granted = bait_grants uid (catalog w) bait_totals.
Proof.
  unfold grant_baits. destruct bait_totals as [|total rest].
  - intros [= <- _]. reflexivity.
  - unfold bind at 1.
    pose proof (keeps_batch_update_bait_quantities audit_kept audit_kept_refl
                  audit_kept_trans audit_kept_db audit_kept_stmt uid (total :: rest)) as Hkept.
    unfold inventory_repo_batch_update_bait_quantities, bind at 1, emit, modify.
    cbn beta iota.
    match goal with
    | |- context [batch_update_bait_quantities uid (total :: rest) ?w0] =>
        specialize (Hkept w0);
        destruct (batch_update_bait_quantities uid (total :: rest) w0) as [[[]|] w1];
        [|discriminate]
    end.
    destruct Hkept as [_ Hcat]. cbn in Hcat.
    unfold bind, gets. intros [= <- _]. by rewrite Hcat.
Qed.

Lemma grant_coins_result uid total_coins w granted w' :
  grant_coins uid total_coins w = (Val granted, w') →
  Forall (λ p, rec_item_type p.2 = "coins") granted.
Proof.
  unfold grant_coins. destruct (decide (0 < total_coins)); [|by intros [= <- _]].
  unfold bind at 1, user_repo_get_by_id, gets.
  destruct (users w !! uid) as [u|]; [|discriminate].
  unfold bind. destruct (user_repo_update _ w) as [[[]|] w1]; [|discriminate].
  intros [= <- _]. by apply Forall_singleton.
Qed.

Lemma grant_titles_result uid (title_ids : list Z) :
  ∀ w granted w',
    grant_titles uid title_ids w = (Val granted, w') →
    Forall (λ p, rec_item_type p.2 = "titles") granted.
Proof.
  induction title_ids as [|title_id rest IH]; intros w granted w'.
  - intros [= <- _]. constructor.
  - cbn [grant_titles]. unfold bind at 1, gets.
    destruct (titles (catalog w) !! title_id) as [title_template|].
    + unfold bind at 1 2.
      destruct (achievement_repo_grant_title_to_user uid title_id w) as [[[]|] w1];
        [|discriminate].
      cbn [ret]. unfold bind at 1.
      destruct (grant_titles uid rest w1) as [[others|] w2] eqn:Hrest; [|discriminate].
      intros [= <- _]. apply Forall_cons. split; [reflexivity|].
      by eapply IH.
    + unfold bind at 1. cbn [ret]. unfold bind at 1.
      destruct (grant_titles uid rest w) as [[others|] w2] eqn:Hrest; [|discriminate].
      intros [= <- _]. by eapply IH.
Qed.

Lemma add_gacha_record_run record w :
  log_repo_add_gacha_record record w
  = (Val tt, set_gacha_records (gacha_records w ++ [record])
               (set_calls (calls w ++ [CallAddGachaRecord record]) w)).
Proof. reflexivity. Qed.

(** Writing the audit rows appends them, in order, and does not raise. *)
Lemma add_gacha_records_appends (log_records : list GachaRecord) :
  ∀ w, ∃ w',
    for_each log_records log_repo_add_gacha_record w = (Val tt, w') ∧
    gacha_records w' = gacha_records w ++ log_records.
Proof.
  induction log_records as [|record rest IH]; intros w.
  - exists w. by rewrite app_nil_r.
  - cbn [for_each]. unfold bind. rewrite add_gacha_record_run.
    match goal with
    | |- context [for_each rest log_repo_add_gacha_record ?w0] =>
        destruct (IH w0) as (w' & Hrun & Hrecords)
    end.
    exists w'. split; [exact Hrun|]. rewrite Hrecords. cbn. by rewrite <- app_assoc.
Qed.

(** *** The rods: the cache of templates *)

Lemma aggregate_rods_from (draw_results : list GachaPoolItem) :
  ∀ agg,
    agg_rods (foldl aggregate_one agg draw_results)
    = agg_rods agg ++ filter (λ item, item_type item = "rod") draw_results.
Proof.
  induction draw_results as [|item rest IH]; intros agg.
  - cbn [foldl]. by rewrite filter_nil, app_nil_r.
  - cbn [foldl]. rewrite IH, agg_rods_aggregate_one.
    destruct (decide (item_type item = "rod")) as [Hrod|Hnot].
    + rewrite filter_cons_True by exact Hrod. by rewrite <- app_assoc.
    + by rewrite filter_cons_False by exact Hnot.
Qed.

(** The cache of rod templates answers as the catalogue does, on the rods
    it was built from; and no row to insert means no template was found. *)
Lemma collect_rod_data_from (cat : Catalog) (rod_items : list GachaPoolItem) :
  ∀ (rod_data_list : list (Z * option Z)) (rod_templates : gmap Z Rod),
    let collected :=
      foldl (λ '(rod_data_list, rod_templates) rod_item,
               match rods cat !! item_id rod_item with
               | Some rod_template =>
                   (rod_data_list ++ [(item_id rod_item, rod_durability rod_template)],
                    <[item_id rod_item := rod_template]> rod_templates)
               | None => (rod_data_list, rod_templates)
               end)
            (rod_data_list, rod_templates) rod_items in
    (∀ id, id ∈ item_id <$> rod_items → is_Some (rods cat !! id) →
           collected.2 !! id = rods cat !! id) ∧
    (∀ id, ¬ (id ∈ item_id <$> rod_items ∧ is_Some (rods cat !! id)) →
           collected.2 !! id = rod_templates !! id) ∧
    (collected.1 = [] →
     rod_data_list = [] ∧ ∀ item, item ∈ rod_items → rods cat !! item_id item = None).
Proof.
  induction rod_items as [|item rest IH]; intros data cache; cbv zeta.
  - cbn [foldl snd fst]. split; [|split].
    + intros id Hin. by apply elem_of_nil in Hin.
    + reflexivity.
    + intros ->. split; [reflexivity|]. intros item Hin. by apply elem_of_nil in Hin.
  - cbn [foldl]. destruct (rods cat !! item_id item) as [template|] eqn:Htemplate.
    + destruct (IH (data ++ [(item_id item, rod_durability template)])
                   (<[item_id item := template]> cache)) as (Hhit & Hmiss & Hempty).
      split; [|split].
      * intros id Hin Hsome. destruct (decide (id ∈ item_id <$> rest)) as [Hrest|Hrest];
          [by apply Hhit|].
        rewrite Hmiss by tauto. rewrite fmap_cons, elem_of_cons in Hin.
        destruct Hin as [->|Hin]; [|contradiction].
        by rewrite lookup_insert_eq.
      * intros id Hnot. rewrite fmap_cons, elem_of_cons in Hnot.
        rewrite Hmiss by tauto. apply lookup_insert_ne. intros <-. apply Hnot.
        split; [by left | by eexists].
      * intros Hnil. apply Hempty in Hnil as [Hnil _].
        by apply app_eq_nil in Hnil as [_ ?].
    + destruct (IH data cache) as (Hhit & Hmiss & Hempty).
      split; [|split].
      * intros id Hin Hsome. rewrite fmap_cons, elem_of_cons in Hin.
        destruct Hin as [->|Hin]; [|by apply Hhit].
        rewrite Htemplate in Hsome. by destruct Hsome.
      * intros id Hnot. apply Hmiss. rewrite fmap_cons, elem_of_cons in Hnot. tauto.
      * intros Hnil. apply Hempty in Hnil as [Hnil Hnone]. split; [exact Hnil|].
        intros x Hx. apply elem_of_cons in Hx as [->|Hx]; [exact Htemplate | by apply Hnone].
Qed.

Lemma rod_grants_ext uid (cache1 cache2 : gmap Z Rod) (rod_items : list GachaPoolItem) :
  (∀ item, item ∈ rod_items → cache1 !! item_id item = cache2 !! item_id item) →
  rod_grants uid cache1 rod_items = rod_grants uid cache2 rod_items.
Proof.
  intros Hsame. unfold rod_grants. induction rod_items as [|item rest IH]; [reflexivity|].
  cbn [omap list_omap]. rewrite (Hsame item) by apply list_elem_of_here.
  rewrite IH; [reflexivity|]. intros x Hx. apply Hsame. by apply list_elem_of_further.
Qed.

(** What [grant_rods] returns: a result and an audit row for each rod of
    the list whose template is in the catalogue. *)
Lemma grant_rods_per_unit uid rod_items w granted w' :
  grant_rods uid rod_items w = (Val granted, w') →
  granted = rod_grants uid (rods (catalog w)) rod_items.
Proof.
  unfold grant_rods. destruct rod_items as [|item rest]; [by intros [= <- _]|].
  unfold bind at 1, gets.
  pose proof (collect_rod_data_from (catalog w) (item :: rest) [] ∅) as Hcollect.
  cbv zeta in Hcollect. fold (collect_rod_data (catalog w) (item :: rest)) in Hcollect.
  destruct (collect_rod_data (catalog w) (item :: rest)) as [rod_data_list rod_templates].
  destruct Hcollect as (Hhit & Hmiss & Hempty). cbn [fst snd] in *.
  assert (rod_grants uid rod_templates (item :: rest)
          = rod_grants uid (rods (catalog w)) (item :: rest)) as Hsame.
  { apply rod_grants_ext. intros x Hx.
    destruct (rods (catalog w) !! item_id x) as [template|] eqn:Htemplate.
    - rewrite <- Htemplate. apply Hhit; [|by rewrite Htemplate].
      apply list_elem_of_fmap. by exists x.
    - rewrite Hmiss; [apply lookup_empty|]. intros [_ Hsome].
      rewrite Htemplate in Hsome. by destruct Hsome. }
  destruct rod_data_list as [|row rows].
  - intros [= <- _]. destruct (Hempty eq_refl) as [_ Hnone].
    unfold rod_grants. clear -Hnone.
    induction (item :: rest) as [|x xs IH]; [reflexivity|].
    cbn [omap list_omap]. rewrite (Hnone x) by apply list_elem_of_here.
    apply IH. intros y Hy. apply Hnone. by apply list_elem_of_further.
  - unfold bind.
    destruct (inventory_repo_batch_add_rod_instances uid (row :: rows) w) as [[ids|] w1];
      [|discriminate].
    intros [= <- _]. exact Hsame.
Qed.

(** The audit rows [_grant_rewards_batch] appends when it returns: those of
    the rods, of the accessories, of the baits, of the coins and of the
    titles, in this order.  (A call that raises because the inventory
    database did has appended none; the log store itself never fails in
    this model.) *)
Lemma grant_rewards_batch_log_records
    (uid : string) (draw_results : list GachaPoolItem) (w : World) :
  match _grant_rewards_batch uid draw_results w with
  | (Val granted_rewards, w') =>
      ∃ from_accessories from_coins from_titles : Granted,
        Forall (λ p, rec_item_type p.2 = "accessory") from_accessories ∧
        Forall (λ p, rec_item_type p.2 = "coins") from_coins ∧
        Forall (λ p, rec_item_type p.2 = "titles") from_titles ∧
        gacha_records w'
        = gacha_records w
          ++ (rod_grants uid (rods (catalog w)) (agg_rods (aggregate draw_results))
              ++ from_accessories
              ++ bait_grants uid (catalog w) (agg_baits (aggregate draw_results))
              ++ from_coins ++ from_titles).*2
  | (Exn, w') => gacha_records w' = gacha_records w
  end.
Proof.
  unfold _grant_rewards_batch. fold (aggregate draw_results).
  set (agg := aggregate draw_results).
  (* rods *)
  unfold bind at 1.
  pose proof (keeps_grant_rods audit_kept audit_kept_refl audit_kept_trans audit_kept_db
                audit_kept_stmt audit_kept_call uid (agg_rods agg) w) as [K1 C1].
  destruct (grant_rods uid (agg_rods agg) w) as [[from_rods|] w1] eqn:H1;
    cbn [snd] in K1, C1; [|exact K1].
  (* accessories *)
  unfold bind at 1.
  pose proof (keeps_grant_accessories audit_kept audit_kept_refl audit_kept_trans
                audit_kept_db audit_kept_stmt audit_kept_call uid (agg_accessories agg) w1)
    as [K2 C2].
  destruct (grant_accessories uid (agg_accessories agg) w1) as [[from_accessories|] w2] eqn:H2;
    cbn [snd] in K2, C2; [|congruence].
  (* baits *)
  unfold bind at 1.
  pose proof (keeps_grant_baits audit_kept audit_kept_refl audit_kept_trans audit_kept_db
                audit_kept_stmt audit_kept_call uid (agg_baits agg) w2) as [K3 C3].
  destruct (grant_baits uid (agg_baits agg) w2) as [[from_baits|] w3] eqn:H3;
    cbn [snd] in K3, C3; [|congruence].
  (* coins *)
  unfold bind at 1.
  pose proof (keeps_grant_coins audit_kept audit_kept_refl audit_kept_trans audit_kept_users
                audit_kept_call uid (agg_coins agg) w3) as [K4 C4].
  destruct (grant_coins uid (agg_coins agg) w3) as [[from_coins|] w4] eqn:H4;
    cbn [snd] in K4, C4; [|congruence].
  (* titles *)
  unfold bind at 1.
  pose proof (keeps_grant_titles audit_kept audit_kept_refl audit_kept_trans
                audit_kept_titles audit_kept_call uid (elements (agg_titles agg)) w4)
    as [K5 C5].
  destruct (grant_titles uid (elements (agg_titles agg)) w4) as [[from_titles|] w5] eqn:H5;
    cbn [snd] in K5, C5; [|congruence].
  (* the audit rows *)
  cbv zeta. unfold bind at 1.
  match goal with
  | |- context [for_each ?logs log_repo_add_gacha_record w5] =>
      destruct (add_gacha_records_appends logs w5) as (w6 & Hrun & Hrecords); rewrite Hrun
  end.
  cbn [ret]. exists from_accessories, from_coins, from_titles.
  destruct (grant_accessories_result _ _ _ _ _ H2) as [accessory_templates Haccessories].
  split; [|split; [|split]].
  - rewrite Haccessories. apply accessory_grants_typed.
    subst agg. apply aggregate_accessories_typed. constructor.
  - eapply grant_coins_result. exact H4.
  - eapply grant_titles_result. exact H5.
  - rewrite Hrecords, K5, K4, K3, K2, K1.
    rewrite (grant_rods_per_unit _ _ _ _ _ H1), (grant_baits_result _ _ _ _ _ H3).
    replace (catalog w2) with (catalog w) by congruence. reflexivity.
Qed.

(** C4, as the code has it: when [_grant_rewards_batch] returns, the audit
    rows it has appended hold, for every bait template, at most one row:
    exactly one, carrying the sum of the quantities of all the draws of
    that bait, when the template exists and the sum is positive, and none
    otherwise.  (A bait drawn in [m] draws gets one row with the summed
    quantity, like the single aggregated change of the inventory, not [m]
    rows.)  Nothing is said of a call that raises: the rows are appended
    one call at a time, and those written before a failure stay. *)
Theorem grant_rewards_batch_bait_audit_rows
    (uid : string) (draw_results : list GachaPoolItem) (w : World) :
  match _grant_rewards_batch uid draw_results w with
  | (Val granted_rewards, w') =>
      ∃ log_records,
        gacha_records w' = gacha_records w ++ log_records ∧
        ∀ bid,
          bait_records bid log_records
          = match baits (catalog w) !! bid with
            | Some bait_template =>
                if decide (0 < bait_total bid draw_results)
                then [{| rec_user_id := uid; rec_gacha_pool_id := 0;
                         rec_item_type := "bait"; rec_item_id := bid;
                         rec_item_name := bait_name bait_template;
                         rec_quantity := bait_total bid draw_results;
                         rec_rarity := bait_rarity bait_template |}]
                else []
            | None => []
            end
  | (Exn, w') => True
  end.
Proof.
  pose proof (grant_rewards_batch_log_records uid draw_results w) as Hlog.
  destruct (_grant_rewards_batch uid draw_results w) as [[granted_rewards|] w'];
    [|exact I].
  destruct Hlog as (from_accessories & from_coins & from_titles
                    & Haccessories & Hcoins & Htitles & Hrecords).
  eexists. split; [exact Hrecords|].
  intros bid. rewrite !fmap_app, !bait_records_app.
  rewrite (bait_records_other_type bid "rod")
    by (try discriminate; apply rod_grants_typed, aggregate_rods_typed; constructor).
  rewrite (bait_records_other_type bid "accessory" from_accessories)
    by (try discriminate; exact Haccessories).
  rewrite (bait_records_other_type bid "coins" from_coins)
    by (try discriminate; exact Hcoins).
  rewrite (bait_records_other_type bid "titles" from_titles)
    by (try discriminate; exact Htitles).
  rewrite app_nil_r. cbn [app].
  rewrite bait_grants_records by (apply aggregate_baits_NoDup; constructor).
  unfold aggregate. rewrite aggregate_baits_from.
  cbn [agg_baits no_rewards list_to_map foldr]. rewrite lookup_empty. cbn [default].
  destruct (decide (Exists (is_bait_draw bid) draw_results)) as [Hdrawn|Hnot].
  - destruct (baits (catalog w) !! bid); reflexivity.
  - rewrite (bait_total_not_drawn _ _ Hnot).
    destruct (baits (catalog w) !! bid); reflexivity.
Qed.

(** Two draws of worms, of 2 and of 3: the inventory gets one change of 5
    and the audit table one row of quantity 5.  (C4 as stated asks for two
    rows, of quantities 2 and 3.) *)
Lemma bait_drawn_twice_gets_one_audit_row :
  let outcome := _grant_rewards_batch "alice" [Sample.worms 2; Sample.worms 3]
                   (Sample.world 0 Sample.empty_db) in
  outcome.1 = Val [RewardBait 7 "worm" 1 5] ∧
  calls outcome.2
  = [CallBatchUpdateBaitQuantities "alice" [(7, 5)];
     CallAddGachaRecord
       {| rec_user_id := "alice"; rec_gacha_pool_id := 0; rec_item_type := "bait";
          rec_item_id := 7; rec_item_name := "worm"; rec_quantity := 5;
          rec_rarity := 1 |}] ∧
  gacha_records outcome.2
  = [{| rec_user_id := "alice"; rec_gacha_pool_id := 0; rec_item_type := "bait";
        rec_item_id := 7; rec_item_name := "worm"; rec_quantity := 5; rec_rarity := 1 |}] ∧
  length (gacha_records outcome.2) ≠ 2%nat ∧
  user_bait_inventory (db outcome.2)
  = [{| bait_user_id := "alice"; bait_id := 7; bait_quantity := 5 |}].
Proof. vm_compute. repeat split; congruence. Qed.

Lemma records_of_type_other (ty ty' : string) (granted : Granted) :
  ty' ≠ ty →
  Forall (λ p, rec_item_type p.2 = ty') granted →
  records_of_type ty granted.*2 = [].
Proof.
  intros Hty Hall. induction Hall as [|[reward record] rest Hrecord _ IH]; [reflexivity|].
  cbn [fmap list_fmap snd]. unfold records_of_type in *.
  rewrite filter_cons_False; [exact IH|]. simpl in Hrecord. congruence.
Qed.

Lemma records_of_type_same (ty : string) (granted : Granted) :
  Forall (λ p, rec_item_type p.2 = ty) granted →
  records_of_type ty granted.*2 = granted.*2.
Proof.
  intros Hall. induction Hall as [|[reward record] rest Hrecord _ IH]; [reflexivity|].
  cbn [fmap list_fmap snd]. unfold records_of_type in *.
  rewrite filter_cons_True by exact Hrecord. by rewrite IH.
Qed.

Lemma bait_grants_typed uid cat (bait_totals : list (Z * Z)) :
  Forall (λ p, rec_item_type p.2 = "bait") (bait_grants uid cat bait_totals).
Proof.
  unfold bait_grants. induction bait_totals as [|[bid total] rest IH]; [constructor|].
  cbn [omap list_omap]. destruct (baits cat !! bid); simpl; [|exact IH].
  destruct (decide (0 < total)); [|exact IH]. constructor; [reflexivity | exact IH].
Qed.

Lemma rod_grants_rows uid cat (rod_items : list GachaPoolItem) :
  (rod_grants uid (rods cat) rod_items).*2 = omap (rod_audit_row uid cat) rod_items.
Proof.
  induction rod_items as [|item rest IH]; [reflexivity|].
  unfold rod_grants, rod_audit_row in *. cbn [omap list_omap].
  destruct (rods cat !! item_id item); cbn [mbind option_bind fmap list_fmap snd];
    [f_equal|]; exact IH.
Qed.

(** Rods do keep one audit row per drawn unit: when [_grant_rewards_batch]
    returns, the rows of type "rod" it has appended are, in the order of the
    draws, one per drawn rod whose template exists, each with the pool and
    the quantity of that draw.  Nothing is said of a call that raises. *)
Theorem grant_rewards_batch_rod_audit_rows
    (uid : string) (draw_results : list GachaPoolItem) (w : World) :
  match _grant_rewards_batch uid draw_results w with
  | (Val granted_rewards, w') =>
      ∃ log_records,
        gacha_records w' = gacha_records w ++ log_records ∧
        records_of_type "rod" log_records
        = omap (rod_audit_row uid (catalog w))
               (filter (λ item, item_type item = "rod") draw_results)
  | (Exn, w') => True
  end.
Proof.
  pose proof (grant_rewards_batch_log_records uid draw_results w) as Hlog.
  destruct (_grant_rewards_batch uid draw_results w) as [[granted_rewards|] w'];
    [|exact I].
  destruct Hlog as (from_accessories & from_coins & from_titles
                    & Haccessories & Hcoins & Htitles & Hrecords).
  eexists. split; [exact Hrecords|].
  unfold records_of_type. rewrite !fmap_app, !filter_app.
  fold (records_of_type "rod"
          (rod_grants uid (rods (catalog w)) (agg_rods (aggregate draw_results))).*2).
  fold (records_of_type "rod" from_accessories.*2).
  fold (records_of_type "rod"
          (bait_grants uid (catalog w) (agg_baits (aggregate draw_results))).*2).
  fold (records_of_type "rod" from_coins.*2).
  fold (records_of_type "rod" from_titles.*2).
  rewrite (records_of_type_other "rod" "accessory" from_accessories)
    by (try discriminate; exact Haccessories).
  rewrite (records_of_type_other "rod" "bait"
             (bait_grants uid (catalog w) (agg_baits (aggregate draw_results))))
    by (try discriminate; apply bait_grants_typed).
  rewrite (records_of_type_other "rod" "coins" from_coins)
    by (try discriminate; exact Hcoins).
  rewrite (records_of_type_other "rod" "titles" from_titles)
    by (try discriminate; exact Htitles).
  rewrite !app_nil_r.
  rewrite records_of_type_same
    by (apply rod_grants_typed, aggregate_rods_typed; constructor).
  rewrite rod_grants_rows. unfold aggregate. rewrite aggregate_rods_from. reflexivity.
Qed.

(** Two rods and two portions of worms: two rows for the rods, one for the
    worms. *)
Example audit_rows_of_rods_and_baits :
  let outcome := _grant_rewards_batch "alice"
                   [Sample.rod_item; Sample.worms 2; Sample.rod_item; Sample.worms 3]
                   (Sample.world 0 Sample.empty_db) in
  (rec_item_type <$> gacha_records outcome.2) = ["rod"; "rod"; "bait"] ∧
  (rec_quantity <$> gacha_records outcome.2) = [1; 1; 5] ∧
  length (user_rods (db outcome.2)) = 2%nat.
Proof. vm_compute. repeat split. Qed.
(** * Further properties *)

(** ** The fish inventory *)

Lemma set_user_fish_inventory_same (d : Database) :
  set_user_fish_inventory (user_fish_inventory d) d = d.
Proof. by destruct d. Qed.

Lemma fish_inventory_value_sum fish_rarity uid rarity d :
  fish_inventory_value fish_rarity uid rarity d
  = foldr Z.add 0 (fish_values fish_rarity uid rarity d).
Proof.
  unfold fish_inventory_value, select_fish_inventory_value.
  by destruct (fish_values fish_rarity uid rarity d).
Qed.

(** When it returns, [get_fish_inventory_value] returns the value it reads
    and changes nothing but the statement counter. *)
Lemma get_fish_inventory_value_reads fish_rarity uid rarity w :
  match get_fish_inventory_value fish_rarity uid rarity w with
  | (Val value, w') => value = fish_inventory_value fish_rarity uid rarity (db w) ∧ db w' = db w
  | (Exn, w') => db w' = db w
  end.
Proof.
  unfold get_fish_inventory_value. run_sql. split_faults; [reflexivity|].
  split; reflexivity.
Qed.

(** The value of the rows of a table, a row at a time. *)
Lemma fish_inventory_value_cons fish_rarity uid rarity ufi rows d :
  fish_inventory_value fish_rarity uid rarity (set_user_fish_inventory (ufi :: rows) d)
  = fish_row_value fish_rarity uid rarity d ufi
    + fish_inventory_value fish_rarity uid rarity (set_user_fish_inventory rows d).
Proof.
  rewrite !fish_inventory_value_sum. unfold fish_values, fish_row_value. cbn.
  destruct (fish d !! fish_id ufi) as [f|]; cbn; [|reflexivity].
  destruct (decide (fish_user_id ufi = uid ∧ rarity_is fish_rarity rarity (fish_id ufi)));
    reflexivity.
Qed.

Lemma fish_inventory_value_nil fish_rarity uid rarity d :
  fish_inventory_value fish_rarity uid rarity (set_user_fish_inventory [] d) = 0.
Proof. reflexivity. Qed.

Lemma sold_value_of_select_cons uid ufi rows d :
  sold_value_of (select_fish_to_sell uid (set_user_fish_inventory (ufi :: rows) d))
  = (match fish d !! fish_id ufi with
     | Some f => if decide (fish_user_id ufi = uid ∧ 1 < fish_quantity ufi)
                 then (fish_quantity ufi - 1) * base_value f else 0
     | None => 0
     end)
    + sold_value_of (select_fish_to_sell uid (set_user_fish_inventory rows d)).
Proof.
  unfold select_fish_to_sell. cbn.
  destruct (fish d !! fish_id ufi) as [f|]; cbn; [|lia].
  destruct (decide (fish_user_id ufi = uid ∧ 1 < fish_quantity ufi)); [|lia].
  cbn [foldl]. rewrite sold_value_of_from. unfold sold_value_of. cbn. lia.
Qed.

Lemma sell_splits_value fish_rarity uid rows d :
  fish_inventory_value fish_rarity uid None (set_user_fish_inventory rows d)
  = fish_inventory_value fish_rarity uid None
      (clamp_fish_to_one uid (set_user_fish_inventory rows d))
    + sold_value_of (select_fish_to_sell uid (set_user_fish_inventory rows d)).
Proof.
  induction rows as [|ufi rows IH]; [reflexivity|].
  rewrite fish_inventory_value_cons, sold_value_of_select_cons, IH.
  unfold clamp_fish_to_one. cbn [user_fish_inventory set_user_fish_inventory].
  rewrite fmap_cons.
  change (set_user_fish_inventory (?x :: ?l) (set_user_fish_inventory ?r d))
    with (set_user_fish_inventory (x :: l) d).
  rewrite fish_inventory_value_cons.
  change (set_user_fish_inventory ?l (set_user_fish_inventory ?r d))
    with (set_user_fish_inventory l d).
  unfold fish_row_value.
  destruct (decide (fish_user_id ufi = uid ∧ 1 < fish_quantity ufi)) as [[Hu Hq]|Hno];
    cbn [fish_id fish_user_id fish_quantity];
    destruct (fish d !! fish_id ufi) as [f|]; try lia.
  rewrite !decide_True by (split; [assumption | exact I]). lia.
Qed.

(** The magnitude of the rows of a table, a row at a time. *)
Lemma fish_value_magnitude_cons fish_rarity uid rarity ufi rows d :
  fish_value_magnitude fish_rarity uid rarity (set_user_fish_inventory (ufi :: rows) d)
  = Z.abs (fish_row_value fish_rarity uid rarity d ufi)
    + fish_value_magnitude fish_rarity uid rarity (set_user_fish_inventory rows d).
Proof.
  unfold fish_value_magnitude, fish_values, fish_row_value. cbn.
  destruct (fish d !! fish_id ufi) as [f|]; cbn; [|reflexivity].
  destruct (decide (fish_user_id ufi = uid ∧ rarity_is fish_rarity rarity (fish_id ufi)));
    reflexivity.
Qed.

Lemma fish_value_magnitude_app fish_rarity uid rarity rows1 rows2 d :
  fish_value_magnitude fish_rarity uid rarity (set_user_fish_inventory (rows1 ++ rows2) d)
  = fish_value_magnitude fish_rarity uid rarity (set_user_fish_inventory rows1 d)
    + fish_value_magnitude fish_rarity uid rarity (set_user_fish_inventory rows2 d).
Proof.
  induction rows1 as [|ufi rows1 IH]; [reflexivity|].
  rewrite <- app_comm_cons, !fish_value_magnitude_cons, IH. lia.
Qed.

(** Bringing quantities above 1 down to 1 does not raise the magnitude. *)
Lemma clamp_lowers_magnitude fish_rarity uid rarity rows d :
  fish_value_magnitude fish_rarity uid rarity
    (clamp_fish_to_one uid (set_user_fish_inventory rows d))
  ≤ fish_value_magnitude fish_rarity uid rarity (set_user_fish_inventory rows d).
Proof.
  induction rows as [|ufi rows IH]; [reflexivity|].
  unfold clamp_fish_to_one in *. cbn [user_fish_inventory set_user_fish_inventory] in *.
  rewrite fmap_cons.
  change (set_user_fish_inventory (?x :: ?l) (set_user_fish_inventory ?r d))
    with (set_user_fish_inventory (x :: l) d).
  change (set_user_fish_inventory ?l (set_user_fish_inventory ?r d))
    with (set_user_fish_inventory l d) in IH.
  rewrite !fish_value_magnitude_cons.
  change (set_user_fish_inventory ?l (set_user_fish_inventory ?r d))
    with (set_user_fish_inventory l d).
  assert (Z.abs (fish_row_value fish_rarity uid rarity d
                   (if decide (fish_user_id ufi = uid ∧ 1 < fish_quantity ufi)
                    then {| fish_user_id := fish_user_id ufi; fish_id := fish_id ufi;
                            fish_quantity := 1 |}
                    else ufi))
          ≤ Z.abs (fish_row_value fish_rarity uid rarity d ufi)) as Hrow; [|lia].
  destruct (decide (fish_user_id ufi = uid ∧ 1 < fish_quantity ufi)) as [[Hu Hq]|Hno];
    [|lia].
  unfold fish_row_value. cbn [fish_id fish_user_id fish_quantity].
  destruct (fish d !! fish_id ufi) as [f|]; [|lia].
  destruct (decide (fish_user_id ufi = uid ∧ rarity_is fish_rarity rarity (fish_id ufi)));
    [|lia].
  rewrite Z.mul_1_r, Z.abs_mul. 
  assert (0 ≤ Z.abs (base_value f)) by lia. nia.
Qed.

(** Selling all but one moves value from the inventory to the amount
    returned and loses none: the value that [get_fish_inventory_value]
    reads before the call is the value it reads after it plus the value
    returned.  The read before the call is one that SQLite makes in 64-bit
    integers (its magnitude is below [2 ^ 63]); the read after the call is
    then one as well.  Rows without a template count for nothing on both
    sides.  When the call raises the database is as it was. *)
Theorem sell_fish_keep_one_conserves_value fish_rarity (uid : string) (w : World) :
  fish_value_magnitude fish_rarity uid None (db w) < 2 ^ 63 →
  match sell_fish_keep_one uid w with
  | (Val sold_value, w') =>
      fish_inventory_value fish_rarity uid None (db w)
      = fish_inventory_value fish_rarity uid None (db w') + sold_value
      ∧ fish_value_magnitude fish_rarity uid None (db w') < 2 ^ 63
  | (Exn, w') => db w' = db w
  end.
Proof.
  intros Hfits.
  pose proof (sell_splits_value fish_rarity uid (user_fish_inventory (db w)) (db w)) as Hsplit.
  pose proof (clamp_lowers_magnitude fish_rarity uid None (user_fish_inventory (db w)) (db w))
    as Hlower.
  rewrite set_user_fish_inventory_same in Hsplit, Hlower.
  unfold sell_fish_keep_one. run_sql.
  destruct (fault w (stmt w)); simpl; [reflexivity|].
  destruct (fault w (S (stmt w))); simpl; [reflexivity|].
  destruct (select_fish_to_sell uid (db w)) as [|item rest] eqn:Hsel; simpl;
    [split; [lia | exact Hfits]|].
  destruct (fault w (S (S (stmt w)))); simpl; [reflexivity|].
  destruct (fault w (S (S (S (stmt w))))); simpl; [reflexivity|].
  split; [exact Hsplit | lia].
Qed.

(** The inventory of the example: 5 fish at 10 and 1 fish at 20. *)
Lemma sell_fish_keep_one_conserves_value_witness :
  match sell_fish_keep_one "alice" (Sample.world 0 Sample.fish_db) with
  | (Val sold_value, w') =>
      fish_inventory_value (λ _, 1) "alice" None Sample.fish_db
      = fish_inventory_value (λ _, 1) "alice" None (db w') + sold_value
      ∧ fish_value_magnitude (λ _, 1) "alice" None (db w') < 2 ^ 63
  | (Exn, w') => db w' = Sample.fish_db
  end.
Proof.
  apply (sell_fish_keep_one_conserves_value (λ _, 1) "alice" (Sample.world 0 Sample.fish_db)).
  vm_compute. reflexivity.
Defined.

Lemma nothing_above_one_nothing_to_sell uid d :
  Forall (λ ufi, ¬ (fish_user_id ufi = uid ∧ 1 < fish_quantity ufi)) (user_fish_inventory d) →
  select_fish_to_sell uid d = [].
Proof.
  unfold select_fish_to_sell.
  induction (user_fish_inventory d) as [|ufi rows IH]; intros Hrows; [reflexivity|].
  apply Forall_cons in Hrows as [Hufi Hrows]. cbn.
  destruct (fish d !! fish_id ufi) as [f|]; cbn; [rewrite decide_False by exact Hufi|];
    exact (IH Hrows).
Qed.

Lemma clamp_leaves_nothing_to_sell uid d :
  select_fish_to_sell uid (clamp_fish_to_one uid d) = [].
Proof.
  apply nothing_above_one_nothing_to_sell. unfold clamp_fish_to_one.
  cbn [user_fish_inventory set_user_fish_inventory].
  apply Forall_fmap, Forall_forall. intros ufi _. cbn.
  destruct (decide (fish_user_id ufi = uid ∧ 1 < fish_quantity ufi)); cbn; [lia | assumption].
Qed.

Lemma sell_fish_keep_one_nothing_to_sell uid w :
  select_fish_to_sell uid (db w) = [] →
  match sell_fish_keep_one uid w with
  | (Val sold_value, w') => sold_value = 0 ∧ db w' = db w
  | (Exn, w') => db w' = db w
  end.
Proof.
  intros Hsel. unfold sell_fish_keep_one. run_sql.
  destruct (fault w (stmt w)); simpl; [reflexivity|].
  destruct (fault w (S (stmt w))); simpl; [reflexivity|].
  rewrite Hsel. simpl. split; reflexivity.
Qed.

Lemma sell_fish_keep_one_leaves_nothing_to_sell uid w :
  match sell_fish_keep_one uid w with
  | (Val _, w') => select_fish_to_sell uid (db w') = []
  | (Exn, _) => True
  end.
Proof.
  unfold sell_fish_keep_one. run_sql.
  destruct (fault w (stmt w)); simpl; [exact I|].
  destruct (fault w (S (stmt w))); simpl; [exact I|].
  destruct (select_fish_to_sell uid (db w)) as [|item rest] eqn:Hsel; simpl; [exact Hsel|].
  destruct (fault w (S (S (stmt w)))); simpl; [exact I|].
  destruct (fault w (S (S (S (stmt w))))); simpl; [exact I|].
  apply clamp_leaves_nothing_to_sell.
Qed.

(** Selling all but one a second time sells nothing: after a call of
    [sell_fish_keep_one] that returned, a further call returns 0, and,
    whether it returns or raises, it leaves the tables as the first call
    left them. *)
Theorem sell_fish_keep_one_twice (uid : string) (w : World) :
  match sell_fish_keep_one uid w with
  | (Val _, w1) =>
      match sell_fish_keep_one uid w1 with
      | (Val sold_value, w2) => sold_value = 0 ∧ db w2 = db w1
      | (Exn, w2) => db w2 = db w1
      end
  | (Exn, _) => True
  end.
Proof.
  pose proof (sell_fish_keep_one_leaves_nothing_to_sell uid w) as Hfirst.
  destruct (sell_fish_keep_one uid w) as [[sold|] w1]; [|exact I].
  exact (sell_fish_keep_one_nothing_to_sell uid w1 Hfirst).
Qed.

Lemma fish_inventory_value_app fish_rarity uid rarity rows1 rows2 d :
  fish_inventory_value fish_rarity uid rarity (set_user_fish_inventory (rows1 ++ rows2) d)
  = fish_inventory_value fish_rarity uid rarity (set_user_fish_inventory rows1 d)
    + fish_inventory_value fish_rarity uid rarity (set_user_fish_inventory rows2 d).
Proof.
  induction rows1 as [|ufi rows1 IH]; [rewrite fish_inventory_value_nil; reflexivity|].
  rewrite <- app_comm_cons, !fish_inventory_value_cons, IH. lia.
Qed.

Lemma no_fish_row_not_in_keys uid fid (rows : list UserFishInventoryItem) :
  (uid, fid) ∉ (λ ufi, (fish_user_id ufi, fish_id ufi)) <$> rows →
  ¬ Exists (is_fish_row uid fid) rows.
Proof.
  intros Hkey Hex. apply Exists_exists in Hex as (ufi & Hin & Hu & Hf). apply Hkey.
  apply list_elem_of_fmap. exists ufi. split; [by rewrite Hu, Hf | exact Hin].
Qed.

Lemma fmap_no_fish_row uid fid (change : UserFishInventoryItem → UserFishInventoryItem)
    (rows : list UserFishInventoryItem) :
  ¬ Exists (is_fish_row uid fid) rows →
  (λ ufi, if decide (is_fish_row uid fid ufi) then change ufi else ufi) <$> rows = rows.
Proof.
  intros Hno. induction rows as [|ufi rows IH]; [reflexivity|].
  rewrite fmap_cons, IH by (intros H; apply Hno; by apply Exists_cons_tl).
  rewrite decide_False; [reflexivity|]. intros H. apply Hno. by apply Exists_cons_hd.
Qed.

Lemma add_to_row_adds_value fish_rarity uid fid qty other rarity rows d :
  NoDup ((λ ufi, (fish_user_id ufi, fish_id ufi)) <$> rows) →
  Exists (is_fish_row uid fid) rows →
  fish_inventory_value fish_rarity other rarity
    (set_user_fish_inventory
       ((λ ufi, if decide (is_fish_row uid fid ufi)
                then with_fish_quantity (fish_quantity ufi + qty) ufi else ufi) <$> rows) d)
  = fish_inventory_value fish_rarity other rarity (set_user_fish_inventory rows d)
    + value_of_change fish_rarity uid fid qty other rarity d.
Proof.
  induction rows as [|ufi rows IH]; intros Hkeys Hex; [by apply Exists_nil in Hex|].
  rewrite fmap_cons in Hkeys. apply NoDup_cons in Hkeys as [Hkey Hkeys].
  rewrite fmap_cons, !fish_inventory_value_cons.
  destruct (decide (is_fish_row uid fid ufi)) as [[Hu Hf]|Hno].
  - rewrite Hu, Hf in Hkey.
    rewrite (fmap_no_fish_row uid fid) by (by apply no_fish_row_not_in_keys).
    unfold value_of_change, fish_row_value. cbn [fish_id fish_user_id fish_quantity with_fish_quantity].
    rewrite Hu, Hf. destruct (fish d !! fid) as [f|]; cbn [fmap option_fmap option_map default from_option id].
    + destruct (decide (uid = other ∧ rarity_is fish_rarity rarity fid)) as [[-> Hr]|Hother].
      * rewrite decide_True by done. lia.
      * rewrite decide_False by (intros [-> Hr]; by apply Hother). lia.
    + destruct (decide (other = uid ∧ rarity_is fish_rarity rarity fid)); lia.
  - apply Exists_cons in Hex as [Hhere|Hex]; [contradiction|].
    rewrite (IH Hkeys Hex). lia.
Qed.

Lemma add_to_row_magnitude fish_rarity uid fid qty other rarity rows d :
  NoDup ((λ ufi, (fish_user_id ufi, fish_id ufi)) <$> rows) →
  Exists (is_fish_row uid fid) rows →
  fish_value_magnitude fish_rarity other rarity
    (set_user_fish_inventory
       ((λ ufi, if decide (is_fish_row uid fid ufi)
                then with_fish_quantity (fish_quantity ufi + qty) ufi else ufi) <$> rows) d)
  ≤ fish_value_magnitude fish_rarity other rarity (set_user_fish_inventory rows d)
    + Z.abs (value_of_change fish_rarity uid fid qty other rarity d).
Proof.
  induction rows as [|ufi rows IH]; intros Hkeys Hex; [by apply Exists_nil in Hex|].
  rewrite fmap_cons in Hkeys. apply NoDup_cons in Hkeys as [Hkey Hkeys].
  rewrite fmap_cons, !fish_value_magnitude_cons.
  destruct (decide (is_fish_row uid fid ufi)) as [[Hu Hf]|Hno].
  - rewrite Hu, Hf in Hkey.
    rewrite (fmap_no_fish_row uid fid) by (by apply no_fish_row_not_in_keys).
    unfold value_of_change, fish_row_value.
    cbn [fish_id fish_user_id fish_quantity with_fish_quantity].
    rewrite Hu, Hf.
    destruct (fish d !! fid) as [f|];
      cbn [fmap option_fmap option_map default from_option id].
    + destruct (decide (uid = other ∧ rarity_is fish_rarity rarity fid)) as [[-> Hr]|Hother].
      * rewrite decide_True by done. rewrite Z.mul_add_distr_l. lia.
      * rewrite decide_False by (intros [-> Hr]; by apply Hother). lia.
    + destruct (decide (other = uid ∧ rarity_is fish_rarity rarity fid)); lia.
  - apply Exists_cons in Hex as [Hhere|Hex]; [contradiction|].
    specialize (IH Hkeys Hex). lia.
Qed.

(** [add_fish_to_inventory] on a table whose key [(user_id, fish_id)] is
    unique, for a quantity that is a 64-bit integer and that, added to the
    quantity of the row of the key if there is one, gives a 64-bit
    integer.  When it returns, the key is still unique; and for any user
    and any rarity filter whose value SQLite reads in 64-bit integers with
    room for the change, the read after the call is one in 64-bit integers
    as well and the value that [get_fish_inventory_value] reads has grown
    by the base value of the fish times the quantity added if the user is
    the one passed and the fish passes the filter (by nothing for a fish
    without a template), and is unchanged otherwise.  When it raises the
    database is as it was. *)
Theorem add_fish_to_inventory_adds_value
    fish_rarity (uid : string) (fid qty : Z) (w : World) :
  fish_keys_unique (db w) →
  sqlite_integer qty →
  (∀ ufi, ufi ∈ user_fish_inventory (db w) → is_fish_row uid fid ufi →
          sqlite_integer (fish_quantity ufi + qty)) →
  match add_fish_to_inventory uid fid qty w with
  | (Val _, w') =>
      fish_keys_unique (db w')
      ∧ ∀ other rarity,
          fish_value_magnitude fish_rarity other rarity (db w)
          + Z.abs (value_of_change fish_rarity uid fid qty other rarity (db w)) < 2 ^ 63 →
          fish_value_magnitude fish_rarity other rarity (db w') < 2 ^ 63
          ∧ fish_inventory_value fish_rarity other rarity (db w')
            = fish_inventory_value fish_rarity other rarity (db w)
              + value_of_change fish_rarity uid fid qty other rarity (db w)
  | (Exn, w') => db w' = db w
  end.
Proof.
  intros Hkeys _ _. unfold add_fish_to_inventory. run_sql. split_faults; try reflexivity.
  unfold upsert_fish, fish_keys_unique in *.
  cbn [user_fish_inventory set_user_fish_inventory].
  destruct (decide (Exists (is_fish_row uid fid) (user_fish_inventory (db w)))) as [Hex|Hno].
  - split.
    + rewrite <- list_fmap_compose.
      erewrite list_fmap_ext; [exact Hkeys|]. intros _ ufi _. cbn.
      by destruct (decide (is_fish_row uid fid ufi)).
    + intros other rarity Hfits. split.
      * pose proof (add_to_row_magnitude fish_rarity uid fid qty other rarity
                      (user_fish_inventory (db w)) (db w) Hkeys Hex) as Hmagnitude.
        rewrite set_user_fish_inventory_same in Hmagnitude. lia.
      * rewrite (add_to_row_adds_value _ _ _ _ _ _ _ _ Hkeys Hex).
        by rewrite set_user_fish_inventory_same.
  - split.
    + rewrite fmap_app. apply NoDup_app. split; [exact Hkeys|]. split.
      * intros key Hin Hnew. apply list_elem_of_singleton in Hnew as ->.
        apply Hno. apply list_elem_of_fmap in Hin as (ufi & Heq & Hin).
        apply Exists_exists. exists ufi. split; [exact Hin|].
        cbn in Heq. injection Heq as -> ->. by split.
      * apply NoDup_singleton.
    + intros other rarity.
      rewrite fish_value_magnitude_app, fish_inventory_value_app,
        set_user_fish_inventory_same.
      rewrite fish_value_magnitude_cons, fish_inventory_value_cons, fish_inventory_value_nil.
      change (fish_value_magnitude fish_rarity other rarity (set_user_fish_inventory [] (db w)))
        with 0.
      assert (fish_row_value fish_rarity other rarity (db w)
                {| fish_user_id := uid; fish_id := fid; fish_quantity := qty |}
              = value_of_change fish_rarity uid fid qty other rarity (db w)) as ->; [|lia].
      unfold value_of_change, fish_row_value. cbn [fish_id fish_user_id fish_quantity].
      destruct (fish (db w) !! fid) as [f|];
        cbn [fmap option_fmap option_map default from_option id].
      * destruct (decide (uid = other ∧ rarity_is fish_rarity rarity fid)) as [[-> Hr]|Hother].
        -- rewrite decide_True by done. lia.
        -- rewrite decide_False by (intros [-> Hr]; by apply Hother). lia.
      * destruct (decide (other = uid ∧ rarity_is fish_rarity rarity fid)); lia.
Qed.

(** Two more of fish 1, worth 10 each, for a user who holds five. *)
Lemma add_fish_to_inventory_adds_value_witness :
  match add_fish_to_inventory "alice" 1 2 (Sample.world 0 Sample.fish_db) with
  | (Val _, w') =>
      fish_keys_unique (db w')
      ∧ ∀ other rarity,
          fish_value_magnitude (λ _, 1) other rarity Sample.fish_db
          + Z.abs (value_of_change (λ _, 1) "alice" 1 2 other rarity Sample.fish_db) < 2 ^ 63 →
          fish_value_magnitude (λ _, 1) other rarity (db w') < 2 ^ 63
          ∧ fish_inventory_value (λ _, 1) other rarity (db w')
            = fish_inventory_value (λ _, 1) other rarity Sample.fish_db
              + value_of_change (λ _, 1) "alice" 1 2 other rarity Sample.fish_db
  | (Exn, w') => db w' = Sample.fish_db
  end.
Proof.
  apply (add_fish_to_inventory_adds_value (λ _, 1) "alice" 1 2 (Sample.world 0 Sample.fish_db)).
  - unfold fish_keys_unique. simpl. apply NoDup_cons. split; [|apply NoDup_singleton].
    intros Hin. apply list_elem_of_singleton in Hin. discriminate.
  - unfold sqlite_integer. lia.
  - intros ufi Hin _. simpl in Hin. unfold sqlite_integer.
    apply elem_of_cons in Hin as [->|Hin]; [simpl; lia|].
    apply elem_of_cons in Hin as [->|Hin]; [simpl; lia|].
    by apply elem_of_nil in Hin.
Defined.

Lemma fish_inventory_value_filter fish_rarity uid rarity
    (P : UserFishInventoryItem → Prop) `{!∀ ufi, Decision (P ufi)} rows d :
  (∀ ufi, ufi ∈ rows → ¬ P ufi → fish_row_value fish_rarity uid rarity d ufi = 0) →
  fish_inventory_value fish_rarity uid rarity (set_user_fish_inventory (filter P rows) d)
  = fish_inventory_value fish_rarity uid rarity (set_user_fish_inventory rows d).
Proof.
  induction rows as [|ufi rows IH]; intros Hdropped; [reflexivity|].
  rewrite fish_inventory_value_cons, <- IH
    by (intros x Hx; apply Hdropped; by apply list_elem_of_further).
  destruct (decide (P ufi)) as [Hp|Hp].
  - rewrite filter_cons_True by exact Hp. by rewrite fish_inventory_value_cons.
  - rewrite filter_cons_False by exact Hp.
    rewrite (Hdropped ufi (list_elem_of_here _ _) Hp). lia.
Qed.

Lemma fish_inventory_value_nothing fish_rarity uid rarity rows d :
  (∀ ufi, ufi ∈ rows → fish_row_value fish_rarity uid rarity d ufi = 0) →
  fish_inventory_value fish_rarity uid rarity (set_user_fish_inventory rows d) = 0.
Proof.
  induction rows as [|ufi rows IH]; intros Hrows; [reflexivity|].
  rewrite fish_inventory_value_cons, IH
    by (intros x Hx; apply Hrows; by apply list_elem_of_further).
  rewrite (Hrows ufi (list_elem_of_here _ _)). reflexivity.
Qed.

(** [clear_fish_inventory], when it returns: the value read for the user
    under the filter that was passed is 0; the value read for any other
    user, under any filter, is unchanged; and when a rarity was passed, the
    value read for the user under any other rarity is unchanged.  When it
    raises the database is as it was. *)
Theorem clear_fish_inventory_clears_what_it_is_asked
    fish_rarity (uid : string) (rarity : option Z) (w : World) :
  match clear_fish_inventory fish_rarity uid rarity w with
  | (Val _, w') =>
      fish_inventory_value fish_rarity uid rarity (db w') = 0
      ∧ (∀ other rarity', other ≠ uid →
           fish_inventory_value fish_rarity other rarity' (db w')
           = fish_inventory_value fish_rarity other rarity' (db w))
      ∧ (∀ r r', rarity = Some r → r' ≠ r →
           fish_inventory_value fish_rarity uid (Some r') (db w')
           = fish_inventory_value fish_rarity uid (Some r') (db w))
  | (Exn, w') => db w' = db w
  end.
Proof.
  unfold clear_fish_inventory. run_sql. split_faults; try reflexivity.
  unfold delete_fish.
  split; [|split].
  - apply fish_inventory_value_nothing. intros ufi Hin.
    apply list_elem_of_filter in Hin as [Hkept _].
    unfold fish_row_value. destruct (fish (db w) !! fish_id ufi) as [f|] eqn:Hf; [|reflexivity].
    rewrite decide_False; [reflexivity|]. intros [Hu Hr]. apply Hkept.
    split; [exact Hu|]. destruct rarity as [r|]; [|exact I].
    split; [by rewrite Hf | exact Hr].
  - intros other rarity' Hother.
    rewrite <- (set_user_fish_inventory_same (db w)) at 3.
    apply fish_inventory_value_filter. intros ufi _ Hgone.
    apply dec_stable in Hgone as [Hu _].
    unfold fish_row_value. destruct (fish (db w) !! fish_id ufi) as [f|]; [|reflexivity].
    rewrite decide_False; [reflexivity|]. intros [Hu' _]. congruence.
  - intros r r' -> Hr.
    rewrite <- (set_user_fish_inventory_same (db w)) at 3.
    apply fish_inventory_value_filter. intros ufi _ Hgone.
    apply dec_stable in Hgone as [_ [_ Hrarity]].
    unfold fish_row_value. destruct (fish (db w) !! fish_id ufi) as [f|]; [|reflexivity].
    rewrite decide_False; [reflexivity|]. intros [_ Hr']. cbn in Hr'. congruence.
Qed.

(** ** Bait quantities, by key *)

Lemma set_user_bait_inventory_same (d : Database) :
  set_user_bait_inventory (user_bait_inventory d) d = d.
Proof. by destruct d. Qed.

Lemma bait_held_cons u b r rows d :
  bait_held u b (set_user_bait_inventory (r :: rows) d)
  = if decide (is_bait_row u b r) then bait_quantity r
    else bait_held u b (set_user_bait_inventory rows d).
Proof.
  unfold bait_held, select_bait_quantity. cbn [user_bait_inventory set_user_bait_inventory].
  destruct (decide (is_bait_row u b r)) as [Hr|Hr].
  - by rewrite filter_cons_True.
  - by rewrite filter_cons_False.
Qed.

Lemma bait_held_no_row u b rows d :
  (u, b) ∉ (λ r, (bait_user_id r, bait_id r)) <$> rows →
  bait_held u b (set_user_bait_inventory rows d) = 0.
Proof.
  induction rows as [|r rows IH]; intros Hkey; [reflexivity|].
  rewrite fmap_cons in Hkey. apply not_elem_of_cons in Hkey as [Hr Hkey].
  rewrite bait_held_cons, decide_False; [by apply IH|].
  intros [Hu Hb]. apply Hr. by rewrite Hu, Hb.
Qed.

Lemma bait_keys_filter (P : UserBaitRow → Prop) `{!∀ r, Decision (P r)}
    (key : string * Z) (rows : list UserBaitRow) :
  key ∉ (λ r, (bait_user_id r, bait_id r)) <$> rows →
  key ∉ (λ r, (bait_user_id r, bait_id r)) <$> filter P rows.
Proof.
  intros Hkey Hin. apply Hkey.
  apply list_elem_of_fmap in Hin as (r & -> & Hin). apply list_elem_of_filter in Hin as [_ Hin].
  apply list_elem_of_fmap. by exists r.
Qed.

(** What deleting the empty rows of [uid] does to the quantity held. *)
Lemma delete_empty_baits_held uid u b rows d :
  NoDup ((λ r, (bait_user_id r, bait_id r)) <$> rows) →
  bait_held u b (delete_empty_baits uid (set_user_bait_inventory rows d))
  = if decide (u = uid) then Z.max 0 (bait_held u b (set_user_bait_inventory rows d))
    else bait_held u b (set_user_bait_inventory rows d).
Proof.
  unfold delete_empty_baits. cbn [user_bait_inventory set_user_bait_inventory].
  change (set_user_bait_inventory ?l (set_user_bait_inventory ?r d))
    with (set_user_bait_inventory l d).
  induction rows as [|r rows IH]; intros Hkeys.
  - by destruct (decide (u = uid)).
  - rewrite fmap_cons in Hkeys. apply NoDup_cons in Hkeys as [Hkey Hkeys].
    specialize (IH Hkeys). rewrite (bait_held_cons u b r rows).
    destruct (decide (bait_user_id r = uid ∧ bait_quantity r ≤ 0)) as [[Hu Hq]|Hkeep].
    + rewrite filter_cons_False by (intros H; by apply H).
      destruct (decide (is_bait_row u b r)) as [[Hu' Hb]|Hother]; [|exact IH].
      rewrite Hu', Hb in Hkey.
      rewrite bait_held_no_row by (by apply bait_keys_filter).
      rewrite decide_True by congruence. lia.
    + rewrite filter_cons_True by exact Hkeep. rewrite bait_held_cons.
      destruct (decide (is_bait_row u b r)) as [[Hu' Hb]|Hother]; [|exact IH].
      destruct (decide (u = uid)) as [->|Hu]; [|reflexivity].
      assert (0 < bait_quantity r) by (destruct (decide (bait_quantity r ≤ 0)); [tauto|lia]).
      lia.
Qed.

Lemma no_bait_row_not_in_keys uid bid (rows : list UserBaitRow) :
  (uid, bid) ∉ (λ r, (bait_user_id r, bait_id r)) <$> rows →
  ¬ Exists (is_bait_row uid bid) rows.
Proof.
  intros Hkey Hex. apply Exists_exists in Hex as (r & Hin & Hu & Hb). apply Hkey.
  apply list_elem_of_fmap. exists r. split; [by rewrite Hu, Hb | exact Hin].
Qed.

Lemma no_bait_row_in_keys uid bid (rows : list UserBaitRow) :
  ¬ Exists (is_bait_row uid bid) rows →
  (uid, bid) ∉ (λ r, (bait_user_id r, bait_id r)) <$> rows.
Proof.
  intros Hno Hin. apply Hno. apply list_elem_of_fmap in Hin as (r & Heq & Hin).
  apply Exists_exists. exists r. split; [exact Hin|]. injection Heq as -> ->. by split.
Qed.

Lemma fmap_no_bait_row uid bid (change : UserBaitRow → UserBaitRow) (rows : list UserBaitRow) :
  ¬ Exists (is_bait_row uid bid) rows →
  (λ r, if decide (is_bait_row uid bid r) then change r else r) <$> rows = rows.
Proof.
  intros Hno. induction rows as [|r rows IH]; [reflexivity|].
  rewrite fmap_cons, IH by (intros H; apply Hno; by apply Exists_cons_tl).
  rewrite decide_False; [reflexivity|]. intros H. apply Hno. by apply Exists_cons_hd.
Qed.

(** Changing the quantity of the rows of a key keeps the keys. *)
Lemma bait_keys_fmap uid bid (change : Z → Z) (rows : list UserBaitRow) :
  (λ r, (bait_user_id r, bait_id r))
    <$> ((λ r, if decide (is_bait_row uid bid r)
               then with_bait_quantity (change (bait_quantity r)) r else r) <$> rows)
  = (λ r, (bait_user_id r, bait_id r)) <$> rows.
Proof.
  rewrite <- list_fmap_compose. apply list_fmap_ext. intros _ r _. cbn.
  by destruct (decide (is_bait_row uid bid r)).
Qed.

(** What changing the quantity of the row of a key does to the quantity
    held, in a table with a row of that key. *)
Lemma change_bait_row_held uid bid (change : Z → Z) u b rows d :
  NoDup ((λ r, (bait_user_id r, bait_id r)) <$> rows) →
  Exists (is_bait_row uid bid) rows →
  bait_held u b (set_user_bait_inventory
                   ((λ r, if decide (is_bait_row uid bid r)
                          then with_bait_quantity (change (bait_quantity r)) r else r)
                      <$> rows) d)
  = if decide (u = uid ∧ b = bid)
    then change (bait_held u b (set_user_bait_inventory rows d))
    else bait_held u b (set_user_bait_inventory rows d).
Proof.
  induction rows as [|r rows IH]; intros Hkeys Hex; [by apply Exists_nil in Hex|].
  rewrite fmap_cons in Hkeys. apply NoDup_cons in Hkeys as [Hkey Hkeys].
  rewrite fmap_cons, !bait_held_cons.
  destruct (decide (is_bait_row uid bid r)) as [[Hu Hb]|Hno].
  - rewrite Hu, Hb in Hkey.
    rewrite (fmap_no_bait_row uid bid) by (by apply no_bait_row_not_in_keys).
    destruct (decide (u = uid ∧ b = bid)) as [[-> ->]|Hother].
    + rewrite !decide_True by (by split). reflexivity.
    + rewrite !decide_False by (intros [Hu' Hb']; apply Hother; cbn in *; split; congruence).
      reflexivity.
  - apply Exists_cons in Hex as [Hhere|Hex]; [contradiction|].
    rewrite (IH Hkeys Hex).
    destruct (decide (is_bait_row u b r)) as [[Hu Hb]|Hother]; [|reflexivity].
    rewrite decide_False; [reflexivity|]. intros [-> ->]. by apply Hno.
Qed.

Lemma bait_held_app_new u b uid bid q rows d :
  bait_held u b (set_user_bait_inventory
                   (rows ++ [{| bait_user_id := uid; bait_id := bid; bait_quantity := q |}]) d)
  = if decide (Exists (is_bait_row u b) rows)
    then bait_held u b (set_user_bait_inventory rows d)
    else if decide (u = uid ∧ b = bid) then q else 0.
Proof.
  induction rows as [|r rows IH].
  - rewrite decide_False by (intros H; by apply Exists_nil in H).
    cbn [app]. rewrite bait_held_cons. unfold is_bait_row. cbn.
    destruct (decide (uid = u ∧ bid = b)) as [[-> ->]|Hother].
    + by rewrite decide_True.
    + rewrite decide_False by (intros [-> ->]; by apply Hother). reflexivity.
  - rewrite <- app_comm_cons, !bait_held_cons.
    destruct (decide (is_bait_row u b r)) as [Hr|Hr].
    + rewrite decide_True by (by apply Exists_cons_hd). reflexivity.
    + rewrite IH. destruct (decide (Exists (is_bait_row u b) rows)) as [Hex|Hno].
      * rewrite decide_True by (by apply Exists_cons_tl). reflexivity.
      * rewrite (decide_False (P := Exists _ (r :: rows))); [reflexivity|].
        intros H. apply Exists_cons in H as [H|H]; contradiction.
Qed.

Lemma bait_held_none u b d :
  ¬ Exists (is_bait_row u b) (user_bait_inventory d) → bait_held u b d = 0.
Proof.
  intros Hno. rewrite <- (set_user_bait_inventory_same d).
  apply bait_held_no_row. by apply no_bait_row_in_keys.
Qed.

(** What the upsert of [update_bait_quantity] does to the quantity held. *)
Lemma upsert_bait_held uid bid delta u b d :
  bait_keys_unique d →
  bait_keys_unique (upsert_bait uid bid delta d)
  ∧ bait_held u b (upsert_bait uid bid delta d)
    = if decide (u = uid ∧ b = bid) then Z.max 0 (bait_held u b d + delta)
      else bait_held u b d.
Proof.
  unfold bait_keys_unique, upsert_bait. intros Hkeys.
  cbn [user_bait_inventory set_user_bait_inventory].
  destruct (decide (Exists (is_bait_row uid bid) (user_bait_inventory d))) as [Hex|Hno].
  - split.
    + by rewrite (bait_keys_fmap uid bid (λ q, Z.max 0 (q + delta))).
    + rewrite (change_bait_row_held uid bid (λ q, Z.max 0 (q + delta)) u b _ d Hkeys Hex).
      by rewrite set_user_bait_inventory_same.
  - split.
    + rewrite fmap_app. apply NoDup_app. split; [exact Hkeys|]. split; [|apply NoDup_singleton].
      intros key Hin Hnew. apply list_elem_of_singleton in Hnew as ->.
      by apply (no_bait_row_in_keys uid bid) in Hno.
    + rewrite bait_held_app_new, set_user_bait_inventory_same.
      destruct (decide (u = uid ∧ b = bid)) as [[-> ->]|Hother].
      * rewrite decide_False by exact Hno. by rewrite (bait_held_none uid bid d Hno).
      * destruct (decide (Exists (is_bait_row u b) (user_bait_inventory d))) as [Hex|Hnone];
          [reflexivity|].
        by rewrite (bait_held_none u b d Hnone).
Qed.

Lemma delete_empty_baits_keys uid d :
  bait_keys_unique d → bait_keys_unique (delete_empty_baits uid d).
Proof.
  unfold bait_keys_unique, delete_empty_baits. cbn [user_bait_inventory set_user_bait_inventory].
  induction (user_bait_inventory d) as [|r rows IH]; intros Hkeys; [exact Hkeys|].
  rewrite fmap_cons in Hkeys. apply NoDup_cons in Hkeys as [Hkey Hkeys].
  destruct (decide (¬ (bait_user_id r = uid ∧ bait_quantity r ≤ 0))) as [Hkeep|Hgone].
  - rewrite filter_cons_True by exact Hkeep. rewrite fmap_cons. apply NoDup_cons.
    split; [by apply bait_keys_filter | by apply IH].
  - rewrite filter_cons_False by exact Hgone. by apply IH.
Qed.

(** [update_bait_quantity] as its users see it, on a table whose key
    [(user_id, bait_id)] is unique.  When it returns, the key is still
    unique; the quantity the user holds of the bait passed is the old one
    plus [delta], or 0 if that is negative; every other quantity the user
    held is as before (0 if it was negative); what other users hold is
    untouched.  When it raises the database is as it was.  The quantity
    passed and the sum that the statement computes are 64-bit integers,
    as SQLite needs them to be for the sum to be the exact one. *)
Theorem update_bait_quantity_sets_quantity_held (uid : string) (bid delta : Z) (w : World) :
  bait_keys_unique (db w) →
  sqlite_integer delta →
  sqlite_integer (bait_held uid bid (db w) + delta) →
  match update_bait_quantity uid bid delta w with
  | (Val _, w') =>
      bait_keys_unique (db w')
      ∧ ∀ u b,
          bait_held u b (db w')
          = if decide (u = uid)
            then Z.max 0 (bait_held u b (db w) + if decide (b = bid) then delta else 0)
            else bait_held u b (db w)
  | (Exn, w') => db w' = db w
  end.
Proof.
  intros Hkeys _ _. unfold update_bait_quantity. run_sql. split_faults; try reflexivity.
  split.
  - apply delete_empty_baits_keys. by apply (upsert_bait_held uid bid delta uid bid).
  - intros u b.
    destruct (upsert_bait_held uid bid delta u b (db w) Hkeys) as [Hkeys' Hheld].
    rewrite <- (set_user_bait_inventory_same (upsert_bait uid bid delta (db w))).
    rewrite delete_empty_baits_held by exact Hkeys'.
    rewrite set_user_bait_inventory_same, Hheld.
    destruct (decide (u = uid)) as [->|Hu].
    + destruct (decide (b = bid)) as [->|Hb].
      * rewrite decide_True by done. lia.
      * rewrite decide_False by tauto. f_equal; lia.
    + rewrite decide_False by tauto. reflexivity.
Qed.

(** Two worms less for a user who holds five. *)
Lemma update_bait_quantity_sets_quantity_held_witness :
  match update_bait_quantity "alice" 7 (-2) (Sample.world 0 Sample.bait_db) with
  | (Val _, w') =>
      bait_keys_unique (db w')
      ∧ ∀ u b,
          bait_held u b (db w')
          = if decide (u = "alice")
            then Z.max 0 (bait_held u b Sample.bait_db + if decide (b = 7) then -2 else 0)
            else bait_held u b Sample.bait_db
  | (Exn, w') => db w' = Sample.bait_db
  end.
Proof.
  apply (update_bait_quantity_sets_quantity_held "alice" 7 (-2) (Sample.world 0 Sample.bait_db)).
  - unfold bait_keys_unique. simpl. apply NoDup_singleton.
  - unfold sqlite_integer. lia.
  - vm_compute. split; [discriminate | reflexivity].
Defined.

Lemma select_bait_quantity_some uid bid d current :
  select_bait_quantity uid bid d = Some current →
  Exists (is_bait_row uid bid) (user_bait_inventory d) ∧ bait_held uid bid d = current.
Proof.
  unfold bait_held. intros Hsel. rewrite Hsel. split; [|reflexivity].
  unfold select_bait_quantity in Hsel.
  destruct (filter (is_bait_row uid bid) (user_bait_inventory d)) as [|r rest] eqn:Hrows;
    [discriminate|].
  assert (r ∈ filter (is_bait_row uid bid) (user_bait_inventory d)) as Hin
    by (rewrite Hrows; apply list_elem_of_here).
  apply list_elem_of_filter in Hin as [Hr Hin]. apply Exists_exists. by exists r.
Qed.

Lemma select_bait_quantity_none uid bid d :
  select_bait_quantity uid bid d = None →
  ¬ Exists (is_bait_row uid bid) (user_bait_inventory d).
Proof.
  unfold select_bait_quantity. intros Hsel Hex.
  apply Exists_exists in Hex as (r & Hin & Hr).
  assert (r ∈ filter (is_bait_row uid bid) (user_bait_inventory d)) as Hfil
    by (by apply list_elem_of_filter).
  destruct (filter (is_bait_row uid bid) (user_bait_inventory d)); [|discriminate].
  by apply elem_of_nil in Hfil.
Qed.

(** [set_bait_quantity] sets what is held of the key, if the key has a
    row; no uniqueness of the key is needed. *)
Lemma set_bait_quantity_held uid bid q u b rows d :
  bait_held u b (set_bait_quantity uid bid q (set_user_bait_inventory rows d))
  = if decide ((u = uid ∧ b = bid) ∧ Exists (is_bait_row uid bid) rows) then q
    else bait_held u b (set_user_bait_inventory rows d).
Proof.
  unfold set_bait_quantity. cbn [user_bait_inventory set_user_bait_inventory].
  change (set_user_bait_inventory ?l (set_user_bait_inventory ?r d))
    with (set_user_bait_inventory l d).
  induction rows as [|r rows IH].
  - rewrite decide_False; [reflexivity|]. intros [_ H]. by apply Exists_nil in H.
  - rewrite fmap_cons, !bait_held_cons, IH.
    destruct (decide (is_bait_row uid bid r)) as [[Hu Hb]|Hno].
    + destruct (decide (u = uid ∧ b = bid)) as [[-> ->]|Hother].
      * rewrite decide_True by (by split).
        rewrite decide_True by (split; [done | by apply Exists_cons_hd]). reflexivity.
      * rewrite !decide_False by (intros [Hu' Hb']; apply Hother; cbn in *; split; congruence).
        rewrite ?decide_False by tauto. reflexivity.
    + destruct (decide (is_bait_row u b r)) as [[Hu Hb]|Hother].
      * rewrite decide_False; [reflexivity|]. intros [[-> ->] _]. by apply Hno.
      * destruct (decide ((u = uid ∧ b = bid) ∧ Exists (is_bait_row uid bid) rows))
          as [[Hkey Hex]|Hnone].
        -- rewrite decide_True by (split; [done | by apply Exists_cons_tl]). reflexivity.
        -- rewrite decide_False; [reflexivity|]. intros [Hkey Hex]. apply Hnone.
           split; [done|]. apply Exists_cons in Hex as [H|H]; [contradiction|exact H].
Qed.

(** One iteration of the loop of [batch_update_bait_quantities], as the
    users see it. *)
Lemma batch_update_one_held (uid : string) (update : Z * Z) (w : World) :
  match batch_update_one uid update w with
  | (Val _, w') =>
      ∀ u b, bait_held u b (db w')
             = if decide (u = uid) then held_after_update b (bait_held u b (db w)) update
               else bait_held u b (db w)
  | (Exn, w') => db w' = db w
  end.
Proof.
  destruct update as [bid delta]. unfold batch_update_one, held_after_update. cbn [fst snd].
  destruct (decide (delta = 0)) as [->|Hdelta].
  - intros u b. destruct (decide (u = uid)); [|reflexivity].
    rewrite decide_False; [reflexivity|]. intros [_ H]. by apply H.
  - run_sql. destruct (fault w (stmt w)); simpl; [reflexivity|].
    destruct (select_bait_quantity uid bid (db w)) as [current|] eqn:Hsel; simpl.
    + apply select_bait_quantity_some in Hsel as [Hex Hheld].
      destruct (fault w (S (stmt w))); simpl; [reflexivity|].
      intros u b. rewrite <- (set_user_bait_inventory_same (db w)) at 1.
      rewrite set_bait_quantity_held, set_user_bait_inventory_same.
      destruct (decide (u = uid)) as [->|Hu].
      * destruct (decide (b = bid)) as [->|Hb].
        -- rewrite !decide_True by done. by rewrite Hheld.
        -- rewrite !decide_False by tauto. reflexivity.
      * rewrite decide_False by tauto. reflexivity.
    + apply select_bait_quantity_none in Hsel.
      destruct (decide (0 < delta)) as [Hpos|Hneg].
      * cbv beta delta [bind]. simpl.
        destruct (fault w (S (stmt w))); simpl; [reflexivity|].
        intros u b. unfold insert_bait. rewrite bait_held_app_new.
        rewrite set_user_bait_inventory_same.
        destruct (decide (Exists (is_bait_row u b) (user_bait_inventory (db w)))) as [Hex|Hno].
        -- destruct (decide (u = uid)) as [->|Hu]; [|reflexivity].
           rewrite decide_False; [reflexivity|]. intros [-> _]. contradiction.
        -- rewrite (bait_held_none u b (db w) Hno).
           destruct (decide (u = uid)) as [->|Hu].
           ++ destruct (decide (b = bid)) as [->|Hb].
              ** rewrite !decide_True by done. lia.
              ** rewrite !decide_False by tauto. reflexivity.
           ++ rewrite decide_False by tauto. reflexivity.
      * intros u b. destruct (decide (u = uid)) as [->|Hu]; [|reflexivity].
        destruct (decide (b = bid ∧ delta ≠ 0)) as [[-> _]|Hb]; [|reflexivity].
        change (db (set_stmt (S (stmt w)) w)) with (db w).
        rewrite (bait_held_none uid bid (db w) Hsel). lia.
Qed.

Lemma batch_update_loop_held (uid : string) (bait_updates : list (Z * Z)) :
  ∀ w,
    match for_each bait_updates (batch_update_one uid) w with
    | (Val _, w') =>
        ∀ u b, bait_held u b (db w')
               = if decide (u = uid)
                 then foldl (held_after_update b) (bait_held u b (db w)) bait_updates
                 else bait_held u b (db w)
    | (Exn, _) => True
    end.
Proof.
  induction bait_updates as [|update rest IH]; intros w.
  - intros u b. by destruct (decide (u = uid)).
  - cbn [for_each]. unfold bind at 1.
    pose proof (batch_update_one_held uid update w) as Hone.
    destruct (batch_update_one uid update w) as [[[]|] w1]; [|exact I].
    specialize (IH w1). destruct (for_each rest (batch_update_one uid) w1) as [[[]|] w2];
      [|exact I].
    intros u b. rewrite IH, Hone. cbn [foldl].
    by destruct (decide (u = uid)).
Qed.

(** [batch_update_bait_quantities] as its users see it, on any table.
    When it returns, the quantity the user holds of a bait is the old one
    with the updates of that bait applied one after the other, each adding
    its delta and stopping at 0 (an update by 0 is skipped); what other
    users hold is untouched.  When it raises the database is as it was. *)
Theorem batch_update_bait_quantities_sets_quantities_held
    (uid : string) (bait_updates : list (Z * Z)) (w : World) :
  match batch_update_bait_quantities uid bait_updates w with
  | (Val _, w') =>
      ∀ u b, bait_held u b (db w')
             = if decide (u = uid)
               then foldl (held_after_update b) (bait_held u b (db w)) bait_updates
               else bait_held u b (db w)
  | (Exn, w') => db w' = db w
  end.
Proof.
  unfold batch_update_bait_quantities.
  destruct bait_updates as [|update rest];
    [intros u b; by destruct (decide (u = uid))|].
  set (updates := update :: rest). clearbody updates.
  cbv beta delta [transaction try_except bind execute rollback_to modify gets ret raise].
  simpl. destruct (fault w (stmt w)); simpl; [reflexivity|].
  pose proof (batch_update_loop_held uid updates (set_stmt (S (stmt w)) w)) as Hloop.
  destruct (for_each updates (batch_update_one uid) (set_stmt (S (stmt w)) w))
    as [[[]|] w1]; simpl in *; [|reflexivity].
  destruct (fault w1 (stmt w1)); simpl; [reflexivity | exact Hloop].
Qed.

(** Nine worms less for a user who holds five. *)
Lemma batch_update_bait_quantities_not_negative_witness :
  quantities_not_negative
    (db (batch_update_bait_quantities "alice" [(7, -9)] (Sample.world 0 Sample.bait_db)).2).
Proof.
  apply (batch_update_bait_quantities_not_negative "alice" [(7, -9)]
           (Sample.world 0 Sample.bait_db)).
  unfold quantities_not_negative. simpl. apply Forall_singleton. simpl. lia.
Defined.

(** ** Rod instances *)

Lemma set_user_rods_same (d : Database) : set_user_rods (user_rods d) (rod_seq d) d = d.
Proof. by destruct d. Qed.

Lemma set_user_rods_twice rows1 seq1 rows2 seq2 d :
  set_user_rods rows2 seq2 (set_user_rods rows1 seq1 d) = set_user_rods rows2 seq2 d.
Proof. reflexivity. Qed.

(** [add_rod_instance] inserts the row it returns, under the next row id. *)
Lemma add_rod_instance_run uid rid durability refine_level w :
  match add_rod_instance uid rid durability refine_level w with
  | (Val instance, w') =>
      instance = new_rod (rod_seq (db w) + 1) uid rid durability refine_level
      ∧ db w' = set_user_rods (user_rods (db w) ++ [instance]) (rod_seq (db w) + 1) (db w)
  | (Exn, w') => db w' = db w
  end.
Proof.
  unfold add_rod_instance. run_sql. split_faults; try reflexivity.
  unfold insert_rods. cbn. rewrite Z.add_0_r. split; reflexivity.
Qed.

Lemma rods_added_none uid asked d : rods_added uid asked [] d d.
Proof.
  exists []. rewrite app_nil_r. cbn. rewrite Z.add_0_r, set_user_rods_same.
  repeat split; [constructor | apply sublist_nil_l].
Qed.

Lemma rods_added_skip uid asked data inserted d d' :
  rods_added uid asked inserted d d' → rods_added uid (data :: asked) inserted d d'.
Proof.
  intros (new_rows & Hdb & Hids & Hins & Hrows & Hsub). exists new_rows.
  repeat split; try assumption. by apply sublist_cons.
Qed.

Lemma rods_added_one uid rid durability asked inserted d d' :
  rods_added uid asked inserted
    (set_user_rods (user_rods d ++ [new_rod (rod_seq d + 1) uid rid durability 1])
                   (rod_seq d + 1) d) d' →
  rods_added uid ((rid, durability) :: asked)
    (InsertedInstance (new_rod (rod_seq d + 1) uid rid durability 1) :: inserted) d d'.
Proof.
  intros (new_rows & Hdb & Hids & Hins & Hrows & Hsub).
  cbn [user_rods rod_seq set_user_rods] in *.
  exists (new_rod (rod_seq d + 1) uid rid durability 1 :: new_rows). repeat split.
  - rewrite Hdb, set_user_rods_twice, <- app_assoc. cbn [length app].
    f_equal. lia.
  - cbn [length fmap list_fmap]. rewrite Nat2Z.inj_succ, seqZ_cons by lia.
    cbn [rod_instance_id new_rod]. f_equal. rewrite Hids. f_equal; lia.
  - cbn. by rewrite Hins.
  - apply Forall_cons. split; [done | exact Hrows].
  - cbn. by apply sublist_skip.
Qed.

(** The fallback never raises: a rod whose insert raises is skipped. *)
Lemma fallback_add_rod_instances_adds uid (rod_data_list : list (Z * option Z)) :
  ∀ w, ∃ inserted w',
    _fallback_add_rod_instances uid rod_data_list w = (Val inserted, w')
    ∧ rods_added uid rod_data_list inserted (db w) (db w').
Proof.
  induction rod_data_list as [|[rid durability] rest IH]; intros w.
  - exists [], w. split; [reflexivity | apply rods_added_none].
  - cbn [_fallback_add_rod_instances]. unfold bind at 1, try_except, bind at 1.
    pose proof (add_rod_instance_run uid rid durability 1 w) as Hadd.
    destruct (add_rod_instance uid rid durability 1 w) as [[instance|] w1].
    + destruct Hadd as [-> Hdb]. unfold ret at 1.
      destruct (IH w1) as (others & w2 & Hrest & Hadded).
      unfold bind. rewrite Hrest. eexists _, w2. split; [reflexivity|].
      cbn [app]. apply rods_added_one. by rewrite <- Hdb.
    + unfold ret at 1. destruct (IH w1) as (others & w2 & Hrest & Hadded).
      unfold bind. rewrite Hrest. eexists _, w2. split; [reflexivity|].
      cbn [app]. apply rods_added_skip. by rewrite <- Hadd.
Qed.

Lemma imap_new_rod_ids uid refine_level (rod_data_list : list (Z * option Z)) (start : Z) :
  rod_instance_id
    <$> imap (λ i '(rid, durability),
                new_rod (start + Z.of_nat i) uid rid durability refine_level) rod_data_list
  = seqZ start (Z.of_nat (length rod_data_list)).
Proof.
  revert start. induction rod_data_list as [|[rid durability] rest IH]; intros start;
    [reflexivity|].
  cbn [imap length fmap list_fmap]. rewrite Nat2Z.inj_succ, seqZ_cons by lia.
  cbn [rod_instance_id new_rod]. rewrite Z.add_0_r. f_equal.
  rewrite Z.pred_succ, <- (IH (Z.succ start)). f_equal.
  apply imap_ext. intros i [rid' durability'] _. cbn. f_equal. lia.
Qed.

Lemma imap_new_rod_data uid refine_level (rod_data_list : list (Z * option Z)) (start : Z) :
  (λ r, (rod_id r, current_durability r))
    <$> imap (λ i '(rid, durability),
                new_rod (start + Z.of_nat i) uid rid durability refine_level) rod_data_list
  = rod_data_list.
Proof.
  revert start. induction rod_data_list as [|[rid durability] rest IH]; intros start;
    [reflexivity|].
  cbn [imap fmap list_fmap]. cbn [rod_id current_durability new_rod]. f_equal.
  rewrite <- (IH (Z.succ start)) at 2. f_equal.
  apply imap_ext. intros i [rid' durability'] _. cbn. f_equal. lia.
Qed.

(** The batch insert adds a row for every rod asked for. *)
Lemma batch_insert_rod_instances_adds uid (rod_data_list : list (Z * option Z)) w :
  match _batch_insert_rod_instances uid rod_data_list w with
  | (Val inserted, w') => rods_added uid rod_data_list inserted (db w) (db w')
  | (Exn, w') => db w' = db w
  end.
Proof.
  unfold _batch_insert_rod_instances. run_sql. split_faults; try reflexivity.
  unfold insert_rods.
  exists (imap (λ i '(rid, durability),
                  new_rod (rod_seq (db w) + 1 + Z.of_nat i) uid rid durability 1)
               rod_data_list).
  rewrite length_imap, imap_new_rod_ids, imap_new_rod_data. repeat split.
  - rewrite <- list_fmap_compose.
    replace (rod_seq (db w) + Z.of_nat (length rod_data_list)
             - Z.of_nat (length rod_data_list) + 1)
      with (rod_seq (db w) + 1) by lia.
    erewrite list_fmap_ext; [rewrite list_fmap_id; f_equal; lia|]. done.
  - apply Forall_forall. intros r Hr.
    apply elem_of_lookup_imap_1 in Hr as (i & [rid dur] & -> & _). done.
  - reflexivity.
Qed.

(** Rows added under the next row ids keep the row ids unique. *)
Lemma rods_added_fresh uid asked inserted d d' :
  rod_ids_fresh d → rods_added uid asked inserted d d' → rod_ids_fresh d'.
Proof.
  intros [Hnodup Hbound] (new_rows & -> & Hids & _). unfold rod_ids_fresh.
  cbn [user_rods rod_seq set_user_rods].
  assert (∀ id, id ∈ rod_instance_id <$> new_rows →
                rod_seq d < id ≤ rod_seq d + Z.of_nat (length new_rows)) as Hnew.
  { intros id Hid. rewrite Hids in Hid. apply elem_of_seqZ in Hid. lia. }
  split.
  - rewrite fmap_app. apply NoDup_app. split; [exact Hnodup|]. split.
    + intros id Hold Hid. apply Hnew in Hid.
      apply list_elem_of_fmap in Hold as (r & -> & Hr).
      rewrite Forall_forall in Hbound. specialize (Hbound r Hr). lia.
    + rewrite Hids. apply NoDup_seqZ.
  - apply Forall_app. split.
    + eapply Forall_impl; [exact Hbound|]. intros r Hr. cbn in Hr. lia.
    + apply Forall_forall. intros r Hr.
      assert (rod_instance_id r ∈ rod_instance_id <$> new_rows) as Hid
        by (apply list_elem_of_fmap; by exists r).
      apply Hnew in Hid. lia.
Qed.

Lemma insert_rods_nil uid refine_level d : insert_rods uid refine_level [] d = d.
Proof.
  unfold insert_rods. cbn. rewrite app_nil_r, Z.add_0_r. apply set_user_rods_same.
Qed.

(** Inserting the rods one statement at a time gives the table of the
    single insert. *)
Lemma insert_rods_cons uid refine_level data rest d :
  insert_rods uid refine_level rest (insert_rods uid refine_level [data] d)
  = insert_rods uid refine_level (data :: rest) d.
Proof.
  unfold insert_rods. cbn [user_rods rod_seq set_user_rods length imap].
  rewrite set_user_rods_twice, <- app_assoc. f_equal.
  - f_equal. destruct data as [rid durability]. cbn [app]. f_equal.
    apply imap_ext. intros i [rid' durability'] _. cbn. f_equal. lia.
  - cbn [length]. lia.
Qed.

(** When no statement raises, the fallback inserts every rod. *)
Lemma fallback_add_rod_instances_all uid (rod_data_list : list (Z * option Z)) :
  ∀ w, (∀ n, (stmt w ≤ n)%nat → fault w n = false) →
       ∃ inserted w',
         _fallback_add_rod_instances uid rod_data_list w = (Val inserted, w')
         ∧ db w' = insert_rods uid 1 rod_data_list (db w).
Proof.
  induction rod_data_list as [|[rid durability] rest IH]; intros w Hquiet.
  - exists [], w. split; [reflexivity | by rewrite insert_rods_nil].
  - cbn [_fallback_add_rod_instances]. unfold bind at 1, try_except, bind at 1.
    unfold add_rod_instance. run_sql.
    rewrite (Hquiet (stmt w)) by lia. simpl.
    rewrite (Hquiet (S (stmt w))) by lia. simpl.
    match goal with
    | |- context [_fallback_add_rod_instances uid rest ?w1] =>
        destruct (IH w1) as (others & w2 & Hrest & Hdb);
          [intros n Hn; apply Hquiet; simpl in Hn; lia|]
    end.
    rewrite Hrest. eexists _, w2. split; [reflexivity|].
    rewrite Hdb. simpl. apply insert_rods_cons.
Qed.

(** When its three statements return, the batch insert is the single
    insert of all the rods; when the first one raises, nothing was done and
    one statement was issued. *)
Lemma batch_insert_rod_instances_all uid (rod_data_list : list (Z * option Z)) w :
  (∀ n, (stmt w ≤ n < stmt w + 3)%nat → fault w n = false) →
  ∃ inserted w',
    _batch_insert_rod_instances uid rod_data_list w = (Val inserted, w')
    ∧ db w' = insert_rods uid 1 rod_data_list (db w).
Proof.
  intros Hquiet. unfold _batch_insert_rod_instances. run_sql.
  rewrite (Hquiet (stmt w)) by lia. simpl.
  rewrite (Hquiet (S (stmt w))) by lia. simpl.
  rewrite (Hquiet (S (S (stmt w)))) by lia. simpl.
  by eexists _, _.
Qed.

Lemma batch_insert_rod_instances_first_raises uid (rod_data_list : list (Z * option Z)) w :
  fault w (stmt w) = true →
  _batch_insert_rod_instances uid rod_data_list w = (Exn, set_stmt (S (stmt w)) w).
Proof.
  intros Hfault. unfold _batch_insert_rod_instances. run_sql. rewrite Hfault. simpl.
  by destruct w.
Qed.

(** [batch_add_rod_instances] never raises, whatever statements fail, and
    what it returns accounts for the rows it has added: they come after the
    rows that were there, under the next row ids, one for each entry of the
    list returned and in the same order; each belongs to the user, is not
    equipped, has refine level 1, and is one of the rods asked for, in the
    order they were asked.  Nothing else in the database changes, and row
    ids that were unique are still unique.  Every rod asked for is added,
    the table being that of one insert of them all, when the three
    statements of the batch insert return, and also when only the first of
    them fails and no statement of the fallback does. *)
Theorem batch_add_rod_instances_accounts_for_rows_added
    (uid : string) (rod_data_list : list (Z * option Z)) (w : World) :
  ∃ inserted w',
    batch_add_rod_instances uid rod_data_list w = (Val inserted, w')
    ∧ rods_added uid rod_data_list inserted (db w) (db w')
    ∧ (rod_ids_fresh (db w) → rod_ids_fresh (db w'))
    ∧ ((∀ n, (stmt w ≤ n < stmt w + 3)%nat → fault w n = false) →
       db w' = insert_rods uid 1 rod_data_list (db w))
    ∧ ((∀ n, (stmt w < n)%nat → fault w n = false) →
       db w' = insert_rods uid 1 rod_data_list (db w)).
Proof.
  assert (∃ inserted w',
             batch_add_rod_instances uid rod_data_list w = (Val inserted, w')
             ∧ rods_added uid rod_data_list inserted (db w) (db w')
             ∧ ((∀ n, (stmt w ≤ n < stmt w + 3)%nat → fault w n = false) →
                db w' = insert_rods uid 1 rod_data_list (db w))
             ∧ ((∀ n, (stmt w < n)%nat → fault w n = false) →
                db w' = insert_rods uid 1 rod_data_list (db w)))
    as (inserted & w' & Hrun & Hadded & Hbatch & Hall).
  { unfold batch_add_rod_instances. destruct rod_data_list as [|data rest].
    - exists [], w. split; [reflexivity|]. split; [apply rods_added_none|].
      split; intros _; by rewrite insert_rods_nil.
    - set (asked := data :: rest). clearbody asked. unfold try_except.
      destruct (fault w (stmt w)) eqn:Hfirst.
      + rewrite (batch_insert_rod_instances_first_raises uid asked w Hfirst).
        destruct (fallback_add_rod_instances_adds uid asked (set_stmt (S (stmt w)) w))
          as (inserted & w2 & Hrun & Hadded).
        exists inserted, w2. split; [exact Hrun|]. split; [exact Hadded|]. split.
        * intros Hquiet. rewrite (Hquiet (stmt w)) in Hfirst by lia. discriminate.
        * intros Hquiet.
          destruct (fallback_add_rod_instances_all uid asked (set_stmt (S (stmt w)) w))
            as (inserted' & w2' & Hrun' & Hdb);
            [intros n Hn; apply Hquiet; simpl in Hn; lia|].
          rewrite Hrun in Hrun'. injection Hrun' as _ <-. exact Hdb.
      + pose proof (batch_insert_rod_instances_adds uid asked w) as Hadds.
        assert ((∀ n, (stmt w ≤ n < stmt w + 3)%nat → fault w n = false) →
                ∃ inserted w', _batch_insert_rod_instances uid asked w = (Val inserted, w')
                               ∧ db w' = insert_rods uid 1 asked (db w)) as Hquiet3
          by apply batch_insert_rod_instances_all.
        destruct (_batch_insert_rod_instances uid asked w) as [[inserted|] w1].
        * exists inserted, w1. split; [reflexivity|]. split; [exact Hadds|].
          assert ((∀ n, (stmt w ≤ n < stmt w + 3)%nat → fault w n = false) →
                  db w1 = insert_rods uid 1 asked (db w)) as Hdb.
          { intros Hquiet. destruct (Hquiet3 Hquiet) as (i & w1' & [= _ <-] & Hdb).
            exact Hdb. }
          split; [exact Hdb|]. intros Hquiet. apply Hdb. intros n Hn.
          destruct (decide (n = stmt w)) as [->|Hne]; [exact Hfirst | apply Hquiet; lia].
        * destruct (fallback_add_rod_instances_adds uid asked w1)
            as (inserted & w2 & Hrun & Hadded).
          exists inserted, w2. split; [exact Hrun|]. split; [by rewrite <- Hadds|].
          assert (∀ P : Prop, (∀ n, (stmt w ≤ n < stmt w + 3)%nat → fault w n = false) → P)
            as Hnever.
          { intros P Hquiet. destruct (Hquiet3 Hquiet) as (i & w1' & Hval & _).
            discriminate. }
          split; [apply Hnever|]. intros Hquiet. apply Hnever. intros n Hn.
          destruct (decide (n = stmt w)) as [->|Hne]; [exact Hfirst | apply Hquiet; lia]. }
  exists inserted, w'. split; [exact Hrun|]. split; [exact Hadded|].
  split; [|by split]. intros Hfresh. by eapply rods_added_fresh.
Qed.

(** Two rods asked for on an empty table.  With no failure the batch
    insert adds both and returns their row ids; when the first statement
    fails the fallback adds both and returns the instances; when the next
    statement fails too, the first rod is skipped and the second one is
    added, under row id 1. *)
Example batch_add_rod_instances_three_runs :
  let run bad := batch_add_rod_instances "alice" [(1, Some 100); (2, None)]
                   (Sample.failing_at bad (Sample.world 0 Sample.empty_db)) in
  (run []).1 = Val [InsertedId 1; InsertedId 2]
  ∧ (rod_id <$> user_rods (db (run []).2)) = [1; 2]
  ∧ (run [0%nat]).1 = Val [InsertedInstance (new_rod 1 "alice" 1 (Some 100) 1);
                           InsertedInstance (new_rod 2 "alice" 2 None 1)]
  ∧ db (run [0%nat]).2 = db (run []).2
  ∧ (run [0%nat; 1%nat]).1 = Val [InsertedInstance (new_rod 1 "alice" 2 None 1)]
  ∧ (rod_id <$> user_rods (db (run [0%nat; 1%nat]).2)) = [2].
Proof. vm_compute. repeat split. Qed.

(** The reads of the repository return what their query selects and leave
    the database as it is. *)
Lemma get_user_rod_instance_by_id_reads uid instance_id w :
  match get_user_rod_instance_by_id uid instance_id w with
  | (Val found, w') => found = select_rod_instance uid instance_id (db w) ∧ db w' = db w
  | (Exn, w') => db w' = db w
  end.
Proof.
  unfold get_user_rod_instance_by_id. run_sql. split_faults; [reflexivity|]. by split.
Qed.

Lemma get_user_equipped_rod_reads uid w :
  match get_user_equipped_rod uid w with
  | (Val found, w') => found = select_equipped_rod uid (db w) ∧ db w' = db w
  | (Exn, w') => db w' = db w
  end.
Proof. unfold get_user_equipped_rod. run_sql. split_faults; [reflexivity|]. by split. Qed.

Lemma get_user_equipped_accessory_reads uid w :
  match get_user_equipped_accessory uid w with
  | (Val found, w') => found = select_equipped_accessory uid (db w) ∧ db w' = db w
  | (Exn, w') => db w' = db w
  end.
Proof. unfold get_user_equipped_accessory. run_sql. split_faults; [reflexivity|]. by split. Qed.

Lemma filter_old_rods (P : UserRodInstance → Prop) `{!∀ r, Decision (P r)}
    (rows : list UserRodInstance) :
  Forall (λ r, ¬ P r) rows → filter P rows = [].
Proof.
  intros Hrows. induction rows as [|r rows IH]; [reflexivity|].
  apply Forall_cons in Hrows as [Hr Hrows]. rewrite filter_cons_False by exact Hr. by apply IH.
Qed.

Lemma filter_all_rods (P : UserRodInstance → Prop) `{!∀ r, Decision (P r)}
    (rows : list UserRodInstance) :
  Forall P rows → filter P rows = rows.
Proof.
  intros Hrows. induction rows as [|r rows IH]; [reflexivity|].
  apply Forall_cons in Hrows as [Hr Hrows]. rewrite filter_cons_True by exact Hr.
  f_equal. by apply IH.
Qed.

(** Add, look up, delete: on a table whose row ids are unique and not above
    the last one handed out, the instance that [add_rod_instance] returns is
    the one [get_user_rod_instance_by_id] finds for that user under that
    id; [delete_rod_instance] of that id then gives back the table as it
    was before the rod was added, and the look-up finds nothing.  A call
    that raises leaves the database as it found it. *)
Theorem add_get_delete_rod_instance
    (uid : string) (rid : Z) (durability : option Z) (refine_level : Z) (w : World) :
  rod_ids_fresh (db w) →
  match add_rod_instance uid rid durability refine_level w with
  | (Val instance, w1) =>
      rod_ids_fresh (db w1)
      ∧ match get_user_rod_instance_by_id uid (rod_instance_id instance) w1 with
        | (Val found, _) => found = Some instance
        | (Exn, _) => True
        end
      ∧ match delete_rod_instance (rod_instance_id instance) w1 with
        | (Val _, w2) =>
            user_rods (db w2) = user_rods (db w)
            ∧ match get_user_rod_instance_by_id uid (rod_instance_id instance) w2 with
              | (Val found, _) => found = None
              | (Exn, _) => True
              end
        | (Exn, w2) => db w2 = db w1
        end
  | (Exn, w1) => db w1 = db w
  end.
Proof.
  intros Hfresh. pose proof (add_rod_instance_run uid rid durability refine_level w) as Hadd.
  destruct (add_rod_instance uid rid durability refine_level w) as [[instance|] w1];
    [|exact Hadd].
  destruct Hadd as [-> Hdb].
  set (instance := new_rod (rod_seq (db w) + 1) uid rid durability refine_level) in *.
  assert (Forall (λ r, rod_instance_id r ≠ rod_instance_id instance) (user_rods (db w)))
    as Hold.
  { destruct Hfresh as [_ Hbound]. eapply Forall_impl; [exact Hbound|].
    intros r Hr. cbn in *. lia. }
  split; [|split].
  - destruct Hfresh as [Hnodup Hbound]. rewrite Hdb. unfold rod_ids_fresh.
    cbn [user_rods rod_seq set_user_rods]. split.
    + rewrite fmap_app. apply NoDup_app. split; [exact Hnodup|].
      split; [|apply NoDup_singleton].
      intros id Hid Hnew. apply list_elem_of_singleton in Hnew as ->.
      apply list_elem_of_fmap in Hid as (r & Heq & Hr).
      rewrite Forall_forall in Hold. by apply (Hold r Hr).
    + apply Forall_app. split.
      * eapply Forall_impl; [exact Hbound|]. intros r Hr. cbn in Hr. lia.
      * apply Forall_singleton. cbn. lia.
  - pose proof (get_user_rod_instance_by_id_reads uid (rod_instance_id instance) w1) as Hget.
    destruct (get_user_rod_instance_by_id uid (rod_instance_id instance) w1)
      as [[found|] w2]; [|exact I].
    destruct Hget as [-> _]. rewrite Hdb. unfold select_rod_instance.
    cbn [user_rods set_user_rods]. rewrite filter_app, filter_old_rods.
    + by rewrite filter_cons_True.
    + eapply Forall_impl; [exact Hold|]. intros r Hr [_ Hid]. by apply Hr.
  - unfold delete_rod_instance. run_sql. split_faults; try reflexivity.
    rewrite Hdb. unfold delete_rod. cbn [user_rods set_user_rods rod_seq].
    rewrite filter_app, (filter_all_rods _ _ Hold), filter_cons_False, filter_nil, app_nil_r
      by (intros H; by apply H).
    split; [reflexivity|].
    unfold get_user_rod_instance_by_id. run_sql. split_faults; [exact I|].
    unfold select_rod_instance. cbn [user_rods set_user_rods].
    rewrite filter_old_rods; [reflexivity|].
    eapply Forall_impl; [exact Hold|]. intros r Hr [_ Hid]. by apply Hr.
Qed.

(** A third rod for a user who holds the rods 1 and 3. *)
Lemma add_get_delete_rod_instance_witness :
  match add_rod_instance "alice" 1 (Some 100) 1 (Sample.world 0 Sample.equipped_db) with
  | (Val instance, w1) =>
      rod_ids_fresh (db w1)
      ∧ match get_user_rod_instance_by_id "alice" (rod_instance_id instance) w1 with
        | (Val found, _) => found = Some instance
        | (Exn, _) => True
        end
      ∧ match delete_rod_instance (rod_instance_id instance) w1 with
        | (Val _, w2) =>
            user_rods (db w2) = user_rods Sample.equipped_db
            ∧ match get_user_rod_instance_by_id "alice" (rod_instance_id instance) w2 with
              | (Val found, _) => found = None
              | (Exn, _) => True
              end
        | (Exn, w2) => db w2 = db w1
        end
  | (Exn, w1) => db w1 = Sample.equipped_db
  end.
Proof.
  apply (add_get_delete_rod_instance "alice" 1 (Some 100) 1
           (Sample.world 0 Sample.equipped_db)).
  unfold rod_ids_fresh. simpl. split.
  - apply NoDup_cons. split; [|apply NoDup_singleton].
    intros Hin. apply list_elem_of_singleton in Hin. discriminate.
  - repeat (apply Forall_cons; split; [simpl; lia|]). apply Forall_nil_2.
Defined.

(** The equipped rows of a user after the two updates of [set_equipment_status]. *)
Lemma equipped_rods_after_reset uid (rod_instance : option Z) (rows : list UserRodInstance) :
  filter (λ r, rod_user_id r = uid ∧ rod_is_equipped r = true)
         ((λ r, if decide (rod_user_id r = uid)
                then with_rod_equipped (bool_decide (rod_instance = Some (rod_instance_id r))) r
                else r) <$> rows)
  = with_rod_equipped true
      <$> filter (λ r, rod_user_id r = uid ∧ rod_instance = Some (rod_instance_id r)) rows.
Proof.
  induction rows as [|r rows IH]; [reflexivity|].
  rewrite fmap_cons. destruct (decide (rod_user_id r = uid)) as [Hu|Hu].
  - destruct (decide (rod_instance = Some (rod_instance_id r))) as [Hi|Hi].
    + rewrite bool_decide_eq_true_2 by exact Hi.
      rewrite !filter_cons_True by done. rewrite fmap_cons, IH. reflexivity.
    + rewrite bool_decide_eq_false_2 by exact Hi.
      rewrite !filter_cons_False by (intros [_ H]; done). exact IH.
  - rewrite !filter_cons_False by (intros [H _]; done). exact IH.
Qed.

Lemma equipped_accessories_after_reset uid (accessory_instance : option Z)
    (rows : list UserAccessoryInstance) :
  filter (λ a, accessory_user_id a = uid ∧ accessory_is_equipped a = true)
         ((λ a, if decide (accessory_user_id a = uid)
                then with_accessory_equipped
                       (bool_decide (accessory_instance = Some (accessory_instance_id a))) a
                else a) <$> rows)
  = with_accessory_equipped true
      <$> filter (λ a, accessory_user_id a = uid
                       ∧ accessory_instance = Some (accessory_instance_id a)) rows.
Proof.
  induction rows as [|a rows IH]; [reflexivity|].
  rewrite fmap_cons. destruct (decide (accessory_user_id a = uid)) as [Hu|Hu].
  - destruct (decide (accessory_instance = Some (accessory_instance_id a))) as [Hi|Hi].
    + rewrite bool_decide_eq_true_2 by exact Hi.
      rewrite !filter_cons_True by done. rewrite fmap_cons, IH. reflexivity.
    + rewrite bool_decide_eq_false_2 by exact Hi.
      rewrite !filter_cons_False by (intros [_ H]; done). exact IH.
  - rewrite !filter_cons_False by (intros [H _]; done). exact IH.
Qed.

(** The tables after [set_equipment_status] has returned. *)
Lemma set_equipment_status_run uid rod_instance accessory_instance w :
  match set_equipment_status uid rod_instance accessory_instance w with
  | (Val _, w') =>
      user_rods (db w')
      = (λ r, if decide (rod_user_id r = uid)
              then with_rod_equipped (bool_decide (rod_instance = Some (rod_instance_id r))) r
              else r) <$> user_rods (db w)
      ∧ user_accessories (db w')
        = (λ a, if decide (accessory_user_id a = uid)
                then with_accessory_equipped
                       (bool_decide (accessory_instance = Some (accessory_instance_id a))) a
                else a) <$> user_accessories (db w)
  | (Exn, w') => db w' = db w
  end.
Proof.
  unfold set_equipment_status.
  destruct rod_instance as [rid|], accessory_instance as [aid|];
    run_sql; split_faults; try reflexivity;
    rewrite ?unequip_then_equip_rod, ?unequip_then_equip_accessory;
    repeat split; reflexivity.
Qed.

(** Equip, then ask what is equipped: after [set_equipment_status] has
    returned, [get_user_equipped_rod] returns the first instance of the
    user that has the id passed for rods, now equipped, and nothing if the
    user has no such instance or no id was passed;
    [get_user_equipped_accessory] does the same for accessories. *)
Theorem set_equipment_status_then_get_equipped
    (uid : string) (rod_instance accessory_instance : option Z) (w : World) :
  match set_equipment_status uid rod_instance accessory_instance w with
  | (Val _, w') =>
      match get_user_equipped_rod uid w' with
      | (Val found, _) =>
          found = with_rod_equipped true
                    <$> head (filter (λ r, rod_user_id r = uid
                                           ∧ rod_instance = Some (rod_instance_id r))
                                     (user_rods (db w)))
      | (Exn, _) => True
      end
      ∧ match get_user_equipped_accessory uid w' with
        | (Val found, _) =>
            found = with_accessory_equipped true
                      <$> head (filter (λ a, accessory_user_id a = uid
                                             ∧ accessory_instance
                                               = Some (accessory_instance_id a))
                                       (user_accessories (db w)))
        | (Exn, _) => True
        end
  | (Exn, w') => db w' = db w
  end.
Proof.
  pose proof (set_equipment_status_run uid rod_instance accessory_instance w) as Hset.
  destruct (set_equipment_status uid rod_instance accessory_instance w) as [[[]|] w'];
    [|exact Hset].
  destruct Hset as [Hrods Haccessories]. split.
  - pose proof (get_user_equipped_rod_reads uid w') as Hget.
    destruct (get_user_equipped_rod uid w') as [[found|] w2]; [|exact I].
    destruct Hget as [-> _]. unfold select_equipped_rod.
    rewrite Hrods, equipped_rods_after_reset.
    by destruct (filter _ (user_rods (db w))).
  - pose proof (get_user_equipped_accessory_reads uid w') as Hget.
    destruct (get_user_equipped_accessory uid w') as [[found|] w2]; [|exact I].
    destruct Hget as [-> _]. unfold select_equipped_accessory.
    rewrite Haccessories, equipped_accessories_after_reset.
    by destruct (filter _ (user_accessories (db w))).
Qed.

Lemma filter_filter_rods (P Q : UserRodInstance → Prop)
    `{!∀ r, Decision (P r)} `{!∀ r, Decision (Q r)} (rows : list UserRodInstance) :
  (∀ r, r ∈ rows → P r → Q r) →
  filter P (filter Q rows) = filter P rows.
Proof.
  intros Himpl. induction rows as [|r rows IH]; [reflexivity|].
  assert (filter P (filter Q rows) = filter P rows) as IH'
    by (apply IH; intros x Hx; apply Himpl; by apply list_elem_of_further).
  destruct (decide (Q r)) as [Hq|Hq].
  - rewrite (filter_cons_True Q) by exact Hq.
    destruct (decide (P r)) as [Hp|Hp].
    + rewrite !(filter_cons_True P) by exact Hp. by rewrite IH'.
    + rewrite !(filter_cons_False P) by exact Hp. exact IH'.
  - rewrite (filter_cons_False Q) by exact Hq.
    rewrite (filter_cons_False P); [exact IH'|].
    intros Hp. apply Hq. apply Himpl; [apply list_elem_of_here | exact Hp].
Qed.

(** [clear_user_rod_instances] removes the rods of the user that are
    neither equipped nor of rarity 5 or more (a rod without a row in [rods]
    is removed), and nothing else: after it has returned, what
    [get_user_equipped_rod] reads for the user is what it read before, the
    rods of every other user are as before, and every rod left to the user
    is equipped or of rarity 5 or more.  When it raises the database is as
    it was. *)
Theorem clear_user_rod_instances_keeps_equipped_and_five_star
    (rod_rarity_of : Z → option Z) (uid : string) (w : World) :
  match clear_user_rod_instances rod_rarity_of uid w with
  | (Val _, w') =>
      select_equipped_rod uid (db w') = select_equipped_rod uid (db w)
      ∧ (∀ other, other ≠ uid →
           select_rod_instances other (db w') = select_rod_instances other (db w))
      ∧ select_rod_instances uid (db w')
        = filter (λ r, rod_is_equipped r = true ∨ five_star_rod rod_rarity_of (rod_id r))
                 (select_rod_instances uid (db w))
  | (Exn, w') => db w' = db w
  end.
Proof.
  unfold clear_user_rod_instances. run_sql. split_faults; try reflexivity.
  unfold select_equipped_rod, select_rod_instances, delete_plain_rods.
  cbn [user_rods set_user_rods]. split; [|split].
  - f_equal. apply filter_filter_rods. intros r _ [_ Heq] (_ & Hno & _). congruence.
  - intros other Hother. apply filter_filter_rods. intros r _ Hu (Hu' & _). congruence.
  - set (U := λ r : UserRodInstance, rod_user_id r = uid).
    set (E := λ r : UserRodInstance,
                rod_is_equipped r = true ∨ five_star_rod rod_rarity_of (rod_id r)).
    set (K := λ r : UserRodInstance,
                ¬ (rod_user_id r = uid ∧ rod_is_equipped r = false
                   ∧ ¬ five_star_rod rod_rarity_of (rod_id r))).
    induction (user_rods (db w)) as [|r rows IH]; [reflexivity|].
    destruct (decide (U r)) as [Hu|Hu].
    + rewrite (filter_cons_True U r rows) by exact Hu.
      destruct (decide (E r)) as [Hkeep|Hgone].
      * assert (K r) as Hk
          by (unfold K, E in *; intros (_ & Hoff & Hplain);
              destruct Hkeep; [congruence | contradiction]).
        rewrite (filter_cons_True K r rows) by exact Hk.
        rewrite (filter_cons_True U), (filter_cons_True E) by assumption.
        by rewrite IH.
      * assert (¬ K r) as Hk.
        { unfold K, E in *. intros Hkept. apply Hkept. split; [exact Hu|]. split.
          - destruct (rod_is_equipped r); [|reflexivity]. exfalso. apply Hgone. by left.
          - intros Hfive. apply Hgone. by right. }
        rewrite (filter_cons_False K r rows) by exact Hk.
        rewrite (filter_cons_False E) by exact Hgone. exact IH.
    + rewrite (filter_cons_False U r rows) by exact Hu.
      assert (K r) as Hk by (unfold K; intros [H _]; contradiction).
      rewrite (filter_cons_True K r rows) by exact Hk.
      rewrite (filter_cons_False U) by exact Hu. exact IH.
Qed.

(** ** The weighted draw *)

(** An entry is returned by the walk when the random value falls in its
    interval of the running sum: above the sum of the weights before it
    and not above that sum plus its own weight. *)
Lemma weighted_walk_interval rand_val (before : list GachaPoolItem) item after :
  ∀ current_weight,
    Forall (λ entry, 0 ≤ weight entry) before →
    (inject_Z (current_weight + sum_weights before) < rand_val)%Q →
    (rand_val <= inject_Z (current_weight + sum_weights before + weight item))%Q →
    weighted_walk rand_val current_weight (before ++ item :: after) = Some item.
Proof.
  induction before as [|entry before IH]; intros cw Hweights Hlow Hhigh.
  - cbn in *. rewrite Z.add_0_r in Hlow, Hhigh.
    apply Qle_bool_iff in Hhigh. by rewrite Hhigh.
  - apply Forall_cons in Hweights as [Hentry Hweights]. cbn [app weighted_walk].
    cbn [sum_weights foldr] in Hlow, Hhigh. fold (sum_weights before) in Hlow, Hhigh.
    destruct (Qle_bool rand_val (inject_Z (cw + weight entry))) eqn:Hcmp.
    + apply Qle_bool_iff in Hcmp. exfalso.
      assert (0 ≤ sum_weights before) as Hsum.
      { clear -Hweights. induction Hweights; cbn; [lia|].
        fold (sum_weights l). lia. }
      assert (inject_Z (cw + weight entry) <= inject_Z (cw + (weight entry + sum_weights before)))%Q
        as Hle by (rewrite <- Zle_Qle; lia).
      apply (Qlt_irrefl rand_val). eapply Qle_lt_trans; [exact Hcmp|].
      eapply Qle_lt_trans; [exact Hle | exact Hlow].
    + apply IH; [exact Hweights | |].
      * by rewrite <- Z.add_assoc.
      * by rewrite <- (Z.add_assoc cw).
Qed.

(** An entry that the walk returns, for a random value above the weight
    the walk starts from, has a positive weight. *)
Lemma weighted_walk_positive rand_val (its : list GachaPoolItem) :
  ∀ current_weight item,
    (inject_Z current_weight < rand_val)%Q →
    weighted_walk rand_val current_weight its = Some item →
    0 < weight item.
Proof.
  induction its as [|entry rest IH]; intros cw item Hlow Hwalk; [discriminate|].
  cbn [weighted_walk] in Hwalk.
  destruct (Qle_bool rand_val (inject_Z (cw + weight entry))) eqn:Hcmp.
  - injection Hwalk as <-. apply Qle_bool_iff in Hcmp.
    assert (inject_Z cw < inject_Z (cw + weight entry))%Q as Hlt
      by (eapply Qlt_le_trans; [exact Hlow | exact Hcmp]).
    rewrite <- Zlt_Qlt in Hlt. lia.
  - apply (IH (cw + weight entry) item); [|exact Hwalk].
    destruct (Qlt_le_dec (inject_Z (cw + weight entry)) rand_val) as [Hlt|Hle]; [exact Hlt|].
    apply Qle_bool_iff in Hle. congruence.
Qed.

(** The value that [_perform_single_weighted_draw] compares with the
    running sums: [random.uniform(0, total_weight)]. *)
Lemma single_draw_run (pool : GachaPool) (w : World) :
  ∃ rand_val w',
    _perform_single_weighted_draw pool w = (Val (weighted_walk rand_val 0 (items pool)), w')
    ∧ (rand_val == inject_Z (total_weight pool) * rng w (rng_pos w))%Q.
Proof.
  eexists _, _. split; [reflexivity|]. cbn.
  generalize (inject_Z (total_weight pool)) (rng w (rng_pos w)). intros t r.
  change (inject_Z 0) with 0%Q. lra.
Qed.

Lemma sum_weights_take_S (item : GachaPoolItem) (rest : list GachaPoolItem) (k : nat) :
  sum_weights (take (S k) (item :: rest)) = weight item + sum_weights (take k rest).
Proof. reflexivity. Qed.

(** The loop from any starting weight: it returns the first entry at which
    the running sum reaches the random value. *)
Lemma weighted_walk_first_reached (rand_val : Q) (its : list GachaPoolItem) :
  ∀ current_weight,
    match weighted_walk rand_val current_weight its with
    | Some item =>
        ∃ i, its !! i = Some item
             ∧ (rand_val <= inject_Z (current_weight + sum_weights (take (S i) its)))%Q
             ∧ ∀ k, (k < i)%nat →
                    (inject_Z (current_weight + sum_weights (take (S k) its)) < rand_val)%Q
    | None =>
        ∀ k, (k < length its)%nat →
             (inject_Z (current_weight + sum_weights (take (S k) its)) < rand_val)%Q
    end.
Proof.
  induction its as [|entry rest IH]; intros cw.
  - cbn. intros k Hk. lia.
  - cbn [weighted_walk].
    destruct (Qle_bool rand_val (inject_Z (cw + weight entry))) eqn:Hcmp.
    + apply Qle_bool_iff in Hcmp. exists 0%nat. split; [reflexivity|]. split.
      * rewrite sum_weights_take_S. cbn [take]. change (sum_weights []) with 0.
        by rewrite Z.add_0_r.
      * intros k Hk. lia.
    + assert (inject_Z (cw + weight entry) < rand_val)%Q as Hbelow.
      { destruct (Qlt_le_dec (inject_Z (cw + weight entry)) rand_val) as [Hlt|Hle];
          [exact Hlt|]. apply Qle_bool_iff in Hle. congruence. }
      specialize (IH (cw + weight entry)).
      destruct (weighted_walk rand_val (cw + weight entry) rest) as [item|].
      * destruct IH as (i & Hi & Hreach & Hbefore). exists (S i).
        split; [exact Hi|]. split.
        -- rewrite sum_weights_take_S. by rewrite Z.add_assoc.
        -- intros [|k] Hk.
           ++ rewrite sum_weights_take_S. cbn [take]. change (sum_weights []) with 0.
              by rewrite Z.add_0_r.
           ++ rewrite sum_weights_take_S, Z.add_assoc. apply Hbefore. lia.
      * intros [|k] Hk.
        -- rewrite sum_weights_take_S. cbn [take]. change (sum_weights []) with 0.
           by rewrite Z.add_0_r.
        -- rewrite sum_weights_take_S, Z.add_assoc. apply IH. cbn [length] in Hk. lia.
Qed.

(** What the loop of [_perform_single_weighted_draw] does with the value
    [rand_val] it is given, whatever that value is: it returns the first
    entry of the pool at which the running sum of the weights reaches
    [rand_val], and [None] when no running sum does.  (The running sums
    are sums of integers, and a comparison of [rand_val] with an integer
    is exact, so this is independent of how [rand_val] was rounded.) *)
Theorem weighted_walk_returns_first_entry_reached (rand_val : Q) (pool : GachaPool) :
  match weighted_walk rand_val 0 (items pool) with
  | Some item =>
      ∃ i, items pool !! i = Some item
           ∧ (rand_val <= inject_Z (sum_weights (take (S i) (items pool))))%Q
           ∧ ∀ k, (k < i)%nat →
                  (inject_Z (sum_weights (take (S k) (items pool))) < rand_val)%Q
  | None =>
      ∀ k, (k < length (items pool))%nat →
           (inject_Z (sum_weights (take (S k) (items pool))) < rand_val)%Q
  end.
Proof.
  pose proof (weighted_walk_first_reached rand_val (items pool) 0) as Hwalk.
  destruct (weighted_walk rand_val 0 (items pool)) as [item|].
  - destruct Hwalk as (i & Hi & Hreach & Hbefore). exists i. repeat split; assumption.
  - exact Hwalk.
Qed.

(** With weights 70 and 30: a value of 70 is still the first entry's, any
    value above it up to 100 the second's, and a value above 100 nobody's. *)
Example weighted_walk_on_the_sample_pool :
  weighted_walk 70 0 (items Sample.pool) = Some Sample.rod_item
  ∧ weighted_walk (701 # 10) 0 (items Sample.pool) = Some Sample.coins_item
  ∧ weighted_walk 100 0 (items Sample.pool) = Some Sample.coins_item
  ∧ weighted_walk (1001 # 10) 0 (items Sample.pool) = None.
Proof. vm_compute. repeat split. Qed.

(** An entry of weight 0 is not drawn: on a pool of positive total weight,
    when [random()] is not 0, the entry that the draw returns has a
    positive weight. *)
Theorem single_draw_returns_entry_of_positive_weight
    (pool : GachaPool) (w : World) (item : GachaPoolItem) :
  0 < total_weight pool →
  (0 < rng w (rng_pos w))%Q →
  (_perform_single_weighted_draw pool w).1 = Val (Some item) →
  0 < weight item.
Proof.
  intros Htotal Hrng.
  destruct (single_draw_run pool w) as (rand_val & w' & -> & Hrand). cbn [fst].
  intros [= Hwalk]. apply (weighted_walk_positive rand_val (items pool) 0 item); [|exact Hwalk].
  rewrite Hrand. change (inject_Z 0) with 0%Q.
  assert (0 < inject_Z (total_weight pool))%Q as Hq
    by (change 0%Q with (inject_Z 0); by rewrite <- Zlt_Qlt).
  generalize dependent (inject_Z (total_weight pool)).
  generalize dependent (rng w (rng_pos w)). intros r Hr t _ Ht. nra.
Qed.

(** The rod drawn from the sample pool has weight 70. *)
Lemma single_draw_returns_entry_of_positive_weight_witness : 0 < weight Sample.rod_item.
Proof.
  apply (single_draw_returns_entry_of_positive_weight Sample.pool
           (Sample.world 0 Sample.empty_db) Sample.rod_item).
  - reflexivity.
  - reflexivity.
  - reflexivity.
Defined.

(** ** What a draw does to the balance *)

Lemma users_kept_refl w : users_kept w w.
Proof. reflexivity. Qed.

Lemma users_kept_trans w1 w2 w3 : users_kept w1 w2 → users_kept w2 w3 → users_kept w1 w3.
Proof. unfold users_kept. congruence. Qed.

Lemma users_kept_db d w : users_kept w (set_db d w).
Proof. reflexivity. Qed.

Lemma users_kept_stmt n w : users_kept w (set_stmt n w).
Proof. reflexivity. Qed.

Lemma users_kept_titles ts w : users_kept w (set_user_titles ts w).
Proof. reflexivity. Qed.

Lemma users_kept_call (c : Call) w :
  c ≠ CallRandomUniform → users_kept w (set_calls (calls w ++ [c]) w).
Proof. reflexivity. Qed.

Lemma coins_granted_app results1 results2 :
  coins_granted (results1 ++ results2) = coins_granted results1 + coins_granted results2.
Proof.
  induction results1 as [|reward rest IH]; [reflexivity|].
  cbn. destruct reward; cbn; fold (coins_granted (rest ++ results2)); fold (coins_granted rest);
    lia.
Qed.

Lemma rod_grants_no_coins uid rod_templates rod_items :
  coins_granted (rod_grants uid rod_templates rod_items).*1 = 0.
Proof.
  unfold rod_grants. induction rod_items as [|item rest IH]; [reflexivity|].
  cbn [omap list_omap]. destruct (rod_templates !! item_id item); cbn; exact IH.
Qed.

Lemma accessory_grants_no_coins uid accessory_templates accessory_items :
  coins_granted (accessory_grants uid accessory_templates accessory_items).*1 = 0.
Proof.
  unfold accessory_grants. induction accessory_items as [|item rest IH]; [reflexivity|].
  cbn [omap list_omap]. destruct (accessory_templates !! item_id item); cbn; exact IH.
Qed.

Lemma bait_grants_no_coins uid cat bait_totals :
  coins_granted (bait_grants uid cat bait_totals).*1 = 0.
Proof.
  unfold bait_grants. induction bait_totals as [|[bid total] rest IH]; [reflexivity|].
  cbn [omap list_omap]. destruct (baits cat !! bid); cbn; [|exact IH].
  destruct (decide (0 < total)); cbn; exact IH.
Qed.

(** Granting titles never raises, gives no coins and keeps the users. *)
Lemma grant_titles_no_coins uid (title_ids : list Z) :
  ∀ w, ∃ granted w',
    grant_titles uid title_ids w = (Val granted, w')
    ∧ coins_granted granted.*1 = 0 ∧ users w' = users w ∧ gacha_records w' = gacha_records w.
Proof.
  induction title_ids as [|title_id rest IH]; intros w.
  - exists [], w. by repeat split.
  - cbn [grant_titles]. unfold bind at 1, gets. cbn beta iota.
    destruct (titles (catalog w) !! title_id) as [title_template|].
    + unfold bind at 1 2, achievement_repo_grant_title_to_user, bind at 1, emit, modify.
      cbn beta iota. cbn [ret]. unfold bind at 1.
      match goal with
      | |- context [grant_titles uid rest ?w1] =>
          destruct (IH w1) as (others & w2 & -> & Hcoins & Husers & Hrecords)
      end.
      eexists _, w2. split; [reflexivity|]. repeat split; assumption.
    + unfold bind at 1. cbn [ret]. unfold bind at 1.
      destruct (IH w) as (others & w2 & -> & Hcoins & Husers & Hrecords).
      eexists _, w2. split; [reflexivity|]. repeat split; assumption.
Qed.

(** Writing the audit rows never raises and keeps the users. *)
Lemma add_gacha_records_users (log_records : list GachaRecord) :
  ∀ w, ∃ w', for_each log_records log_repo_add_gacha_record w = (Val tt, w')
             ∧ users w' = users w.
Proof.
  induction log_records as [|record rest IH]; intros w.
  - by exists w.
  - cbn [for_each]. unfold bind at 1. rewrite add_gacha_record_run.
    match goal with
    | |- context [for_each rest _ ?w1] => destruct (IH w1) as (w' & -> & Husers)
    end.
    by exists w'.
Qed.

Lemma with_coins_same (u : User) : with_coins (coins u) u = u.
Proof. by destruct u. Qed.

(** What [_grant_rewards_batch] does to the users: it adds the coins drawn
    to the balance of the user, and that is all.  (When it raises because
    the inventory database did, it had not reached the coins; the stores
    written after the coins never fail in this model.) *)
Lemma grant_rewards_batch_balance uid draw_results u w :
  users w !! uid = Some u →
  user_id u = uid →
  match _grant_rewards_batch uid draw_results w with
  | (Val granted_rewards, w') =>
      users w' = <[uid := with_coins (coins u + coins_granted granted_rewards) u]> (users w)
      ∧ coins_granted granted_rewards = Z.max 0 (agg_coins (aggregate draw_results))
  | (Exn, w') => users w' = users w
  end.
Proof.
  intros Hu Hid. unfold _grant_rewards_batch. fold (aggregate draw_results).
  set (agg := aggregate draw_results).
  (* rods *)
  unfold bind at 1.
  pose proof (keeps_grant_rods users_kept users_kept_refl users_kept_trans users_kept_db
                users_kept_stmt users_kept_call uid (agg_rods agg) w) as K1.
  destruct (grant_rods uid (agg_rods agg) w) as [[from_rods|] w1] eqn:H1;
    cbn [snd] in K1; [|exact K1].
  apply grant_rods_per_unit in H1 as ->.
  (* accessories *)
  unfold bind at 1.
  pose proof (keeps_grant_accessories users_kept users_kept_refl users_kept_trans
                users_kept_db users_kept_stmt users_kept_call uid (agg_accessories agg) w1)
    as K2.
  destruct (grant_accessories uid (agg_accessories agg) w1) as [[from_accessories|] w2] eqn:H2;
    cbn [snd] in K2; [|unfold users_kept in *; congruence].
  apply grant_accessories_result in H2 as [accessory_templates ->].
  (* baits *)
  unfold bind at 1.
  pose proof (keeps_grant_baits users_kept users_kept_refl users_kept_trans
                users_kept_db users_kept_stmt users_kept_call uid (agg_baits agg) w2) as K3.
  destruct (grant_baits uid (agg_baits agg) w2) as [[from_baits|] w3] eqn:H3;
    cbn [snd] in K3; [|unfold users_kept in *; congruence].
  apply grant_baits_result in H3 as ->.
  assert (users w3 = users w) as Husers by (unfold users_kept in *; congruence).
  (* coins *)
  unfold bind at 1, grant_coins.
  destruct (decide (0 < agg_coins agg)) as [Hcoins|Hcoins].
  - unfold bind at 1, user_repo_get_by_id, gets. rewrite Husers, Hu.
    unfold bind at 1, user_repo_update, bind at 1, emit, modify. cbn beta iota.
    cbn [ret]. unfold bind at 1.
    match goal with
    | |- context [grant_titles uid _ ?w4] =>
        destruct (grant_titles_no_coins uid (elements (agg_titles agg)) w4)
          as (from_titles & w5 & -> & Hnone & Husers5 & _)
    end.
    unfold bind at 1.
    match goal with
    | |- context [for_each ?rows _ w5] =>
        destruct (add_gacha_records_users rows w5) as (w6 & -> & Husers6)
    end.
    cbn [ret]. rewrite Husers6, Husers5. cbn [users set_users set_calls].
    cbn [user_id with_coins]. rewrite Husers, Hid.
    assert (∀ accessory_rewards : list Reward,
               coins_granted accessory_rewards = 0 →
               coins_granted
                 ((rod_grants uid (rods (catalog w)) (agg_rods agg)).*1
                  ++ accessory_rewards
                  ++ (bait_grants uid (catalog w2) (agg_baits agg)).*1
                  ++ [RewardCoins (agg_coins agg)] ++ from_titles.*1)
               = agg_coins agg) as Htotal.
    { intros accessory_rewards Hzero.
      rewrite !coins_granted_app, rod_grants_no_coins, bait_grants_no_coins, Hzero, Hnone.
      cbn. lia. }
    rewrite !fmap_app. cbn [fmap list_fmap fst].
    rewrite (Htotal _ (accessory_grants_no_coins _ _ _)). split; [reflexivity | lia].
  - cbn [ret]. unfold bind at 1.
    destruct (grant_titles_no_coins uid (elements (agg_titles agg)) w3)
      as (from_titles & w5 & -> & Hnone & Husers5 & _).
    unfold bind at 1.
    match goal with
    | |- context [for_each ?rows _ w5] =>
        destruct (add_gacha_records_users rows w5) as (w6 & -> & Husers6)
    end.
    cbn [ret]. rewrite Husers6, Husers5, Husers.
    rewrite !fmap_app, !coins_granted_app, rod_grants_no_coins, accessory_grants_no_coins,
      bait_grants_no_coins, Hnone. cbn.
    rewrite Z.add_0_r, with_coins_same. split; [symmetry; by apply insert_id | lia].
Qed.

Lemma aggregate_coins_from (draw_results : list GachaPoolItem) :
  ∀ agg, agg_coins (foldl aggregate_one agg draw_results)
         = agg_coins agg + coins_drawn draw_results.
Proof.
  induction draw_results as [|item rest IH]; intros agg; [cbn; lia|].
  cbn [foldl coins_drawn foldr]. fold (coins_drawn rest). rewrite IH.
  unfold aggregate_one.
  destruct (decide (item_type item = "coins")) as [Hcoins|Hother].
  - destruct (decide (item_type item = "rod")) as [Hrod|_];
      [rewrite Hcoins in Hrod; discriminate|].
    destruct (decide (item_type item = "accessory")) as [Hacc|_];
      [rewrite Hcoins in Hacc; discriminate|].
    destruct (decide (item_type item = "bait")) as [Hbait|_];
      [rewrite Hcoins in Hbait; discriminate|].
    cbn [agg_coins]. lia.
  - destruct (decide (item_type item = "rod")); [cbn [agg_coins]; lia|].
    destruct (decide (item_type item = "accessory")); [cbn [agg_coins]; lia|].
    destruct (decide (item_type item = "bait")); [cbn [agg_coins]; lia|].
    destruct (decide (item_type item = "titles")); cbn [agg_coins]; lia.
Qed.

(** The coins of a batch are granted in one update of the balance, with
    their total.  For a user stored under their own id: when
    [_grant_rewards_batch] returns, the coins among the rewards it reports
    are the sum of the quantities of the draws of type "coins", or none if
    that sum is not positive, and the only change to the users is that
    they were added to the balance of the user.  Nothing is said of a call
    that raises: the titles and the audit rows are written after the
    coins, and a failure there leaves the coins added. *)
Theorem grant_rewards_batch_grants_the_coins_drawn
    (uid : string) (draw_results : list GachaPoolItem) (u : User) (w : World) :
  users w !! uid = Some u →
  user_id u = uid →
  match _grant_rewards_batch uid draw_results w with
  | (Val granted_rewards, w') =>
      coins_granted granted_rewards = Z.max 0 (coins_drawn draw_results)
      ∧ users w' = <[uid := with_coins (coins u + Z.max 0 (coins_drawn draw_results)) u]>
                     (users w)
  | (Exn, w') => True
  end.
Proof.
  intros Hu Hid. pose proof (grant_rewards_batch_balance uid draw_results u w Hu Hid) as Hrun.
  pose proof (aggregate_coins_from draw_results no_rewards) as Hsum.
  fold (aggregate draw_results) in Hsum. cbn [agg_coins no_rewards] in Hsum.
  destruct (_grant_rewards_batch uid draw_results w) as [[granted_rewards|] w']; [|exact I].
  destruct Hrun as [Husers Hcoins]. rewrite Hsum, Z.add_0_l in Hcoins.
  split; [exact Hcoins | by rewrite Husers, Hcoins].
Qed.

(** Two draws of 10 coins and a rod, for a user with 5 coins. *)
Lemma grant_rewards_batch_grants_the_coins_drawn_witness :
  match _grant_rewards_batch "alice" [Sample.coins_item; Sample.rod_item; Sample.coins_item]
          (Sample.world 5 Sample.empty_db) with
  | (Val granted_rewards, w') =>
      coins_granted granted_rewards = 20
      ∧ users w' = <["alice" := with_coins (5 + 20) (Sample.alice 5)]>
                     (users (Sample.world 5 Sample.empty_db))
  | (Exn, w') => True
  end.
Proof.
  apply (grant_rewards_batch_grants_the_coins_drawn "alice"
           [Sample.coins_item; Sample.rod_item; Sample.coins_item]
           (Sample.alice 5) (Sample.world 5 Sample.empty_db)); reflexivity.
Defined.

(** A draw that fails takes nothing and gives nothing: when [perform_draw]
    returns a failure, the users, the inventory database, the audit rows
    and the titles are as they were; unless the failure is that of the
    draws themselves, nothing at all has changed. *)
Theorem perform_draw_failure_takes_nothing (uid : string) (pool_id num_draws : Z) (w : World) :
  match perform_draw uid pool_id num_draws w with
  | (Val (Failure message), w') =>
      users w' = users w ∧ db w' = db w ∧ gacha_records w' = gacha_records w
      ∧ user_titles w' = user_titles w ∧ (message ≠ DrawFailed → w' = w)
  | _ => True
  end.
Proof.
  unfold perform_draw, bind at 1, user_repo_get_by_id, gets.
  destruct (users w !! uid) as [u|]; [|by repeat split].
  unfold bind at 1, gacha_repo_get_pool_by_id, gets.
  destruct (pools w !! pool_id) as [pool|]; [|by repeat split].
  destruct (items pool) as [|item its] eqn:Hitems; [by repeat split|].
  destruct (negb (can_afford u (cost_coins pool * num_draws))); [by repeat split|].
  unfold bind at 1.
  destruct (draw_loop_calls (Z.to_nat num_draws) pool w) as [draw_results ->].
  destruct draw_results as [|drawn rest]; [by repeat split|].
  unfold bind at 1, user_repo_update, bind at 1, emit, modify. cbn beta iota.
  unfold bind at 1.
  match goal with
  | |- context [_grant_rewards_batch uid ?rs ?w2] =>
      destruct (_grant_rewards_batch uid rs w2) as [[granted|] w3]; exact I
  end.
Qed.

Lemma pools_kept_refl w : pools_kept w w.
Proof. reflexivity. Qed.

Lemma pools_kept_trans w1 w2 w3 : pools_kept w1 w2 → pools_kept w2 w3 → pools_kept w1 w3.
Proof. unfold pools_kept. congruence. Qed.

(** Granting the rewards leaves the pools alone. *)
Lemma pools_kept_grant_rewards_batch uid draw_results :
  keeps pools_kept (_grant_rewards_batch uid draw_results).
Proof.
  unfold _grant_rewards_batch.
  apply (keeps_bind pools_kept pools_kept_trans);
    [by apply (keeps_grant_rods pools_kept pools_kept_refl pools_kept_trans)|].
  intros from_rods.
  apply (keeps_bind pools_kept pools_kept_trans);
    [by apply (keeps_grant_accessories pools_kept pools_kept_refl pools_kept_trans)|].
  intros from_accessories.
  apply (keeps_bind pools_kept pools_kept_trans);
    [by apply (keeps_grant_baits pools_kept pools_kept_refl pools_kept_trans)|].
  intros from_baits.
  apply (keeps_bind pools_kept pools_kept_trans);
    [by apply (keeps_grant_coins pools_kept pools_kept_refl pools_kept_trans)|].
  intros from_coins.
  apply (keeps_bind pools_kept pools_kept_trans);
    [by apply (keeps_grant_titles pools_kept pools_kept_refl pools_kept_trans)|].
  intros from_titles.
  apply (keeps_bind pools_kept pools_kept_trans);
    [|intros _; apply (keeps_ret pools_kept pools_kept_refl)].
  apply (keeps_for_each pools_kept pools_kept_refl pools_kept_trans).
  intros record w. reflexivity.
Qed.

(** [perform_draw] on the users and the pools, by outcome.  (The last case
    is that of this model, where a draw raises only when the inventory
    database does, which is before any coins are added and any audit row
    is written.) *)
Lemma perform_draw_run
    (uid : string) (pool_id num_draws : Z) (w : World) (u : User) (pool : GachaPool) :
  users w !! uid = Some u →
  user_id u = uid →
  pools w !! pool_id = Some pool →
  let total_cost := cost_coins pool * num_draws in
  match perform_draw uid pool_id num_draws w with
  | (Val (Success results), w') =>
      users w' = <[uid := with_coins (coins u - total_cost + coins_granted results) u]> (users w)
      ∧ pools w' = pools w
  | (Val (Failure _), w') => users w' = users w ∧ pools w' = pools w
  | (Exn, w') =>
      users w' = <[uid := with_coins (coins u - total_cost) u]> (users w)
      ∧ gacha_records w' = gacha_records w
  end.
Proof.
  intros Hu Hid Hp total_cost.
  unfold perform_draw, bind at 1, user_repo_get_by_id, gets. rewrite Hu.
  unfold bind at 1, gacha_repo_get_pool_by_id, gets. rewrite Hp.
  destruct (items pool) as [|item its] eqn:Hitems; [by split|].
  fold total_cost. destruct (negb (can_afford u total_cost)); [by split|].
  unfold bind at 1.
  destruct (draw_loop_calls (Z.to_nat num_draws) pool w) as [draw_results ->].
  destruct draw_results as [|drawn rest]; [by split|].
  set (draw_results := drawn :: rest). clearbody draw_results.
  unfold bind at 1, user_repo_update, bind at 1, emit, modify. cbn beta iota.
  unfold bind at 1. cbn [user_id with_coins]. rewrite Hid.
  set (debited := with_coins (coins u - total_cost) u).
  match goal with
  | |- context [_grant_rewards_batch uid draw_results ?w0] => set (w2 := w0)
  end.
  assert (users w2 = <[uid := debited]> (users w)) as Hdebited by reflexivity.
  assert (gacha_records w2 = gacha_records w) as Hrecords by reflexivity.
  pose proof (grant_rewards_batch_balance uid draw_results debited w2) as Hbalance.
  pose proof (grant_rewards_batch_log_records uid draw_results w2) as Hlog.
  pose proof (pools_kept_grant_rewards_batch uid draw_results w2) as Hpools.
  rewrite Hdebited, lookup_insert_eq in Hbalance. specialize (Hbalance eq_refl Hid).
  destruct (_grant_rewards_batch uid draw_results w2) as [[granted|] w3].
  - cbn [ret]. destruct Hbalance as [-> _]. rewrite insert_insert_eq.
    split; [reflexivity | exact Hpools].
  - split; [by rewrite Hbalance | by rewrite Hlog].
Qed.

(** The balance after a draw, by outcome.  For a user that the store holds
    under their own id: when [perform_draw] returns a success, the only
    change to the users is the balance of the caller, which is the old one
    less the cost of the draws plus the coins among the rewards reported;
    when it returns a failure the users are unchanged.  Nothing is said of
    a call that raises: what the balance is then depends on the step of
    the granting that failed. *)
Theorem perform_draw_balance_by_outcome
    (uid : string) (pool_id num_draws : Z) (w : World) (u : User) (pool : GachaPool) :
  users w !! uid = Some u →
  user_id u = uid →
  pools w !! pool_id = Some pool →
  let total_cost := cost_coins pool * num_draws in
  match perform_draw uid pool_id num_draws w with
  | (Val (Success results), w') =>
      users w' = <[uid := with_coins (coins u - total_cost + coins_granted results) u]> (users w)
  | (Val (Failure _), w') => users w' = users w
  | (Exn, w') => True
  end.
Proof.
  intros Hu Hid Hp total_cost.
  pose proof (perform_draw_run uid pool_id num_draws w u pool Hu Hid Hp) as Hrun.
  cbv zeta in Hrun. fold total_cost in Hrun.
  destruct (perform_draw uid pool_id num_draws w) as [[[results|message]|] w'];
    [by destruct Hrun | by destruct Hrun | exact I].
Qed.

(** Three draws at 100 coins on the pool that gives coins. *)
Lemma perform_draw_balance_by_outcome_witness :
  match perform_draw "alice" 2 3 (Sample.world 1000 Sample.empty_db) with
  | (Val (Success results), w') =>
      users w' = <["alice" := with_coins (1000 - 300 + coins_granted results)
                                         (Sample.alice 1000)]>
                   (users (Sample.world 1000 Sample.empty_db))
  | (Val (Failure _), w') => users w' = users (Sample.world 1000 Sample.empty_db)
  | (Exn, w') => True
  end.
Proof.
  apply (perform_draw_balance_by_outcome "alice" 2 3 (Sample.world 1000 Sample.empty_db)
           (Sample.alice 1000) Sample.coins_pool); reflexivity.
Defined.

(** ** The handler as a whole *)

Section HandlerRuns.

Variable env : nat → World → World.

(** The loop over the sub-batches never raises: an exception of
    [perform_draw] is caught and ends the loop. *)
Lemma sub_batches_returns uid pool_id pool_info (batches : list Z) :
  ∀ st w, ∃ exit st' w',
    sub_batches env uid pool_id pool_info batches st w = (Val (exit, st'), w').
Proof.
  induction batches as [|batch rest IH]; intros st w.
  - by exists Completed, st, w.
  - rewrite sub_batches_cons.
    destruct (perform_draw uid pool_id batch_size w) as [[[results|message]|] w1].
    + cbv zeta. destruct (decide (batch < 4)); apply IH.
    + cbv zeta. destruct (decide (0 < (5 - batch) * batch_size * cost_coins pool_info));
        by eexists _, _, _.
    + by exists Raised, st, w1.
Qed.

(** Neither does the refund after an exception. *)
Lemma refund_after_exception_returns uid pool_info total_cost st w :
  ∃ out w', refund_after_exception uid pool_info total_cost st w = (Val out, w').
Proof.
  unfold refund_after_exception, try_except.
  match goal with
  | |- context [match ?m w with _ => _ end] => destruct (m w) as [[out|] w1]
  end; by eexists _, _.
Qed.

End HandlerRuns.

Section AdmittedRun.

Variable env : nat → World → World.

(** The refund after an exception answers with one of its three replies. *)
Lemma refund_after_exception_closes uid pool total_cost st w :
  ∃ reply w',
    refund_after_exception uid pool total_cost st w = (Val [reply], w')
    ∧ closing_reply reply.
Proof.
  unfold refund_after_exception, try_except.
  destruct (decide (processed st = 0)).
  - unfold bind at 1, user_repo_get_by_id, gets.
    destruct (users w !! uid) as [fresh|]; [|by eexists _, _].
    unfold bind, user_repo_update, emit, modify, ret. cbn. by eexists _, _.
  - unfold bind at 1.
    destruct (decide (0 < total_cost - processed st * cost_coins pool)).
    + unfold bind at 1, user_repo_get_by_id, gets.
      destruct (users w !! uid) as [fresh|]; [|by eexists _, _].
      unfold bind, user_repo_update, emit, modify, ret. cbn. by eexists _, _.
    + cbn. by eexists _, _.
Qed.

(** A request that [ten_thousand_gacha] admits is answered and frees the
    admission slot.  With the slot free, a pool id given in ASCII digits
    (at most 4300 of them, the default limit of [int]), the pool and the
    sender found and coins enough for the 10000 draws, the handler does
    not raise: its first reply is the start message with the total cost,
    a closing reply (the summary, or one of the three replies of the
    [except] branch) follows it, and it ends with the slot free, whatever
    the draws did and whatever other handlers did while this one was
    suspended. *)
Theorem ten_thousand_gacha_answers_and_frees_the_slot
    (event : Event) (w : World) (arg : string) (pool_id : Z) (pool_info : GachaPool)
    (caller : User) :
  ten_thousand_gacha_lock w = false →
  split_space (message_str event) !! 1%nat = Some arg →
  (String.length arg ≤ 4300)%nat →
  parse_digits arg = Some pool_id →
  pools w !! pool_id = Some pool_info →
  users w !! sender_id event = Some caller →
  cost_coins pool_info * 10000 ≤ coins caller →
  ∃ rest w',
    ten_thousand_gacha env event w
    = (Val (ReplyStarting (cost_coins pool_info * 10000) :: rest), w')
    ∧ Exists closing_reply rest
    ∧ ten_thousand_gacha_lock w' = false
    ∧ ten_thousand_gacha_user w' = None.
Proof.
  intros Hfree Harg _ Hparse Hpool Hcaller Hcoins.
  unfold ten_thousand_gacha, bind at 1, gets. rewrite Hfree.
  assert (¬ (length (split_space (message_str event)) < 2)%nat) as Hlen.
  { apply lookup_lt_Some in Harg. lia. }
  rewrite decide_False by exact Hlen.
  rewrite (nth_lookup_Some _ _ _ _ Harg), Hparse.
  unfold bind at 1, gacha_repo_get_pool_by_id, gets. rewrite Hpool.
  unfold bind at 1, user_repo_get_by_id, gets. rewrite Hcaller.
  unfold can_afford. rewrite bool_decide_eq_true_2 by exact Hcoins. cbn [negb].
  unfold bind at 1, suspend, modify. unfold bind at 1. unfold bind at 1.
  match goal with
  | |- context [sub_batches env ?u ?p ?i ?bs ?st ?w0] =>
      destruct (sub_batches_returns env u p i bs st w0) as (exit & st' & w1 & ->)
  end.
  destruct exit.
  - unfold bind, release_lock, modify, ret. eexists _, _.
    split; [reflexivity|]. split; [|by split].
    apply Exists_app. right. by apply Exists_cons_hd.
  - unfold bind at 1. unfold bind at 1.
    destruct (refund_after_exception_closes (sender_id event) pool_info
                (cost_coins pool_info * 10000) st' w1) as (reply & w2 & -> & Hreply).
    unfold bind, release_lock, modify, ret. eexists _, _.
    split; [reflexivity|]. split; [|by split].
    apply Exists_app. right. by apply Exists_cons_hd.
Qed.

End AdmittedRun.

(** The ten-thousand draw on pool 2 by a user who can pay for it. *)
Lemma ten_thousand_gacha_answers_and_frees_the_slot_witness :
  ∃ rest w',
    ten_thousand_gacha Sample.quiet Sample.ten_thousand_on_pool_2
      (Sample.world 100000000 Sample.empty_db)
    = (Val (ReplyStarting (100 * 10000) :: rest), w')
    ∧ Exists closing_reply rest
    ∧ ten_thousand_gacha_lock w' = false
    ∧ ten_thousand_gacha_user w' = None.
Proof.
  apply (ten_thousand_gacha_answers_and_frees_the_slot Sample.quiet
           Sample.ten_thousand_on_pool_2 (Sample.world 100000000 Sample.empty_db)
           "2" 2 Sample.coins_pool (Sample.alice 100000000)).
  - reflexivity.
  - reflexivity.
  - simpl. lia.
  - reflexivity.
  - reflexivity.
  - reflexivity.
  - simpl. lia.
Defined.


Section QuietRun.

Variable env : nat → World → World.

(** While this handler is suspended, the other handlers leave the users
    and the pools alone. *)
Hypothesis env_keeps : ∀ k w, users (env k w) = users w ∧ pools (env k w) = pools w.

Variables (uid : string) (pool_id : Z) (pool_info : GachaPool).

(** The loop when no batch fails: every batch is charged to the balance in
    the store, and the coins drawn are added to it. *)
Lemma sub_batches_all_charged (batches : list Z) :
  ∀ (st : Locals) (w : World) (u : User) (st' : Locals) (w' : World),
    users w !! uid = Some u →
    user_id u = uid →
    pools w !! pool_id = Some pool_info →
    Forall (λ batch, 0 ≤ batch) batches →
    sub_batches env uid pool_id pool_info batches st w = (Val (Completed, st'), w') →
    failed_at_batch st ≤ 0 →
    failed_at_batch st' ≤ 0 →
    processed st' = processed st + Z.of_nat (length batches) * batch_size
    ∧ ∃ u', users w' !! uid = Some u' ∧ user_id u' = uid
            ∧ coins u' + coins_granted (total_results st)
              + (processed st' - processed st) * cost_coins pool_info
              = coins u + coins_granted (total_results st').
Proof.
  induction batches as [|batch rest IH];
    intros st w u st' w' Hu Hid Hp Hbatches Hrun Hfresh Hdone.
  - cbn in Hrun. injection Hrun as <- <-. split; [cbn; lia|].
    exists u. repeat split; [exact Hu | exact Hid | lia].
  - apply Forall_cons in Hbatches as [Hbatch Hbatches].
    rewrite sub_batches_cons in Hrun.
    pose proof (perform_draw_run uid pool_id batch_size w u pool_info Hu Hid Hp) as Hdraw.
    cbv zeta in Hdraw.
    destruct (perform_draw uid pool_id batch_size w) as [[[results|message]|] w1].
    + destruct Hdraw as [Husers Hpools]. cbv zeta in Hrun.
      set (u1 := with_coins (coins u - cost_coins pool_info * batch_size
                             + coins_granted results) u) in *.
      assert (∀ w2, users w2 = users w1 → pools w2 = pools w1 →
                    users w2 !! uid = Some u1 ∧ pools w2 !! pool_id = Some pool_info)
        as Hnext.
      { intros w2 -> ->. rewrite Husers, Hpools, lookup_insert_eq. by split. }
      destruct (decide (batch < 4)).
      * destruct (env_keeps (Z.to_nat (batch + 1)) w1) as [Heu Hep].
        destruct (Hnext _ Heu Hep) as [Hu1 Hp1].
        destruct (IH _ _ u1 _ _ Hu1 Hid Hp1 Hbatches Hrun Hfresh Hdone)
          as (Hprocessed & u' & Hu' & Hid' & Hcoins).
        cbn [processed total_results] in Hprocessed, Hcoins.
        split; [cbn [length]; lia|].
        exists u'. repeat split; [exact Hu' | exact Hid'|].
        rewrite coins_granted_app in Hcoins. cbn [coins with_coins u1] in Hcoins.
        unfold u1 in Hcoins. cbn [coins with_coins] in Hcoins. lia.
      * destruct (Hnext w1 eq_refl eq_refl) as [Hu1 Hp1].
        destruct (IH _ _ u1 _ _ Hu1 Hid Hp1 Hbatches Hrun Hfresh Hdone)
          as (Hprocessed & u' & Hu' & Hid' & Hcoins).
        cbn [processed total_results] in Hprocessed, Hcoins.
        split; [cbn [length]; lia|].
        exists u'. repeat split; [exact Hu' | exact Hid'|].
        rewrite coins_granted_app in Hcoins.
        unfold u1 in Hcoins. cbn [coins with_coins] in Hcoins. lia.
    + cbv zeta in Hrun.
      destruct (decide (0 < (5 - batch) * batch_size * cost_coins pool_info));
        injection Hrun as <- <-; cbn [failed_at_batch] in Hdone; lia.
    + discriminate.
Qed.

(** The refund after an exception answers with one message, and it is not
    the summary. *)
Lemma refund_after_exception_reply pool total_cost st w :
  ∃ reply w',
    refund_after_exception uid pool total_cost st w = (Val [reply], w')
    ∧ match reply with ReplySummary _ _ _ _ _ => False | _ => True end.
Proof.
  unfold refund_after_exception, try_except.
  destruct (decide (processed st = 0)).
  - unfold bind at 1, user_repo_get_by_id, gets.
    destruct (users w !! uid) as [fresh|]; [|by eexists _, _].
    unfold bind, user_repo_update, emit, modify, ret. cbn. by eexists _, _.
  - unfold bind at 1.
    destruct (decide (0 < total_cost - processed st * cost_coins pool)).
    + unfold bind at 1, user_repo_get_by_id, gets.
      destruct (users w !! uid) as [fresh|]; [|by eexists _, _].
      unfold bind, user_repo_update, emit, modify, ret. cbn. by eexists _, _.
    + cbn. by eexists _, _.
Qed.

Lemma last_of_replies (first : Reply) (middle : list Reply) (final : Reply) :
  last (first :: middle ++ [final]) = Some final.
Proof. change (first :: middle ++ [final]) with ((first :: middle) ++ [final]). apply last_snoc. Qed.

End QuietRun.

Section CompleteRun.

Variable env : nat → World → World.
Hypothesis env_keeps : ∀ k w, users (env k w) = users w ∧ pools (env k w) = pools w.

(** A run of the ten-thousand draw that ends with the summary of a complete
    run (no batch failed), while the other handlers leave the users and the
    pools alone: the summary reports 10000 draws, no refund, and as cost
    the total that the start message announced; and the balance of the
    caller in the store is the balance at the start less that cost plus
    the coins among the rewards of the summary. *)
Theorem ten_thousand_gacha_complete_run_is_charged (event : Event) (w : World) (u : User) :
  users w !! sender_id event = Some u →
  user_id u = sender_id event →
  match ten_thousand_gacha env event w with
  | (Val replies, w') =>
      match last replies with
      | Some (ReplySummary failed actual_draws actual_cost refunded_cost results) =>
          failed ≤ 0 →
          head replies = Some (ReplyStarting actual_cost)
          ∧ actual_draws = 10000 ∧ refunded_cost = 0
          ∧ ∃ u', users w' !! sender_id event = Some u'
                  ∧ coins u' = coins u - actual_cost + coins_granted results
      | _ => True
      end
  | (Exn, _) => True
  end.
Proof.
  intros Hu Hid. unfold ten_thousand_gacha, bind at 1, gets.
  destruct (ten_thousand_gacha_lock w).
  - unfold bind at 1. destruct (decide (ten_thousand_gacha_user w = Some (sender_id event)));
      [exact I|].
    unfold bind. destruct (ten_thousand_gacha_user w) as [current|]; [|exact I].
    destruct (decide (current = "")); [exact I|].
    unfold user_repo_get_by_id, gets. exact I.
  - destruct (decide (length (split_space (message_str event)) < 2)%nat); [exact I|].
    destruct (parse_digits (nth 1 (split_space (message_str event)) "")) as [pool_id|];
      [|exact I].
    unfold bind at 1, gacha_repo_get_pool_by_id, gets.
    destruct (pools w !! pool_id) as [pool_info|] eqn:Hp; [|exact I].
    unfold bind at 1, user_repo_get_by_id, gets. rewrite Hu.
    destruct (negb (can_afford u (cost_coins pool_info * 10000))); [exact I|].
    unfold bind at 1, suspend, modify. unfold bind at 1. unfold bind at 1.
    destruct (env_keeps 0%nat w) as [Heu Hep].
    match goal with
    | |- context [sub_batches env ?i ?p ?info ?bs ?st ?w0] =>
        pose proof (sub_batches_all_charged env env_keeps i p info bs st w0 u) as Hloop;
        destruct (sub_batches_returns env i p info bs st w0) as (exit & st' & w1 & Hrun);
        rewrite Hrun
    end.
    destruct exit.
    + unfold bind, release_lock, modify, ret. cbn [suspend]. rewrite last_of_replies.
      intros Hdone. cbn [head].
      destruct (Hloop st' w1) as (Hprocessed & u' & Hu' & _ & Hcoins);
        [by rewrite <- Hu, <- Heu | exact Hid | by rewrite <- Hp, <- Hep | | exact Hrun
        | cbn; lia | exact Hdone |].
      { change (seqZ 0 5) with [0; 1; 2; 3; 4]. repeat constructor; lia. }
      cbn in Hprocessed, Hcoins. unfold batch_size in Hprocessed.
      rewrite bool_decide_eq_false_2 by lia.
      change (length (seqZ 0 5)) with 5%nat in Hprocessed.
      assert (processed st' = 10000) as Hall by lia. rewrite Hall in *.
      split; [f_equal; f_equal; lia|]. split; [reflexivity|]. split; [reflexivity|].
      exists u'. split; [|lia].
      destruct (env_keeps 5%nat w1) as [Heu5 _]. cbn. by rewrite Heu5.
    + unfold bind at 1. unfold bind at 1.
      destruct (refund_after_exception_reply (sender_id event) pool_info
                  (cost_coins pool_info * 10000) st' w1) as (reply & w2 & -> & Hreply).
      unfold bind, release_lock, modify, ret. rewrite last_of_replies.
      by destruct reply.
Qed.

End CompleteRun.

(** The ten-thousand draw on pool 2 by a user who can pay for it. *)
Lemma ten_thousand_gacha_complete_run_is_charged_witness :
  match ten_thousand_gacha Sample.quiet Sample.ten_thousand_on_pool_2
          (Sample.world 100000000 Sample.empty_db) with
  | (Val replies, w') =>
      match last replies with
      | Some (ReplySummary failed actual_draws actual_cost refunded_cost results) =>
          failed ≤ 0 →
          head replies = Some (ReplyStarting actual_cost)
          ∧ actual_draws = 10000 ∧ refunded_cost = 0
          ∧ ∃ u', users w' !! "alice" = Some u'
                  ∧ coins u' = 100000000 - actual_cost + coins_granted results
      | _ => True
      end
  | (Exn, _) => True
  end.
Proof.
  apply (ten_thousand_gacha_complete_run_is_charged Sample.quiet
           (λ k w, conj eq_refl eq_refl) Sample.ten_thousand_on_pool_2
           (Sample.world 100000000 Sample.empty_db) (Sample.alice 100000000));
    reflexivity.
Defined.

(** That run in full: five batches of 2000 draws at 100 coins, each draw
    giving 10 coins. *)
Example ten_thousand_gacha_complete_run :
  match ten_thousand_gacha Sample.quiet Sample.ten_thousand_on_pool_2
          (Sample.world 100000000 Sample.empty_db) with
  | (Val replies, w') =>
      (∃ results, last replies
                  = Some (ReplySummary (-1) 10000 1000000 0 results)
                  ∧ coins_granted results = 100000)
      ∧ coins <$> users w' !! "alice" = Some 99100000
  | (Exn, _) => False
  end.
Proof. vm_compute. split; [eexists; split; reflexivity | reflexivity]. Qed.

(** ** More of the fish inventory, the bait inventory and the rods *)

Lemma filter_fish_rows_ext (P Q : UserFishInventoryItem → Prop)
    `{!∀ ufi, Decision (P ufi)} `{!∀ ufi, Decision (Q ufi)}
    (rows : list UserFishInventoryItem) :
  (∀ ufi, ufi ∈ rows → P ufi → Q ufi) →
  filter P (filter Q rows) = filter P rows.
Proof.
  intros Himpl. induction rows as [|r rows IH]; [reflexivity|].
  assert (filter P (filter Q rows) = filter P rows) as IH'
    by (apply IH; intros x Hx; apply Himpl; by apply list_elem_of_further).
  destruct (decide (Q r)) as [Hq|Hq].
  - rewrite (filter_cons_True Q) by exact Hq.
    destruct (decide (P r)) as [Hp|Hp].
    + rewrite !(filter_cons_True P) by exact Hp. by rewrite IH'.
    + rewrite !(filter_cons_False P) by exact Hp. exact IH'.
  - rewrite (filter_cons_False Q) by exact Hq.
    rewrite (filter_cons_False P); [exact IH'|].
    intros Hp. apply Hq. apply Himpl; [apply list_elem_of_here | exact Hp].
Qed.

(** The upsert of [update_fish_quantity] changes rows of [uid] only. *)
Lemma upsert_fish_floored_others uid fid delta other d :
  other ≠ uid →
  select_fish_inventory other (upsert_fish_floored uid fid delta d)
  = select_fish_inventory other d.
Proof.
  intros Hother. unfold select_fish_inventory, upsert_fish_floored.
  cbn [user_fish_inventory set_user_fish_inventory].
  destruct (decide (Exists (is_fish_row uid fid) (user_fish_inventory d))) as [Hex|Hno].
  - clear Hex. induction (user_fish_inventory d) as [|r rows IH]; [reflexivity|].
    rewrite fmap_cons. destruct (decide (is_fish_row uid fid r)) as [[Hu Hf]|Hrow].
    + rewrite !filter_cons_False by (cbn; intros [Hu' _]; congruence). exact IH.
    + destruct (decide (fish_user_id r = other ∧ 0 < fish_quantity r)) as [Hin|Hout].
      * rewrite !filter_cons_True by exact Hin. by rewrite IH.
      * rewrite !filter_cons_False by exact Hout. exact IH.
  - rewrite filter_app, filter_cons_False, filter_nil, app_nil_r; [reflexivity|].
    cbn. intros [Hu _]. congruence.
Qed.

(** Once the empty rows of [uid] are deleted, the rows of [uid] with a
    positive quantity are all the rows of [uid]. *)
Lemma no_empty_fish_rows_selected uid (rows : list UserFishInventoryItem) :
  filter (λ ufi, fish_user_id ufi = uid ∧ 0 < fish_quantity ufi)
         (filter (λ ufi, ¬ (fish_user_id ufi = uid ∧ fish_quantity ufi ≤ 0)) rows)
  = filter (λ ufi, fish_user_id ufi = uid)
           (filter (λ ufi, ¬ (fish_user_id ufi = uid ∧ fish_quantity ufi ≤ 0)) rows).
Proof.
  induction rows as [|r rows IH]; [reflexivity|].
  destruct (decide (fish_user_id r = uid ∧ fish_quantity r ≤ 0)) as [Hgone|Hkept].
  - rewrite filter_cons_False by (intros H; by apply H). exact IH.
  - rewrite (filter_cons_True (λ ufi, ¬ (fish_user_id ufi = uid ∧ fish_quantity ufi ≤ 0)))
      by exact Hkept.
    destruct (decide (fish_user_id r = uid)) as [Hu|Hu].
    + rewrite !filter_cons_True; [by rewrite IH | exact Hu |].
      split; [exact Hu|]. destruct (decide (fish_quantity r ≤ 0)); [tauto | lia].
    + rewrite !filter_cons_False; [exact IH | exact Hu | by intros [H _]].
Qed.

(** [update_fish_quantity] leaves the user no row of quantity 0 or less,
    so that [get_fish_inventory] then returns every row the user has; the
    rows that [get_fish_inventory] returns for any other user are as
    before, and a key [(user_id, fish_id)] that was unique is still
    unique.  When it raises the database is as it was. *)
Theorem update_fish_quantity_leaves_no_empty_row (uid : string) (fid delta : Z) (w : World) :
  match update_fish_quantity uid fid delta w with
  | (Val _, w') =>
      match get_fish_inventory uid w' with
      | (Val inventory, _) =>
          inventory = filter (λ ufi, fish_user_id ufi = uid) (user_fish_inventory (db w'))
      | (Exn, _) => True
      end
      ∧ (∀ other, other ≠ uid →
           select_fish_inventory other (db w') = select_fish_inventory other (db w))
      ∧ (fish_keys_unique (db w) → fish_keys_unique (db w'))
  | (Exn, w') => db w' = db w
  end.
Proof.
  unfold update_fish_quantity. run_sql. split_faults; try reflexivity.
  split; [|split].
  - unfold get_fish_inventory. run_sql. split_faults; [exact I|].
    unfold select_fish_inventory, delete_empty_fish.
    cbn [user_fish_inventory set_user_fish_inventory].
    apply no_empty_fish_rows_selected.
  - intros other Hother.
    rewrite <- (upsert_fish_floored_others uid fid delta other (db w) Hother).
    unfold select_fish_inventory, delete_empty_fish.
    cbn [user_fish_inventory set_user_fish_inventory].
    apply filter_fish_rows_ext. intros r _ [Hu _] [Hu' _]. congruence.
  - unfold fish_keys_unique, delete_empty_fish, upsert_fish_floored.
    cbn [user_fish_inventory set_user_fish_inventory]. intros Hkeys.
    assert (∀ rows : list UserFishInventoryItem,
               NoDup ((λ ufi, (fish_user_id ufi, fish_id ufi)) <$> rows) →
               NoDup ((λ ufi, (fish_user_id ufi, fish_id ufi))
                        <$> filter (λ ufi, ¬ (fish_user_id ufi = uid ∧ fish_quantity ufi ≤ 0))
                                   rows)) as Hfilter.
    { intros rows. induction rows as [|r rows IH]; [done|].
      rewrite fmap_cons. intros [Hr Hrows]%NoDup_cons.
      destruct (decide (¬ (fish_user_id r = uid ∧ fish_quantity r ≤ 0))) as [Hkept|Hgone].
      - rewrite filter_cons_True by exact Hkept. rewrite fmap_cons. apply NoDup_cons.
        split; [|by apply IH]. intros Hin. apply Hr.
        apply list_elem_of_fmap in Hin as (x & -> & Hx).
        apply list_elem_of_filter in Hx as [_ Hx]. apply list_elem_of_fmap. by exists x.
      - rewrite filter_cons_False by exact Hgone. by apply IH. }
    apply Hfilter.
    destruct (decide (Exists (is_fish_row uid fid) (user_fish_inventory (db w)))) as [Hex|Hno].
    + rewrite <- list_fmap_compose.
      erewrite list_fmap_ext; [exact Hkeys|]. intros _ r _. cbn.
      by destruct (decide (is_fish_row uid fid r)).
    + rewrite fmap_app. apply NoDup_app. split; [exact Hkeys|].
      split; [|apply NoDup_singleton].
      intros key Hin Hnew. apply list_elem_of_singleton in Hnew as ->.
      apply Hno. apply list_elem_of_fmap in Hin as (r & Heq & Hin).
      apply Exists_exists. exists r. split; [exact Hin|].
      cbn in Heq. injection Heq as -> ->. by split.
Qed.

Lemma filter_nothing {A} (P : A → Prop) `{!∀ x, Decision (P x)} (l : list A) :
  Forall (λ x, ¬ P x) l → filter P l = [].
Proof.
  intros Hl. induction l as [|x l IH]; [reflexivity|].
  apply Forall_cons in Hl as [Hx Hl]. rewrite filter_cons_False by exact Hx. by apply IH.
Qed.

(** The dictionary built from rows whose bait ids are distinct maps a bait
    to the quantity of its row. *)
Lemma bait_dictionary_lookup (rows : list UserBaitRow) (bid : Z) :
  ∀ inventory : gmap Z Z,
    NoDup (bait_id <$> rows) →
    foldl (λ inventory r, <[bait_id r := bait_quantity r]> inventory) inventory rows !! bid
    = match head (filter (λ r, bait_id r = bid) rows) with
      | Some r => Some (bait_quantity r)
      | None => inventory !! bid
      end.
Proof.
  induction rows as [|r rows IH]; intros inventory Hids; [reflexivity|].
  rewrite fmap_cons in Hids. apply NoDup_cons in Hids as [Hr Hids].
  cbn [foldl]. rewrite (IH _ Hids).
  destruct (decide (bait_id r = bid)) as [Hb|Hb].
  - rewrite filter_cons_True by exact Hb. cbn [head].
    assert (filter (λ r, bait_id r = bid) rows = []) as ->.
    { apply filter_nothing, Forall_forall. intros x Hx Hxb.
      apply Hr. rewrite Hb, <- Hxb. apply list_elem_of_fmap. by exists x. }
    cbn [head]. rewrite Hb. apply lookup_insert_eq.
  - rewrite filter_cons_False by exact Hb.
    destruct (head (filter (λ r, bait_id r = bid) rows)); [reflexivity|].
    by apply lookup_insert_ne.
Qed.

Lemma filter_bait_rows_of_user uid bid (rows : list UserBaitRow) :
  filter (λ r, bait_id r = bid) (filter (λ r, bait_user_id r = uid) rows)
  = filter (is_bait_row uid bid) rows.
Proof.
  induction rows as [|r rows IH]; [reflexivity|].
  destruct (decide (bait_user_id r = uid)) as [Hu|Hu].
  - rewrite (filter_cons_True (λ r, bait_user_id r = uid)) by exact Hu.
    destruct (decide (bait_id r = bid)) as [Hb|Hb].
    + rewrite !filter_cons_True by done. by rewrite IH.
    + rewrite !filter_cons_False by (try exact Hb; by intros [_ H]). exact IH.
  - rewrite (filter_cons_False (λ r, bait_user_id r = uid)) by exact Hu.
    rewrite (filter_cons_False (is_bait_row uid bid)) by (by intros [H _]). exact IH.
Qed.

Lemma bait_ids_of_user_unique uid (rows : list UserBaitRow) :
  NoDup ((λ r, (bait_user_id r, bait_id r)) <$> rows) →
  NoDup (bait_id <$> filter (λ r, bait_user_id r = uid) rows).
Proof.
  induction rows as [|r rows IH]; [intros _; apply NoDup_nil_2|].
  rewrite fmap_cons. intros [Hr Hrows]%NoDup_cons.
  destruct (decide (bait_user_id r = uid)) as [Hu|Hu].
  - rewrite filter_cons_True by exact Hu. rewrite fmap_cons. apply NoDup_cons.
    split; [|by apply IH]. intros Hin. apply Hr.
    apply list_elem_of_fmap in Hin as (x & Hb & Hx).
    apply list_elem_of_filter in Hx as [Hxu Hx].
    apply list_elem_of_fmap. exists x. split; [by rewrite Hb, Hu, Hxu | exact Hx].
  - rewrite filter_cons_False by exact Hu. by apply IH.
Qed.

(** In a table whose key is unique, a row is the only row of its key. *)
Lemma bait_row_of_key uid bid r (rows : list UserBaitRow) :
  NoDup ((λ r, (bait_user_id r, bait_id r)) <$> rows) →
  r ∈ rows → is_bait_row uid bid r →
  filter (is_bait_row uid bid) rows = [r].
Proof.
  induction rows as [|x rows IH]; intros Hkeys Hin Hrow; [by apply elem_of_nil in Hin|].
  rewrite fmap_cons in Hkeys. apply NoDup_cons in Hkeys as [Hx Hkeys].
  destruct Hrow as [Hu Hb].
  apply elem_of_cons in Hin as [->|Hin].
  - rewrite filter_cons_True by (by split). f_equal.
    apply filter_nothing, Forall_forall. intros y Hy [Hyu Hyb]. apply Hx.
    apply list_elem_of_fmap. exists y. split; [by rewrite Hu, Hb, Hyu, Hyb | exact Hy].
  - rewrite filter_cons_False; [by apply IH|].
    intros [Hxu Hxb]. apply Hx. apply list_elem_of_fmap. exists r.
    split; [by rewrite Hu, Hb, Hxu, Hxb | exact Hin].
Qed.

(** The reads of the bait inventory agree.  On a table whose key
    [(user_id, bait_id)] is unique, the dictionary that
    [get_user_bait_inventory] returns maps each bait to the quantity of
    the row of the user for it, the one the [SELECT] of the batch update
    reads, and has no entry for a bait without a row; and the baits that
    [get_user_disposable_baits] lists are the baits that the dictionary
    maps to a positive quantity.  Neither read changes the database. *)
Theorem bait_inventory_reads_agree (uid : string) (w : World) :
  bait_keys_unique (db w) →
  match get_user_bait_inventory uid w with
  | (Val inventory, w') =>
      db w' = db w
      ∧ (∀ bid, inventory !! bid = select_bait_quantity uid bid (db w))
      ∧ match get_user_disposable_baits uid w' with
        | (Val disposable, w'') =>
            db w'' = db w
            ∧ ∀ bid, bid ∈ disposable ↔ ∃ q, inventory !! bid = Some q ∧ 0 < q
        | (Exn, w'') => db w'' = db w
        end
  | (Exn, w') => db w' = db w
  end.
Proof.
  intros Hkeys. unfold get_user_bait_inventory. run_sql. split_faults; [reflexivity|].
  assert (∀ bid, select_bait_inventory uid (db w) !! bid = select_bait_quantity uid bid (db w))
    as Hlookup.
  { intros bid. unfold select_bait_inventory, select_bait_quantity.
    rewrite bait_dictionary_lookup by (by apply bait_ids_of_user_unique).
    rewrite filter_bait_rows_of_user, lookup_empty.
    by destruct (filter (is_bait_row uid bid) (user_bait_inventory (db w))). }
  split; [reflexivity|]. split; [exact Hlookup|].
  unfold get_user_disposable_baits. run_sql. split_faults; [reflexivity|].
  split; [reflexivity|]. intros bid. rewrite Hlookup.
  unfold select_disposable_baits, select_bait_quantity. split.
  - intros Hin. apply list_elem_of_fmap in Hin as (r & -> & Hr).
    apply list_elem_of_filter in Hr as [[Hu Hq] Hr].
    rewrite (bait_row_of_key uid (bait_id r) r _ Hkeys Hr) by done.
    by exists (bait_quantity r).
  - intros (q & Hsel & Hq).
    destruct (filter (is_bait_row uid bid) (user_bait_inventory (db w)))
      as [|r rest] eqn:Hrows; [discriminate|].
    cbn in Hsel. injection Hsel as <-.
    assert (r ∈ filter (is_bait_row uid bid) (user_bait_inventory (db w))) as Hfil
      by (rewrite Hrows; apply list_elem_of_here).
    apply list_elem_of_filter in Hfil as [[Hu Hb] Hr].
    apply list_elem_of_fmap. exists r. split; [by rewrite Hb|].
    apply list_elem_of_filter. by repeat split.
Qed.

(** The three reads on the inventory of a user who holds five worms. *)
Lemma bait_inventory_reads_agree_witness :
  match get_user_bait_inventory "alice" (Sample.world 0 Sample.bait_db) with
  | (Val inventory, w') =>
      db w' = Sample.bait_db
      ∧ (∀ bid, inventory !! bid = select_bait_quantity "alice" bid Sample.bait_db)
      ∧ match get_user_disposable_baits "alice" w' with
        | (Val disposable, w'') =>
            db w'' = Sample.bait_db
            ∧ ∀ bid, bid ∈ disposable ↔ ∃ q, inventory !! bid = Some q ∧ 0 < q
        | (Exn, w'') => db w'' = Sample.bait_db
        end
  | (Exn, w') => db w' = Sample.bait_db
  end.
Proof.
  apply (bait_inventory_reads_agree "alice" (Sample.world 0 Sample.bait_db)).
  unfold bait_keys_unique. simpl. apply NoDup_singleton.
Defined.

(** What [select_rod_instance] finds after the [UPDATE] of
    [update_rod_instance]. *)
Lemma select_after_update_rod (rod_instance : UserRodInstance) uid instance_id
    (rows : list UserRodInstance) d :
  select_rod_instance uid instance_id
    (update_rod rod_instance (set_user_rods rows (rod_seq d) d))
  = if decide (uid = rod_user_id rod_instance ∧ instance_id = rod_instance_id rod_instance)
    then (λ _, rod_instance)
           <$> select_rod_instance uid instance_id (set_user_rods rows (rod_seq d) d)
    else select_rod_instance uid instance_id (set_user_rods rows (rod_seq d) d).
Proof.
  unfold select_rod_instance, update_rod. cbn [user_rods set_user_rods].
  induction rows as [|r rows IH].
  - by destruct (decide (uid = rod_user_id rod_instance
                         ∧ instance_id = rod_instance_id rod_instance)).
  - rewrite fmap_cons.
    destruct (decide (rod_instance_id r = rod_instance_id rod_instance
                      ∧ rod_user_id r = rod_user_id rod_instance)) as [[Hi Hu]|Hrow].
    + destruct (decide (uid = rod_user_id rod_instance
                        ∧ instance_id = rod_instance_id rod_instance)) as [[-> ->]|Hother].
      * rewrite !filter_cons_True by (by split). cbn. f_equal.
        destruct rod_instance; cbn in *. by rewrite Hi, Hu.
      * rewrite !filter_cons_False by (cbn; intros [? ?]; apply Hother; split; congruence).
        exact IH.
    + destruct (decide (rod_user_id r = uid ∧ rod_instance_id r = instance_id))
        as [[Hu Hi]|Hnot].
      * rewrite !filter_cons_True by (by split). cbn.
        rewrite decide_False; [reflexivity|]. intros [-> ->]. by apply Hrow.
      * rewrite !filter_cons_False by exact Hnot. exact IH.
Qed.

(** Update, then look up: [update_rod_instance] writes the rod, the
    equipped flag, the durability and the refine level of the instance it
    is passed into the row that has its id and its user.  When it returns,
    the ids and the users of the rows of [user_rods] are as before, in
    order; [get_user_rod_instance_by_id] for that user and id returns the
    instance passed if there was such a row and nothing otherwise (no row
    is created); and what it returns for any other user or id is as
    before.  When it raises the database is as it was. *)
Theorem update_rod_instance_then_get (rod_instance : UserRodInstance) (w : World) :
  match update_rod_instance rod_instance w with
  | (Val _, w') =>
      rod_instance_id <$> user_rods (db w') = rod_instance_id <$> user_rods (db w)
      ∧ rod_user_id <$> user_rods (db w') = rod_user_id <$> user_rods (db w)
      ∧ match get_user_rod_instance_by_id (rod_user_id rod_instance)
                (rod_instance_id rod_instance) w' with
        | (Val found, _) =>
            found = (λ _, rod_instance)
                      <$> select_rod_instance (rod_user_id rod_instance)
                            (rod_instance_id rod_instance) (db w)
        | (Exn, _) => True
        end
      ∧ (∀ uid instance_id,
           ¬ (uid = rod_user_id rod_instance ∧ instance_id = rod_instance_id rod_instance) →
           select_rod_instance uid instance_id (db w')
           = select_rod_instance uid instance_id (db w))
  | (Exn, w') => db w' = db w
  end.
Proof.
  unfold update_rod_instance. run_sql. split_faults; try reflexivity.
  pose proof (λ uid instance_id,
                select_after_update_rod rod_instance uid instance_id
                  (user_rods (db w)) (db w)) as Hselect.
  rewrite set_user_rods_same in Hselect.
  split; [|split; [|split]].
  - unfold update_rod. cbn [user_rods set_user_rods]. rewrite <- list_fmap_compose.
    apply list_fmap_ext. intros _ r _. cbn.
    by destruct (decide (rod_instance_id r = rod_instance_id rod_instance
                         ∧ rod_user_id r = rod_user_id rod_instance)).
  - unfold update_rod. cbn [user_rods set_user_rods]. rewrite <- list_fmap_compose.
    apply list_fmap_ext. intros _ r _. cbn.
    by destruct (decide (rod_instance_id r = rod_instance_id rod_instance
                         ∧ rod_user_id r = rod_user_id rod_instance)).
  - unfold get_user_rod_instance_by_id. run_sql. split_faults; [exact I|].
    rewrite Hselect. by rewrite decide_True.
  - intros uid instance_id Hother. rewrite Hselect. by rewrite decide_False.
Qed.

(** ** The legacy grant *)

(** The legacy [_grant_reward] writes one audit row for the item it is
    given, whatever its type and whether or not a template is found: when
    it returns, exactly one row was appended, with the user, the pool, the
    type, the id and the quantity of the item; when it raises, none was.
    A rod is inserted with no durability and refine level 1. *)
Theorem grant_reward_writes_one_audit_row
    (title_log_rarity : Title → Z) (uid : string) (item : GachaPoolItem) (w : World) :
  match _grant_reward title_log_rarity uid item w with
  | (Val _, w') =>
      (∃ row, gacha_records w' = gacha_records w ++ [row]
              ∧ rec_user_id row = uid ∧ rec_gacha_pool_id row = gacha_pool_id item
              ∧ rec_item_type row = item_type item ∧ rec_item_id row = item_id item
              ∧ rec_quantity row = quantity item)
      ∧ (item_type item = "rod" →
         user_rods (db w')
         = user_rods (db w) ++ [new_rod (rod_seq (db w) + 1) uid (item_id item) None 1])
  | (Exn, w') => gacha_records w' = gacha_records w
  end.
Proof.
  unfold _grant_reward, grant_one.
  destruct (decide (item_type item = "rod")) as [Hrod|Hrod];
    [|destruct (decide (item_type item = "accessory"));
      [|destruct (decide (item_type item = "bait"));
        [|destruct (decide (item_type item = "coins"));
          [|destruct (decide (item_type item = "titles"))]]]].
  - unfold add_rod_instance, log_repo_add_gacha_record, emit. run_sql.
    split_faults; try reflexivity.
    split; [eexists; repeat split | intros _; unfold insert_rods; cbn; by rewrite Z.add_0_r].
  - unfold add_accessory_instance, log_repo_add_gacha_record, emit. run_sql.
    split_faults; try reflexivity. split; [eexists; repeat split | done].
  - unfold update_bait_quantity, log_repo_add_gacha_record, emit. run_sql.
    split_faults; try reflexivity. split; [eexists; repeat split | done].
  - unfold user_repo_get_by_id, user_repo_update, log_repo_add_gacha_record, emit. run_sql.
    destruct (users w !! uid); simpl; [|reflexivity]. split; [eexists; repeat split | done].
  - unfold achievement_repo_grant_title_to_user, log_repo_add_gacha_record, emit. run_sql.
    split; [eexists; repeat split | done].
  - unfold log_repo_add_gacha_record, emit. run_sql. split; [eexists; repeat split | done].
Qed.

(** ** The market *)

Section MarketRuns.

Variable market_repo_get_listing_by_id : Z → M (option MarketListing).
Variable market_repo_remove_listing : Z → M unit.

(** The market repository keeps to its own tables. *)
Hypothesis get_listing_keeps : ∀ market_id w,
  market_kept w (market_repo_get_listing_by_id market_id w).2.
Hypothesis remove_listing_keeps : ∀ market_id w,
  market_kept w (market_repo_remove_listing market_id w).2.

(** Inserting a rod leaves the users and the templates alone. *)
Lemma add_rod_instance_keeps_users uid rid durability refine_level w :
  users (add_rod_instance uid rid durability refine_level w).2 = users w
  ∧ catalog (add_rod_instance uid rid durability refine_level w).2 = catalog w.
Proof. unfold add_rod_instance. run_sql. split_faults; by split. Qed.

Lemma add_accessory_instance_keeps_users uid aid refine_level w :
  users (add_accessory_instance uid aid refine_level w).2 = users w
  ∧ catalog (add_accessory_instance uid aid refine_level w).2 = catalog w.
Proof. unfold add_accessory_instance. run_sql. split_faults; by split. Qed.

(** A purchase, by outcome.  When [buy_market_item] succeeds, the listing
    was not the buyer's own, the buyer could afford the price, and the
    only change to the users is that the price has moved from the buyer to
    the seller; for a rod, one row was added to [user_rods] for the buyer,
    with the rod and the refine level of the listing and the durability of
    the rod's template.  When it refuses, the users and the inventory are
    unchanged. *)
Theorem buy_market_item_moves_the_price (buyer_id : string) (market_id : Z) (w : World) :
  match buy_market_item market_repo_get_listing_by_id market_repo_remove_listing
          buyer_id market_id w with
  | (Val MarketSuccess, w') =>
      ∃ buyer seller listing,
        users w !! buyer_id = Some buyer
        ∧ (market_repo_get_listing_by_id market_id w).1 = Val (Some listing)
        ∧ users w !! listing_user_id listing = Some seller
        ∧ buyer_id ≠ listing_user_id listing
        ∧ listing_price listing ≤ coins buyer
        ∧ users w'
          = <[user_id seller := with_coins (coins seller + listing_price listing) seller]>
              (<[user_id buyer := with_coins (coins buyer - listing_price listing) buyer]>
                 (users w))
        ∧ (listing_item_type listing = "rod" →
           user_rods (db w')
           = user_rods (db w)
             ++ [new_rod (rod_seq (db w) + 1) buyer_id (listing_item_id listing)
                         (listed_rod_durability (catalog w) listing)
                         (listing_refine_level listing)])
  | (Val (MarketFailure _), w') => users w' = users w ∧ db w' = db w
  | (Exn, _) => True
  end.
Proof.
  unfold buy_market_item, bind at 1, user_repo_get_by_id at 1, gets.
  destruct (users w !! buyer_id) as [buyer|] eqn:Hbuyer; [|by split].
  unfold bind at 1.
  destruct (get_listing_keeps market_id w) as (Husers1 & Hdb1 & Hcat1).
  destruct (market_repo_get_listing_by_id market_id w) as [[[listing|]|] w1] eqn:Hget;
    cbn [snd] in *; [|by split | exact I].
  destruct (decide (buyer_id = listing_user_id listing)) as [Hown|Hother]; [by split|].
  unfold bind at 1, user_repo_get_by_id, gets. rewrite Husers1.
  destruct (users w !! listing_user_id listing) as [seller|] eqn:Hseller; [|by split].
  unfold can_afford.
  destruct (decide (listing_price listing ≤ coins buyer)) as [Hafford|Hshort];
    [rewrite bool_decide_eq_true_2 by exact Hafford
    | rewrite bool_decide_eq_false_2 by exact Hshort; by split].
  cbn [negb]. unfold bind at 1, user_repo_update at 1, bind at 1, emit, modify.
  cbn beta iota. unfold bind at 1, user_repo_update at 1, bind at 1, emit, modify.
  cbn beta iota. unfold bind at 1.
  match goal with
  | |- context [(if decide (listing_item_type listing = "rod") then _ else _) ?w0] =>
      set (w3 := w0)
  end.
  assert (users w3
          = <[user_id seller := with_coins (coins seller + listing_price listing) seller]>
              (<[user_id buyer := with_coins (coins buyer - listing_price listing) buyer]>
                 (users w))) as Husers3 by (unfold w3; cbn; by rewrite Husers1).
  assert (db w3 = db w) as Hdb3 by exact Hdb1.
  assert (catalog w3 = catalog w) as Hcat3 by exact Hcat1.
  clearbody w3.
  destruct (decide (listing_item_type listing = "rod")) as [Hrod|Hrod].
  - unfold bind at 1, gets. unfold bind at 1. rewrite Hcat3.
    pose proof (add_rod_instance_run buyer_id (listing_item_id listing)
                  (listed_rod_durability (catalog w) listing)
                  (listing_refine_level listing) w3) as Hadd.
    pose proof (add_rod_instance_keeps_users buyer_id (listing_item_id listing)
                  (listed_rod_durability (catalog w) listing)
                  (listing_refine_level listing) w3) as [Husers4 _].
    destruct (add_rod_instance _ _ _ _ w3) as [[instance|] w4]; [|exact I].
    destruct Hadd as [-> Hdb4]. cbn [snd ret] in *. unfold bind at 1.
    destruct (remove_listing_keeps market_id w4) as (Husers5 & Hdb5 & _).
    destruct (market_repo_remove_listing market_id w4) as [[[]|] w5]; [|exact I].
    cbn [snd ret] in *. exists buyer, seller, listing.
    repeat split; try assumption.
    + by rewrite Husers5, Husers4.
    + intros _. by rewrite Hdb5, Hdb4, Hdb3.
  - destruct (decide (listing_item_type listing = "accessory")).
    + unfold bind at 1.
      pose proof (add_accessory_instance_keeps_users buyer_id (listing_item_id listing)
                    (listing_refine_level listing) w3) as [Husers4 _].
      destruct (add_accessory_instance _ _ _ w3) as [[instance|] w4]; [|exact I].
      cbn [snd ret] in *. unfold bind at 1.
      destruct (remove_listing_keeps market_id w4) as (Husers5 & Hdb5 & _).
      destruct (market_repo_remove_listing market_id w4) as [[[]|] w5]; [|exact I].
      cbn [snd ret] in *. exists buyer, seller, listing.
      repeat split; try assumption; [by rewrite Husers5, Husers4 | done].
    + cbn [ret]. unfold bind at 1.
      destruct (remove_listing_keeps market_id w3) as (Husers5 & Hdb5 & _).
      destruct (market_repo_remove_listing market_id w3) as [[[]|] w5]; [|exact I].
      cbn [snd ret] in *. exists buyer, seller, listing.
      repeat split; try assumption; [by rewrite Husers5 | done].
Qed.

(** Taking an item off the market, by outcome.  When
    [remove_item_from_market] succeeds, the listing was the user's own and
    of a rod or an accessory, and no coins have moved; for a rod, one row
    was added to [user_rods] for the user, with the rod and the refine
    level of the listing and the durability of the rod's template.  When
    it refuses, the users and the inventory are unchanged. *)
Theorem remove_item_from_market_returns_the_item
    (uid : string) (market_id : Z) (w : World) :
  match remove_item_from_market market_repo_get_listing_by_id market_repo_remove_listing
          uid market_id w with
  | (Val MarketSuccess, w') =>
      ∃ listing,
        (market_repo_get_listing_by_id market_id w).1 = Val (Some listing)
        ∧ uid = listing_user_id listing
        ∧ (listing_item_type listing = "rod" ∨ listing_item_type listing = "accessory")
        ∧ users w' = users w
        ∧ (listing_item_type listing = "rod" →
           user_rods (db w')
           = user_rods (db w)
             ++ [new_rod (rod_seq (db w) + 1) uid (listing_item_id listing)
                         (listed_rod_durability (catalog w) listing)
                         (listing_refine_level listing)])
  | (Val (MarketFailure _), w') => users w' = users w ∧ db w' = db w
  | (Exn, _) => True
  end.
Proof.
  unfold remove_item_from_market, bind at 1, user_repo_get_by_id at 1, gets.
  destruct (users w !! uid) as [user|]; [|by split].
  unfold bind at 1.
  destruct (get_listing_keeps market_id w) as (Husers1 & Hdb1 & Hcat1).
  destruct (market_repo_get_listing_by_id market_id w) as [[[listing|]|] w1] eqn:Hget;
    cbn [snd] in *; [|by split | exact I].
  destruct (decide (uid ≠ listing_user_id listing)) as [Hother|Hown]; [by split|].
  apply dec_stable in Hown.
  destruct (decide (listing_item_type listing = "rod")) as [Hrod|Hrod].
  - unfold bind at 1, gets. unfold bind at 1. rewrite Hcat1.
    pose proof (add_rod_instance_run uid (listing_item_id listing)
                  (listed_rod_durability (catalog w) listing)
                  (listing_refine_level listing) w1) as Hadd.
    pose proof (add_rod_instance_keeps_users uid (listing_item_id listing)
                  (listed_rod_durability (catalog w) listing)
                  (listing_refine_level listing) w1) as [Husers4 _].
    destruct (add_rod_instance _ _ _ _ w1) as [[instance|] w4]; [|exact I].
    destruct Hadd as [-> Hdb4]. cbn [snd ret] in *. unfold bind at 1.
    destruct (remove_listing_keeps market_id w4) as (Husers5 & Hdb5 & _).
    destruct (market_repo_remove_listing market_id w4) as [[[]|] w5]; [|exact I].
    cbn [snd ret] in *. exists listing.
    repeat split; try assumption; [by left | by rewrite Husers5, Husers4, Husers1 |].
    intros _. by rewrite Hdb5, Hdb4, Hdb1.
  - destruct (decide (listing_item_type listing = "accessory")) as [Hacc|Hacc];
      [|by split].
    unfold bind at 1.
    pose proof (add_accessory_instance_keeps_users uid (listing_item_id listing)
                  (listing_refine_level listing) w1) as [Husers4 _].
    destruct (add_accessory_instance _ _ _ w1) as [[instance|] w4]; [|exact I].
    cbn [snd ret] in *. unfold bind at 1.
    destruct (remove_listing_keeps market_id w4) as (Husers5 & Hdb5 & _).
    destruct (market_repo_remove_listing market_id w4) as [[[]|] w5]; [|exact I].
    cbn [snd ret] in *. exists listing.
    repeat split; try assumption; [by right | by rewrite Husers5, Husers4, Husers1 | done].
Qed.

End MarketRuns.

(** Bob buys, for 300 coins, the rod that Alice has listed. *)
Lemma buy_market_item_moves_the_price_witness :
  match buy_market_item (one_listing SampleMarket.listed_rod) (λ _, ret tt) "bob" 1
          (SampleMarket.world_of_two 1000) with
  | (Val MarketSuccess, w') =>
      ∃ buyer seller listing,
        users (SampleMarket.world_of_two 1000) !! "bob" = Some buyer
        ∧ (one_listing SampleMarket.listed_rod 1 (SampleMarket.world_of_two 1000)).1
          = Val (Some listing)
        ∧ users (SampleMarket.world_of_two 1000) !! listing_user_id listing = Some seller
        ∧ "bob" ≠ listing_user_id listing
        ∧ listing_price listing ≤ coins buyer
        ∧ users w'
          = <[user_id seller := with_coins (coins seller + listing_price listing) seller]>
              (<[user_id buyer := with_coins (coins buyer - listing_price listing) buyer]>
                 (users (SampleMarket.world_of_two 1000)))
        ∧ (listing_item_type listing = "rod" →
           user_rods (db w')
           = user_rods (db (SampleMarket.world_of_two 1000))
             ++ [new_rod (rod_seq (db (SampleMarket.world_of_two 1000)) + 1) "bob"
                         (listing_item_id listing)
                         (listed_rod_durability (catalog (SampleMarket.world_of_two 1000)) listing)
                         (listing_refine_level listing)])
  | (Val (MarketFailure _), w') =>
      users w' = users (SampleMarket.world_of_two 1000) ∧ db w' = db (SampleMarket.world_of_two 1000)
  | (Exn, _) => True
  end.
Proof.
  apply (buy_market_item_moves_the_price (one_listing SampleMarket.listed_rod) (λ _, ret tt));
    intros market_id w; repeat split.
Defined.

(** Alice takes her rod off the market. *)
Lemma remove_item_from_market_returns_the_item_witness :
  match remove_item_from_market (one_listing SampleMarket.listed_rod) (λ _, ret tt) "alice" 1
          (SampleMarket.world_of_two 1000) with
  | (Val MarketSuccess, w') =>
      ∃ listing,
        (one_listing SampleMarket.listed_rod 1 (SampleMarket.world_of_two 1000)).1 = Val (Some listing)
        ∧ "alice" = listing_user_id listing
        ∧ (listing_item_type listing = "rod" ∨ listing_item_type listing = "accessory")
        ∧ users w' = users (SampleMarket.world_of_two 1000)
        ∧ (listing_item_type listing = "rod" →
           user_rods (db w')
           = user_rods (db (SampleMarket.world_of_two 1000))
             ++ [new_rod (rod_seq (db (SampleMarket.world_of_two 1000)) + 1) "alice"
                         (listing_item_id listing)
                         (listed_rod_durability (catalog (SampleMarket.world_of_two 1000)) listing)
                         (listing_refine_level listing)])
  | (Val (MarketFailure _), w') =>
      users w' = users (SampleMarket.world_of_two 1000) ∧ db w' = db (SampleMarket.world_of_two 1000)
  | (Exn, _) => True
  end.
Proof.
  apply (remove_item_from_market_returns_the_item (one_listing SampleMarket.listed_rod)
           (λ _, ret tt));
    intros market_id w; repeat split.
Defined.

(** The purchase in full: Bob has 1000 coins and Alice 50; the rod costs
    300; Bob ends with 700, Alice with 350, and Bob has the rod, at the
    durability of its template. *)
Example bob_buys_the_rod_of_alice :
  match buy_market_item (one_listing SampleMarket.listed_rod) (λ _, ret tt) "bob" 1
          (SampleMarket.world_of_two 1000) with
  | (Val MarketSuccess, w') =>
      coins <$> users w' !! "bob" = Some 700
      ∧ coins <$> users w' !! "alice" = Some 350
      ∧ user_rods (db w') = [new_rod 1 "bob" 1 (Some 100) 3]
  | _ => False
  end.
Proof. vm_compute. repeat split. Qed.

(** ** The refund after an exception *)

(** The [except] branch of the handler, by answer.  It never raises.  When
    nothing had been processed it adds the whole cost to the balance it
    reads at that moment and answers with the full refund; otherwise it
    adds what is left of the cost after the draws processed, if that is
    positive, and answers that the run was aborted; it answers that the
    refund failed only when the user is not found, and then the users are
    unchanged. *)
Theorem refund_after_exception_by_answer
    (uid : string) (pool_info : GachaPool) (total_cost : Z) (st : Locals) (w : World) :
  ∃ reply w',
    refund_after_exception uid pool_info total_cost st w = (Val [reply], w')
    ∧ match reply with
      | ReplyFullRefund amount =>
          processed st = 0 ∧ amount = total_cost
          ∧ ∃ fresh, users w !! uid = Some fresh
                     ∧ users w' = <[user_id fresh := with_coins (coins fresh + total_cost) fresh]>
                                    (users w)
      | ReplyAborted done remaining_cost =>
          processed st ≠ 0 ∧ done = processed st
          ∧ remaining_cost = total_cost - processed st * cost_coins pool_info
          ∧ if decide (0 < remaining_cost)
            then ∃ fresh, users w !! uid = Some fresh
                          ∧ users w' = <[user_id fresh :=
                                           with_coins (coins fresh + remaining_cost) fresh]>
                                         (users w)
            else users w' = users w
      | ReplyRefundFailed done =>
          done = processed st ∧ users w !! uid = None ∧ users w' = users w
      | _ => False
      end.
Proof.
  unfold refund_after_exception, try_except.
  destruct (decide (processed st = 0)) as [Hnone|Hsome].
  - unfold bind at 1, user_repo_get_by_id, gets.
    destruct (users w !! uid) as [fresh|] eqn:Hfresh; [|by eexists _, _].
    unfold bind, user_repo_update, emit, modify, ret. cbn.
    eexists _, _. split; [reflexivity|]. repeat split; try assumption. by exists fresh.
  - unfold bind at 1.
    destruct (decide (0 < total_cost - processed st * cost_coins pool_info)) as [Hpos|Hnot].
    + unfold bind at 1, user_repo_get_by_id, gets.
      destruct (users w !! uid) as [fresh|] eqn:Hfresh; [|by eexists _, _].
      unfold bind, user_repo_update, emit, modify, ret. cbn.
      eexists _, _. split; [reflexivity|]. repeat split; try assumption.
      rewrite decide_True by exact Hpos. by exists fresh.
    + cbn. eexists _, _. split; [reflexivity|]. repeat split; try assumption.
      by rewrite decide_False.
Qed.

(** ** Putting an item on sale *)

Lemma get_user_rod_instances_run uid w :
  match get_user_rod_instances uid w with
  | (Val user_items, w') =>
      user_items = select_rod_instances uid (db w) ∧ db w' = db w ∧ users w' = users w
  | (Exn, _) => True
  end.
Proof. unfold get_user_rod_instances. run_sql. split_faults; [exact I | by repeat split]. Qed.

Lemma get_user_accessory_instances_run uid w :
  match get_user_accessory_instances uid w with
  | (Val user_items, w') =>
      user_items = select_accessory_instances uid (db w) ∧ db w' = db w ∧ users w' = users w
  | (Exn, _) => True
  end.
Proof.
  unfold get_user_accessory_instances. run_sql. split_faults; [exact I | by repeat split].
Qed.

Lemma delete_rod_instance_run instance_id w :
  match delete_rod_instance instance_id w with
  | (Val _, w') => db w' = delete_rod instance_id (db w) ∧ users w' = users w
  | (Exn, _) => True
  end.
Proof. unfold delete_rod_instance. run_sql. split_faults; try exact I. by split. Qed.

Lemma delete_accessory_instance_run instance_id w :
  match delete_accessory_instance instance_id w with
  | (Val _, w') => db w' = delete_accessory instance_id (db w) ∧ users w' = users w
  | (Exn, _) => True
  end.
Proof. unfold delete_accessory_instance. run_sql. split_faults; try exact I. by split. Qed.

Lemma head_filter_elem_of {A} (P : A → Prop) `{!∀ x, Decision (P x)} (l : list A) (x : A) :
  head (filter P l) = Some x → x ∈ l ∧ P x.
Proof.
  intros Hhead. destruct (filter P l) as [|y rest] eqn:Hfilter; [discriminate|].
  injection Hhead as ->.
  assert (x ∈ filter P l) as Hin by (rewrite Hfilter; apply list_elem_of_here).
  apply list_elem_of_filter in Hin. tauto.
Qed.

Section ListingRuns.

Variable listing_tax : Z → Z.
Variable log_repo_add_tax_record : TaxRecord → M unit.
Variable market_repo_add_listing : MarketListing → M unit.

(** The log and the market repositories keep to their own tables. *)
Hypothesis add_tax_record_keeps : ∀ record w,
  market_kept w (log_repo_add_tax_record record w).2.
Hypothesis add_listing_keeps : ∀ listing w,
  market_kept w (market_repo_add_listing listing w).2.

(** The fee, its log row and the listing: the fee leaves the balance of
    the seller, and nothing else changes in the users or the inventory. *)
Lemma list_item_run uid seller item_type item_template_id price item_refine_level w :
  match list_item listing_tax log_repo_add_tax_record market_repo_add_listing
          uid seller item_type item_template_id price item_refine_level w with
  | (Val response, w') =>
      response = MarketSuccess
      ∧ users w' = <[user_id seller := with_coins (coins seller - listing_tax price) seller]>
                     (users w)
      ∧ db w' = db w
  | (Exn, _) => True
  end.
Proof.
  unfold list_item, bind at 1, user_repo_update, bind at 1, emit, modify. cbn beta iota.
  unfold bind at 1.
  match goal with
  | |- context [log_repo_add_tax_record ?record ?w0] =>
      destruct (add_tax_record_keeps record w0) as (Husers1 & Hdb1 & _);
      destruct (log_repo_add_tax_record record w0) as [[[]|] w1]; [|exact I]
  end.
  cbn [snd] in *. unfold bind at 1.
  match goal with
  | |- context [market_repo_add_listing ?listing w1] =>
      destruct (add_listing_keeps listing w1) as (Husers2 & Hdb2 & _);
      destruct (market_repo_add_listing listing w1) as [[[]|] w2]; [|exact I]
  end.
  cbn [snd ret] in *. split; [reflexivity|].
  split; [by rewrite Husers2, Husers1 | by rewrite Hdb2, Hdb1].
Qed.

(** [put_item_on_sale] guards the delete that has no owner in its
    condition.  When it succeeds, the price was positive, the seller could
    pay the fee and has paid it, and the item taken out of the inventory
    is an instance of the seller with the id passed that was not equipped:
    the rows left in the table are those of any other id, and the other
    table is untouched.  When it refuses, the users and the inventory are
    unchanged. *)
Theorem put_item_on_sale_takes_an_item_of_the_seller
    (uid item_type : string) (item_instance_id price : Z) (w : World) :
  match put_item_on_sale listing_tax log_repo_add_tax_record market_repo_add_listing
          uid item_type item_instance_id price w with
  | (Val MarketSuccess, w') =>
      0 < price
      ∧ (∃ seller, users w !! uid = Some seller ∧ listing_tax price ≤ coins seller
                   ∧ users w' = <[user_id seller :=
                                    with_coins (coins seller - listing_tax price) seller]>
                                  (users w))
      ∧ ((item_type = "rod"
          ∧ (∃ item, item ∈ user_rods (db w) ∧ rod_user_id item = uid
                     ∧ rod_instance_id item = item_instance_id
                     ∧ rod_is_equipped item = false)
          ∧ db w' = delete_rod item_instance_id (db w))
         ∨ (item_type = "accessory"
            ∧ (∃ item, item ∈ user_accessories (db w) ∧ accessory_user_id item = uid
                       ∧ accessory_instance_id item = item_instance_id
                       ∧ accessory_is_equipped item = false)
            ∧ db w' = delete_accessory item_instance_id (db w)))
  | (Val (MarketFailure _), w') => users w' = users w ∧ db w' = db w
  | (Exn, _) => True
  end.
Proof.
  unfold put_item_on_sale.
  destruct (decide (price ≤ 0)) as [Hprice|Hprice]; [by split|].
  unfold bind at 1, user_repo_get_by_id, gets.
  destruct (users w !! uid) as [seller|] eqn:Hseller; [|by split].
  unfold can_afford.
  destruct (decide (listing_tax price ≤ coins seller)) as [Hafford|Hshort];
    [rewrite bool_decide_eq_true_2 by exact Hafford
    | rewrite bool_decide_eq_false_2 by exact Hshort; by split].
  cbn [negb].
  destruct (decide (item_type = "rod")) as [Hrod|Hrod].
  - unfold bind at 1. pose proof (get_user_rod_instances_run uid w) as Hget.
    destruct (get_user_rod_instances uid w) as [[user_items|] w1]; [|exact I].
    destruct Hget as (-> & Hdb1 & Husers1).
    destruct (head (filter (λ i, rod_instance_id i = item_instance_id)
                           (select_rod_instances uid (db w)))) as [item|] eqn:Hitem;
      [|by split].
    apply head_filter_elem_of in Hitem as [Hin Hid].
    apply list_elem_of_filter in Hin as [Hu Hin].
    destruct (rod_is_equipped item) eqn:Hequipped; [by split|].
    unfold bind at 1. pose proof (delete_rod_instance_run item_instance_id w1) as Hdelete.
    destruct (delete_rod_instance item_instance_id w1) as [[[]|] w2]; [|exact I].
    destruct Hdelete as [Hdb2 Husers2].
    pose proof (list_item_run uid seller item_type (rod_id item) price
                  (rod_refine_level item) w2) as Hlist.
    destruct (list_item _ _ _ _ _ _ _ _ _ w2) as [[response|] w3]; [|exact I].
    destruct Hlist as (-> & Husers3 & Hdb3).
    split; [lia|]. split.
    + exists seller. repeat split; [exact Hafford|]. by rewrite Husers3, Husers2, Husers1.
    + left. split; [exact Hrod|]. split; [by exists item|].
      by rewrite Hdb3, Hdb2, Hdb1.
  - destruct (decide (item_type = "accessory")) as [Hacc|Hacc]; [|by split].
    unfold bind at 1. pose proof (get_user_accessory_instances_run uid w) as Hget.
    destruct (get_user_accessory_instances uid w) as [[user_items|] w1]; [|exact I].
    destruct Hget as (-> & Hdb1 & Husers1).
    destruct (head (filter (λ i, accessory_instance_id i = item_instance_id)
                           (select_accessory_instances uid (db w)))) as [item|] eqn:Hitem;
      [|by split].
    apply head_filter_elem_of in Hitem as [Hin Hid].
    apply list_elem_of_filter in Hin as [Hu Hin].
    destruct (accessory_is_equipped item) eqn:Hequipped; [by split|].
    unfold bind at 1. pose proof (delete_accessory_instance_run item_instance_id w1) as Hdelete.
    destruct (delete_accessory_instance item_instance_id w1) as [[[]|] w2]; [|exact I].
    destruct Hdelete as [Hdb2 Husers2].
    pose proof (list_item_run uid seller item_type (accessory_id item) price
                  (accessory_refine_level item) w2) as Hlist.
    destruct (list_item _ _ _ _ _ _ _ _ _ w2) as [[response|] w3]; [|exact I].
    destruct Hlist as (-> & Husers3 & Hdb3).
    split; [lia|]. split.
    + exists seller. repeat split; [exact Hafford|]. by rewrite Husers3, Husers2, Husers1.
    + right. split; [exact Hacc|]. split; [by exists item|].
      by rewrite Hdb3, Hdb2, Hdb1.
Qed.

End ListingRuns.

(** Alice lists her spare rod 3 for 300 coins, at a fee of 2 in 100. *)
Lemma put_item_on_sale_takes_an_item_of_the_seller_witness :
  match put_item_on_sale (λ price, (price * 2) `div` 100) (λ _, ret tt) (λ _, ret tt)
          "alice" "rod" 3 300 (Sample.world 50 Sample.equipped_db) with
  | (Val MarketSuccess, w') =>
      0 < 300
      ∧ (∃ seller, users (Sample.world 50 Sample.equipped_db) !! "alice" = Some seller
                   ∧ (300 * 2) `div` 100 ≤ coins seller
                   ∧ users w' = <[user_id seller :=
                                    with_coins (coins seller - (300 * 2) `div` 100) seller]>
                                  (users (Sample.world 50 Sample.equipped_db)))
      ∧ (("rod" = "rod"
          ∧ (∃ item, item ∈ user_rods Sample.equipped_db ∧ rod_user_id item = "alice"
                     ∧ rod_instance_id item = 3 ∧ rod_is_equipped item = false)
          ∧ db w' = delete_rod 3 Sample.equipped_db)
         ∨ ("rod" = "accessory"
            ∧ (∃ item, item ∈ user_accessories Sample.equipped_db
                       ∧ accessory_user_id item = "alice"
                       ∧ accessory_instance_id item = 3
                       ∧ accessory_is_equipped item = false)
            ∧ db w' = delete_accessory 3 Sample.equipped_db))
  | (Val (MarketFailure _), w') =>
      users w' = users (Sample.world 50 Sample.equipped_db) ∧ db w' = Sample.equipped_db
  | (Exn, _) => True
  end.
Proof.
  apply (put_item_on_sale_takes_an_item_of_the_seller (λ price, (price * 2) `div` 100)
           (λ _, ret tt) (λ _, ret tt));
    intros x w; repeat split.
Defined.

(** That listing in full: the spare rod is gone, the equipped one stays,
    and the fee of 6 coins is paid; the equipped rod is refused. *)
Example alice_lists_her_spare_rod :
  match put_item_on_sale (λ price, (price * 2) `div` 100) (λ _, ret tt) (λ _, ret tt)
          "alice" "rod" 3 300 (Sample.world 50 Sample.equipped_db) with
  | (Val MarketSuccess, w') =>
      rod_instance_id <$> user_rods (db w') = [1]
      ∧ coins <$> users w' !! "alice" = Some 44
  | _ => False
  end
  ∧ (put_item_on_sale (λ price, (price * 2) `div` 100) (λ _, ret tt) (λ _, ret tt)
       "alice" "rod" 1 300 (Sample.world 50 Sample.equipped_db)).1
    = Val (MarketFailure ItemEquipped).
Proof. vm_compute. repeat split. Qed.
